(** * poker-lan: the hand evaluator and the table engine

    A shallow embedding of [poker.js] (deck and hand evaluator) and of
    [server.js]: the betting engine (turn order, round closure, street
    advancement, showdown, start of a hand) and the socket handlers
    (joining, rebuy, disconnect, the broadcast state), with the
    properties of the specification stated over it.

    Conventions of the embedding
    - JS numbers that hold chip counts, seat indices and card values are
      integers here ([Z]); [%] is [Z.rem], [Math.floor(a / b)] with a
      positive [b] is [Z.div].
    - A reference to a player object is its position in [room.players];
      a mutation through the reference is an [alter] at that position.
    - [undefined] card slots (what [Array.pop] gives on an empty deck) are
      [None]; a [TypeError] is the outcome [Throw].
    - Socket emissions ([io.to(..).emit], [broadcastRoomState]) change no
      table state and are left out of the engine; the message that
      [broadcastRoomState] builds is a function of the room on its own.
      [room.turnTimer] is kept as the id of the player the pending
      timeout would fold. *)

From Stdlib Require Import ZArith List Bool Lia.
From stdpp Require Import base numbers list strings gmap.

Local Open Scope Z_scope.

(** ** JS helpers shared by both files *)

Section JsArrays.
Context {A : Type}.

(** One step of a stable insertion: [x] goes after every [y] that the
    comparator does not order after it ([cmp y x <= 0]). *)
Fixpoint insertBy (cmp : A -> A -> Z) (x : A) (l : list A) : list A :=
  match l with
  | [] => [x]
  | y :: t => if cmp y x <=? 0 then y :: insertBy cmp x t else x :: y :: t
  end.

(** [Array.prototype.sort(cmp)]: stable, ordered by the sign of [cmp]. *)
Definition sortJS (cmp : A -> A -> Z) (l : list A) : list A :=
  fold_left (fun acc x => insertBy cmp x acc) l [].

(** Keys of an object, or members of a [Set], in first-insertion order. *)
Fixpoint uniq (eqb : A -> A -> bool) (l : list A) : list A :=
  match l with
  | [] => []
  | x :: t => x :: List.filter (fun y => negb (eqb x y)) (uniq eqb t)
  end.

(** [Array.prototype.pop]: the last element (or [undefined]) and the
    array without it. *)
Definition pop (l : list A) : option A * list A := (last l, removelast l).
End JsArrays.

(** [Math.max(...l)] for a non-empty [l] (the source never spreads an
    empty array into a value it uses). *)
Definition Math_max (l : list Z) : Z :=
  match l with
  | [] => 0
  | x :: t => fold_left Z.max t x
  end.

(** ** poker.js *)

Module Poker.

Inductive Suit := Spades | Hearts | Diamonds | Clubs.
Inductive Rank := R2 | R3 | R4 | R5 | R6 | R7 | R8 | R9 | RT | RJ | RQ | RK | RA.

Definition SUITS : list Suit := [Spades; Hearts; Diamonds; Clubs].
Definition RANKS : list Rank := [R2; R3; R4; R5; R6; R7; R8; R9; RT; RJ; RQ; RK; RA].

Definition RANK_VALUE (r : Rank) : Z :=
  match r with
  | R2 => 2 | R3 => 3 | R4 => 4 | R5 => 5 | R6 => 6 | R7 => 7 | R8 => 8
  | R9 => 9 | RT => 10 | RJ => 11 | RQ => 12 | RK => 13 | RA => 14
  end.

(** The one-character rank string, used in hand names. *)
Definition rankStr (r : Rank) : string :=
  match r with
  | R2 => "2" | R3 => "3" | R4 => "4" | R5 => "5" | R6 => "6" | R7 => "7"
  | R8 => "8" | R9 => "9" | RT => "T" | RJ => "J" | RQ => "Q" | RK => "K"
  | RA => "A"
  end.

#[global] Instance Suit_eq_dec : EqDecision Suit.
Proof. solve_decision. Defined.
#[global] Instance Rank_eq_dec : EqDecision Rank.
Proof. solve_decision. Defined.

Definition suit_eqb (a b : Suit) : bool := bool_decide (a = b).
Definition rank_eqb (a b : Rank) : bool := bool_decide (a = b).

(** A card object [{rank, suit, value}]; [value] is always
    [RANK_VALUE[rank]] (set once in [Deck.reset]). *)
Record Card := mkCard { rank : Rank; suit : Suit }.
Definition value (c : Card) : Z := RANK_VALUE (rank c).

#[global] Instance Card_eq_dec : EqDecision Card.
Proof. solve_decision. Defined.

(** [Deck.reset] before the shuffle: suits outer, ranks inner. *)
Definition freshDeck : list Card :=
  flat_map (fun s => map (fun r => mkCard r s) RANKS) SUITS.

(** [Deck.deal]. *)
Definition deal (cards : list Card) : option Card * list Card := pop cards.

(** The returned [{score, name}] ([tieBreaker] is never read). *)
Record HandResult := mkResult { score : Z; name : string }.

(** [getCounts(cards)[k]]. *)
Definition counts (cards : list Card) (k : Rank) : Z :=
  Z.of_nat (length (List.filter (fun c => rank_eqb (rank c) k) cards)).

(** Keys that JS orders as array indices: ['2'] .. ['9']. *)
Definition isIndexKey (r : Rank) : bool :=
  match r with
  | RT | RJ | RQ | RK | RA => false
  | _ => true
  end.

(** [Object.keys(counts)]: integer-like keys ascending, then the other
    keys in insertion order. *)
Definition keys (cards : list Card) : list Rank :=
  let seen := uniq rank_eqb (map rank cards) in
  sortJS (fun a b => RANK_VALUE a - RANK_VALUE b) (List.filter isIndexKey seen)
    ++ List.filter (fun r => negb (isIndexKey r)) seen.

(** [isFlush]: the first suit (in order of first appearance) with five
    or more cards, cut to its first five cards. *)
Definition isFlush (cards : list Card) : option (list Card) :=
  let ofSuit s := List.filter (fun c => suit_eqb (suit c) s) cards in
  match List.find (fun s => 5 <=? Z.of_nat (length (ofSuit s)))
                  (uniq suit_eqb (map suit cards)) with
  | Some s => Some (firstn 5 (ofSuit s))
  | None => None
  end.

(** The [for (let v of uniqueValues)] loop of [isStraight]. *)
Fixpoint straightLoop (vs : list Z) (streak : list Z) : option Z :=
  match vs with
  | [] => None
  | v :: rest =>
      let streak' :=
        match last streak with
        | None => streak ++ [v]
        | Some l => if l =? v + 1 then streak ++ [v] else [v]
        end in
      if Z.of_nat (length streak') =? 5 then head streak'
      else straightLoop rest streak'
  end.

(** [isStraight]: [Some high] for the number, [None] for [false]. *)
Definition isStraight (cards : list Card) : option Z :=
  let uniqueValues := uniq Z.eqb (map value cards) in
  let uniqueValues :=
    if existsb (Z.eqb 14) uniqueValues then uniqueValues ++ [1] else uniqueValues in
  straightLoop (sortJS (fun a b => b - a) uniqueValues) [].

(** [evaluateHand]. [None] is the [TypeError] of [allCards[0].value] on
    an empty input. *)
Definition evaluateHand (holeCards communityCards : list Card) : option HandResult :=
  let allCards := sortJS (fun a b => value b - value a) (holeCards ++ communityCards) in
  match isFlush allCards with
  | Some flushCards =>
      match isStraight flushCards with
      | Some straightFlushHigh => Some (mkResult (900 + straightFlushHigh) "Straight Flush")
      | None =>
          match flushCards with
          | c :: _ => Some (mkResult (600 + value c) "Flush")
          | [] => None
          end
      end
  | None =>
      let ks := keys allCards in
      let quads := List.filter (fun k => counts allCards k =? 4) ks in
      let trips := List.filter (fun k => counts allCards k =? 3) ks in
      let pairs := List.filter (fun k => counts allCards k =? 2) ks in
      match quads with
      | q :: _ => Some (mkResult (800 + RANK_VALUE q) ("Four of a Kind (" +:+ rankStr q +:+ "s)"))
      | [] =>
          if (0 <? Z.of_nat (length trips))
             && ((2 <=? Z.of_nat (length trips)) || (0 <? Z.of_nat (length pairs)))
          then Some (mkResult (700 + Math_max (map RANK_VALUE trips)) "Full House")
          else
            match isStraight allCards with
            | Some straightHigh => Some (mkResult (500 + straightHigh) "Straight")
            | None =>
                match trips with
                | t :: _ =>
                    Some (mkResult (400 + Math_max (map RANK_VALUE trips))
                                   ("Three of a Kind (" +:+ rankStr t +:+ "s)"))
                | [] =>
                    match sortJS (fun a b => RANK_VALUE b - RANK_VALUE a) pairs with
                    | p :: _ :: _ => Some (mkResult (300 + RANK_VALUE p) "Two Pair")
                    | [p] => Some (mkResult (200 + RANK_VALUE p) ("Pair of " +:+ rankStr p +:+ "s"))
                    | [] =>
                        match allCards with
                        | c :: _ => Some (mkResult (100 + value c) "High Card")
                        | [] => None
                        end
                    end
                end
            end
      end
  end.

End Poker.

(** ** server.js: the table and the betting engine *)

(** Outcome of a call: a value, a [TypeError], or the recursion budget of
    the model used up ([EngineLemmas.handlePlayerAction_fuel]: never from
    a budget of 2 on). *)
Inductive Res (A : Type) : Type :=
  | Ret (a : A)
  | Throw
  | OutOfFuel.
Arguments Ret {A} a.
Arguments Throw {A}.
Arguments OutOfFuel {A}.

#[global] Instance Res_ret : MRet Res := fun A a => Ret a.
#[global] Instance Res_bind : MBind Res := fun A B f m =>
  match m with
  | Ret a => f a
  | Throw => Throw
  | OutOfFuel => OutOfFuel
  end.

Module Server.
Import Poker.

Definition STARTING_CHIPS : Z := 200.
Definition SMALL_BLIND : Z := 1.
Definition BIG_BLIND : Z := 2.

(** [player.status] *)
Inductive Status := SWaiting | SActive | SFolded | SAllIn | SSittingOut | SBusted | SReady.
(** [room.gameStatus] *)
Inductive GameStatus := GWaiting | GPlaying | GShowdown.
(** [room.roundName]; [NoRound] is the field before the first hand. *)
Inductive RoundName := NoRound | Preflop | Flop | Turn | River.

#[global] Instance Status_eq_dec : EqDecision Status.
Proof. solve_decision. Defined.
#[global] Instance GameStatus_eq_dec : EqDecision GameStatus.
Proof. solve_decision. Defined.
#[global] Instance RoundName_eq_dec : EqDecision RoundName.
Proof. solve_decision. Defined.

(** A card slot of a hand or of the board: [None] is [undefined]. *)
Definition Slot : Type := option Card.

Record Player := mkPlayer {
  id : string;
  chips : Z;
  seatIndex : Z;
  status : Status;
  hand : list Slot;
  currentBet : Z;
  actedInRound : bool
}.

Record Room := mkRoom {
  players : list Player;
  gameStatus : GameStatus;
  minPlayers : Z;
  dealerIndex : Z;
  sbIndex : Z;
  bbIndex : Z;
  currentTurnIndex : Z;
  pot : Z;
  highestBet : Z;
  lastRaiseAmount : Z;
  roundName : RoundName;
  communityCards : list Slot;
  deck : list Card;
  turnTimer : option string
}.

(** Field assignments. *)
Definition setChips (v : Z) (p : Player) : Player :=
  mkPlayer (id p) v (seatIndex p) (status p) (hand p) (currentBet p) (actedInRound p).
Definition setStatus (v : Status) (p : Player) : Player :=
  mkPlayer (id p) (chips p) (seatIndex p) v (hand p) (currentBet p) (actedInRound p).
Definition setHand (v : list Slot) (p : Player) : Player :=
  mkPlayer (id p) (chips p) (seatIndex p) (status p) v (currentBet p) (actedInRound p).
Definition setCurrentBet (v : Z) (p : Player) : Player :=
  mkPlayer (id p) (chips p) (seatIndex p) (status p) (hand p) v (actedInRound p).
Definition setActedInRound (v : bool) (p : Player) : Player :=
  mkPlayer (id p) (chips p) (seatIndex p) (status p) (hand p) (currentBet p) v.

Definition setPlayers (v : list Player) (r : Room) : Room :=
  mkRoom v (gameStatus r) (minPlayers r) (dealerIndex r) (sbIndex r) (bbIndex r)
    (currentTurnIndex r) (pot r) (highestBet r) (lastRaiseAmount r) (roundName r)
    (communityCards r) (deck r) (turnTimer r).
Definition setGameStatus (v : GameStatus) (r : Room) : Room :=
  mkRoom (players r) v (minPlayers r) (dealerIndex r) (sbIndex r) (bbIndex r)
    (currentTurnIndex r) (pot r) (highestBet r) (lastRaiseAmount r) (roundName r)
    (communityCards r) (deck r) (turnTimer r).
Definition setDealerIndex (v : Z) (r : Room) : Room :=
  mkRoom (players r) (gameStatus r) (minPlayers r) v (sbIndex r) (bbIndex r)
    (currentTurnIndex r) (pot r) (highestBet r) (lastRaiseAmount r) (roundName r)
    (communityCards r) (deck r) (turnTimer r).
Definition setBlindIndices (sb bb : Z) (r : Room) : Room :=
  mkRoom (players r) (gameStatus r) (minPlayers r) (dealerIndex r) sb bb
    (currentTurnIndex r) (pot r) (highestBet r) (lastRaiseAmount r) (roundName r)
    (communityCards r) (deck r) (turnTimer r).
Definition setCurrentTurnIndex (v : Z) (r : Room) : Room :=
  mkRoom (players r) (gameStatus r) (minPlayers r) (dealerIndex r) (sbIndex r) (bbIndex r)
    v (pot r) (highestBet r) (lastRaiseAmount r) (roundName r)
    (communityCards r) (deck r) (turnTimer r).
Definition setPot (v : Z) (r : Room) : Room :=
  mkRoom (players r) (gameStatus r) (minPlayers r) (dealerIndex r) (sbIndex r) (bbIndex r)
    (currentTurnIndex r) v (highestBet r) (lastRaiseAmount r) (roundName r)
    (communityCards r) (deck r) (turnTimer r).
Definition setHighestBet (v : Z) (r : Room) : Room :=
  mkRoom (players r) (gameStatus r) (minPlayers r) (dealerIndex r) (sbIndex r) (bbIndex r)
    (currentTurnIndex r) (pot r) v (lastRaiseAmount r) (roundName r)
    (communityCards r) (deck r) (turnTimer r).
Definition setLastRaiseAmount (v : Z) (r : Room) : Room :=
  mkRoom (players r) (gameStatus r) (minPlayers r) (dealerIndex r) (sbIndex r) (bbIndex r)
    (currentTurnIndex r) (pot r) (highestBet r) v (roundName r)
    (communityCards r) (deck r) (turnTimer r).
Definition setRoundName (v : RoundName) (r : Room) : Room :=
  mkRoom (players r) (gameStatus r) (minPlayers r) (dealerIndex r) (sbIndex r) (bbIndex r)
    (currentTurnIndex r) (pot r) (highestBet r) (lastRaiseAmount r) v
    (communityCards r) (deck r) (turnTimer r).
Definition setCommunityCards (v : list Slot) (r : Room) : Room :=
  mkRoom (players r) (gameStatus r) (minPlayers r) (dealerIndex r) (sbIndex r) (bbIndex r)
    (currentTurnIndex r) (pot r) (highestBet r) (lastRaiseAmount r) (roundName r)
    v (deck r) (turnTimer r).
Definition setDeck (v : list Card) (r : Room) : Room :=
  mkRoom (players r) (gameStatus r) (minPlayers r) (dealerIndex r) (sbIndex r) (bbIndex r)
    (currentTurnIndex r) (pot r) (highestBet r) (lastRaiseAmount r) (roundName r)
    (communityCards r) v (turnTimer r).
Definition setTurnTimer (v : option string) (r : Room) : Room :=
  mkRoom (players r) (gameStatus r) (minPlayers r) (dealerIndex r) (sbIndex r) (bbIndex r)
    (currentTurnIndex r) (pot r) (highestBet r) (lastRaiseAmount r) (roundName r)
    (communityCards r) (deck r) v.

(** A mutation of the player object at position [i]. *)
Definition updPlayer (i : nat) (f : Player -> Player) (r : Room) : Room :=
  setPlayers (alter f i (players r)) r.

Definition hasStatus (s : Status) (p : Player) : bool := bool_decide (status p = s).

(** [room.players.filter(f)] as an array of references: the positions of
    the players that satisfy [f], in array order. *)
Fixpoint refsFrom (f : Player -> bool) (k : nat) (ps : list Player) : list nat :=
  match ps with
  | [] => []
  | p :: t => if f p then k :: refsFrom f (S k) t else refsFrom f (S k) t
  end.
Definition refsWhere (f : Player -> bool) (ps : list Player) : list nat :=
  refsFrom f 0 ps.

(** [room.lastRaiseAmount || BIG_BLIND] *)
Definition lastRaiseOrBB (r : Room) : Z :=
  if lastRaiseAmount r =? 0 then BIG_BLIND else lastRaiseAmount r.

Definition clearTimeout (r : Room) : Room := setTurnTimer None r.

(** [startTurnTimer]: arms the timeout that will fold [player]. *)
Definition startTurnTimer (r : Room) (player : Player) : Room :=
  setTurnTimer (Some (id player)) r.

(** ** Showdown *)

(** [evaluateHand(p.hand, room.communityCards)]: reading a field of an
    [undefined] slot throws. *)
Definition evalSlots (h cc : list Slot) : Res HandResult :=
  match mapM (fun s : Slot => s) h, mapM (fun s : Slot => s) cc with
  | Some hs, Some cs =>
      match evaluateHand hs cs with
      | Some e => Ret e
      | None => Throw
      end
  | _, _ => Throw
  end.

Definition isCandidate (p : Player) : bool :=
  negb (hasStatus SFolded p) && negb (hasStatus SSittingOut p)
    && (0 <? Z.of_nat (length (hand p))).

(** The [candidates.map] of the showdown branch: one [(player, score)]
    per candidate. *)
Fixpoint scoreAll (ps : list Player) (cc : list Slot) (cands : list nat)
  : Res (list (nat * Z)) :=
  match cands with
  | [] => Ret []
  | i :: t =>
      match ps !! i with
      | None => Throw
      | Some p =>
          e ← evalSlots (hand p) cc;
          rest ← scoreAll ps cc t;
          Ret ((i, score e) :: rest)
      end
  end.

Definition addChips (amount : Z) (p : Player) : Player :=
  setChips (chips p + amount) p.

(** [winners.forEach(w => w.player.chips += splitAmount)] *)
Definition payWinners (splitAmount : Z) (winners : list (nat * Z)) (ps : list Player)
  : list Player :=
  fold_left (fun acc w => alter (addChips splitAmount) (fst w) acc) winners ps.

(** [endHand]. With no candidate at all [results] is empty and
    [winnerResult] is [undefined], but [results.filter] never calls its
    callback on an empty array, so [winnerResult.score] is not read:
    [winners] is empty, nobody is paid, and the function returns. *)
Definition endHand (room : Room) : Res Room :=
  let room := clearTimeout (setGameStatus GShowdown room) in
  let candidates := refsWhere isCandidate (players room) in
  match candidates with
  | [winner] => Ret (updPlayer winner (addChips (pot room)) room)
  | _ =>
      results ← scoreAll (players room) (communityCards room) candidates;
      let results := sortJS (fun a b => snd b - snd a) results in
      match results with
      | [] => Ret room
      | winnerResult :: _ =>
          let winners := List.filter (fun r => snd r =? snd winnerResult) results in
          let splitAmount := pot room `div` Z.of_nat (length winners) in
          Ret (setPlayers (payWinners splitAmount winners (players room)) room)
      end
  end.

(** ** Turn order, round closure, street advancement *)

(** The [while (playersChecked < 9)] scan of [nextTurn]. *)
Fixpoint scanSeats (ps : list Player) (nextIndex : Z) (n : nat) : option (Z * Player) :=
  match n with
  | O => None
  | S n' =>
      match List.find (fun pl => seatIndex pl =? nextIndex) ps with
      | Some p =>
          if hasStatus SActive p && (0 <? chips p) then Some (nextIndex, p)
          else scanSeats ps ((nextIndex + 1) `rem` 9) n'
      | None => scanSeats ps ((nextIndex + 1) `rem` 9) n'
      end
  end.

(** [nextTurn], with the [checkRoundEnd] it calls as a parameter. *)
Definition nextTurn_with (checkRoundEnd : Room -> Res (Room * bool)) (room : Room)
  : Res Room :=
  if negb (bool_decide (gameStatus room = GPlaying)) then Ret room
  else
    let room := clearTimeout room in
    match scanSeats (players room) ((currentTurnIndex room + 1) `rem` 9) 9 with
    | Some (nextIndex, p) => Ret (startTurnTimer (setCurrentTurnIndex nextIndex room) p)
    | None => '(room, _) ← checkRoundEnd room; Ret room
    end.

(** Lines 140-146 of [nextStreet]: gather the bets into the pot. *)
Definition sweepBets (room : Room) : Room :=
  let pot' := fold_left (fun acc p => acc + currentBet p) (players room) (pot room) in
  let ps := map (fun p => setActedInRound false (setCurrentBet 0 p)) (players room) in
  setLastRaiseAmount BIG_BLIND (setHighestBet 0 (setPot pot' (setPlayers ps room))).

(** [room.communityCards.push(room.deck.deal())] *)
Definition pushCard (room : Room) : Room :=
  let (c, d) := deal (deck room) in
  setCommunityCards (communityCards room ++ [c]) (setDeck d room).

(** Lines 148-157 of [nextStreet]: the cards of the new street (the
    [river] case, which ends the hand, is in [nextStreet_with]). *)
Definition dealStreet (room : Room) : Room :=
  match roundName room with
  | Preflop =>
      let room := setRoundName Flop room in
      let (guard, d0) := deal (deck room) in
      match guard with
      | Some _ =>
          let (c1, d1) := deal d0 in
          let (c2, d2) := deal d1 in
          let (c3, d3) := deal d2 in
          setCommunityCards [c1; c2; c3] (setDeck d3 room)
      | None => setCommunityCards [] (setDeck d0 room)
      end
  | Flop => pushCard (setRoundName Turn room)
  | Turn => pushCard (setRoundName River room)
  | _ => room
  end.

(** [while (room.communityCards.length < 5) push(deal())] *)
Definition autoRun (room : Room) : Room :=
  Nat.iter (5 - length (communityCards room)) pushCard room.

(** [nextStreet], with the [nextTurn] it calls as a parameter. *)
Definition nextStreet_with (nextTurn : Room -> Res Room) (room : Room) : Res Room :=
  let room := sweepBets room in
  if bool_decide (roundName room = River) then endHand room
  else
    let room := dealStreet room in
    let nextIdx := (dealerIndex room + 1) `rem` 9 in
    let room := setCurrentTurnIndex (nextIdx - 1) room in
    let active := List.filter (hasStatus SActive) (players room) in
    if Z.of_nat (length active) <? 2 then endHand (autoRun room)
    else nextTurn room.

Definition foldedCount (room : Room) : Z :=
  Z.of_nat (length (List.filter (hasStatus SFolded) (players room))).
Definition totalInHand (room : Room) : Z :=
  Z.of_nat (length (List.filter (fun p => 0 <? Z.of_nat (length (hand p))) (players room))).

(** [bettingPlayers.some(p => p.actedInRound === false ||
    p.currentBet < room.highestBet)] *)
Definition pendingAction (room : Room) : bool :=
  existsb (fun p => negb (actedInRound p) || (currentBet p <? highestBet room))
    (List.filter (hasStatus SActive)
       (List.filter (fun p => hasStatus SActive p || hasStatus SAllIn p) (players room))).

(** [checkRoundEnd]; the result pairs the room with the returned flag.
    [fuel] bounds the depth of the cycle
    [checkRoundEnd -> nextStreet -> nextTurn -> checkRoundEnd]. *)
Fixpoint checkRoundEnd (fuel : nat) (room : Room) : Res (Room * bool) :=
  match fuel with
  | O => OutOfFuel
  | S fuel' =>
      if negb (bool_decide (gameStatus room = GPlaying)) then Ret (room, true)
      else if totalInHand room - foldedCount room =? 1 then
        room' ← endHand room; Ret (room', true)
      else if negb (pendingAction room) then
        room' ← nextStreet_with (nextTurn_with (checkRoundEnd fuel')) room;
        Ret (room', true)
      else Ret (room, false)
  end.

Definition nextTurn (fuel : nat) : Room -> Res Room :=
  nextTurn_with (checkRoundEnd fuel).
Definition nextStreet (fuel : nat) : Room -> Res Room :=
  nextStreet_with (nextTurn fuel).

(** ** Start of a hand *)

(** The [do ... while] that moves the dealer button: the body runs once,
    then again while the seat is empty, at most 9 times in all ([n]
    counts the repetitions left). *)
Fixpoint moveDealer (ps : list Player) (dealerIdx : Z) (n : nat) : Z :=
  let d := (dealerIdx + 1) `rem` 9 in
  match n with
  | O => d
  | S n' =>
      match List.find (fun p => seatIndex p =? d) ps with
      | Some _ => d
      | None => moveDealer ps d n'
      end
  end.

Definition inHandFilter (p : Player) : bool :=
  (0 <? chips p) && negb (hasStatus SSittingOut p).

(** The [playersInHand.forEach] that deals two cards to each player. *)
Fixpoint dealHands (refs : list nat) (ps : list Player) (d : list Card)
  : list Player * list Card :=
  match refs with
  | [] => (ps, d)
  | i :: t =>
      let (c1, d1) := deal d in
      let (c2, d2) := deal d1 in
      let upd p := setActedInRound false (setCurrentBet 0 (setHand [c1; c2] (setStatus SActive p))) in
      dealHands t (alter upd i ps) d2
  end.

(** [p.seatIndex] through a reference. *)
Definition seatOf (ps : list Player) (i : nat) : Z :=
  match ps !! i with
  | Some p => seatIndex p
  | None => 0
  end.
Definition chipsOf (ps : list Player) (i : nat) : Z :=
  match ps !! i with
  | Some p => chips p
  | None => 0
  end.

(** The [for (i = 1; i <= 9; i++)] loop of [getNextPlayer], over the
    offsets still to try. *)
Fixpoint getNextFrom (ps : list Player) (inHand : list nat) (fromIndex : Z)
    (offsets : list Z) : nat :=
  match offsets with
  | [] => hd 0%nat inHand
  | i :: t =>
      match List.find (fun r => seatOf ps r =? (fromIndex + i) `rem` 9) inHand with
      | Some r => r
      | None => getNextFrom ps inHand fromIndex t
      end
  end.
Definition getNextPlayer (ps : list Player) (inHand : list nat) (fromIndex : Z) : nat :=
  getNextFrom ps inHand fromIndex [1; 2; 3; 4; 5; 6; 7; 8; 9].

(** A forced bet: [amt = min(chips, blind); chips -= amt; currentBet = amt]. *)
Definition postBlind (blind : Z) (p : Player) : Player :=
  let amt := Z.min (chips p) blind in
  setCurrentBet amt (setChips (chips p - amt) p).

(** [startGame]; [shuffled] is the deck that [new Deck()] produced. *)
Definition startGame (shuffled : list Card) (room : Room) : Room :=
  let room := setGameStatus GPlaying room in
  let room := setDeck shuffled room in
  let room := setPot 0 room in
  let room := setCommunityCards [] room in
  let room := setHighestBet 0 room in
  let room := setRoundName Preflop room in
  let room := setDealerIndex (moveDealer (players room) (dealerIndex room) 8) room in
  let playersInHand := refsWhere inHandFilter (players room) in
  if Z.of_nat (length playersInHand) <? 2 then setGameStatus GWaiting room
  else
    let (ps, d) := dealHands playersInHand (players room) (deck room) in
    let room := setDeck d (setPlayers ps room) in
    let playersInHand :=
      sortJS (fun a b => seatOf (players room) a - seatOf (players room) b) playersInHand in
    let next := getNextPlayer (players room) playersInHand in
    let dealer :=
      match List.find (fun r => seatOf (players room) r =? dealerIndex room) playersInHand with
      | Some r => r
      | None => hd 0%nat playersInHand
      end in
    let sbPlayer := next (seatOf (players room) dealer) in
    let bbPlayer :=
      if Z.of_nat (length playersInHand) =? 2 then dealer
      else next (seatOf (players room) sbPlayer) in
    let room :=
      setBlindIndices (seatOf (players room) sbPlayer) (seatOf (players room) bbPlayer) room in
    let room := updPlayer sbPlayer (postBlind SMALL_BLIND) room in
    let room := updPlayer bbPlayer (postBlind BIG_BLIND) room in
    let room := setLastRaiseAmount BIG_BLIND (setHighestBet BIG_BLIND room) in
    let utgPlayer := next (seatOf (players room) bbPlayer) in
    let room := setCurrentTurnIndex (seatOf (players room) utgPlayer) room in
    match players room !! utgPlayer with
    | Some p => startTurnTimer room p
    | None => room
    end.

(** The [startGameRequest] handler, for the room of the requesting
    socket. *)
Definition startGameRequest (shuffled : list Card) (room : Room) : Room :=
  if negb (bool_decide (gameStatus room = GWaiting)) then room
  else if Z.of_nat (length (players room)) <? minPlayers room then room
  else startGame shuffled room.

(** [startNextHandOrWait], run by the timeout that [endHand] sets. *)
Definition startNextHandOrWait (shuffled : list Card) (room : Room) : Room :=
  let reset p :=
    let p := setActedInRound false (setCurrentBet 0 (setHand [] p)) in
    if negb (hasStatus SSittingOut p)
    then setStatus (if 0 <? chips p then SWaiting else SBusted) p
    else p in
  let room := setPlayers (map reset (players room)) room in
  let room := setGameStatus GWaiting (setCommunityCards [] (setPot 0 room)) in
  let readyPlayers :=
    List.filter (fun p => hasStatus SWaiting p || hasStatus SActive p || hasStatus SReady p)
      (players room) in
  let playersWithChips := List.filter (fun p => 0 <? chips p) readyPlayers in
  if minPlayers room <=? Z.of_nat (length playersWithChips) then startGame shuffled room
  else room.

(** ** One player action *)

(** [data.action]; [OtherAction] is any string the handler does not
    recognise. *)
Inductive Action := AFold | ACheck | ACall | ABet | ARaise | AAllIn | OtherAction.

(** [data], with [amount] already through [parseInt]: [None] is [NaN]. *)
Record ActionData := mkData { action : Action; amount : option Z }.

(** [room.players.filter(p => p.status === 'active' && p.id !== player.id)
      .forEach(p => p.actedInRound = false)] *)
Definition reopenBetting (player : Player) (room : Room) : Room :=
  setPlayers
    (map (fun p => if hasStatus SActive p && negb (String.eqb (id p) (id player))
                   then setActedInRound false p else p)
         (players room))
    room.

(** Lines 349-415 of [handlePlayerAction]: the effect of the action
    itself, before the round-closure check. [player] is the object at
    position [i] on entry. *)
Definition applyAction (room : Room) (i : nat) (player : Player) (data : ActionData) : Room :=
  let toCall := highestBet room - currentBet player in
  let room :=
    match action data with
    | AFold => updPlayer i (setStatus SFolded) room
    | ACheck =>
        if 0 <? toCall then updPlayer i (setStatus SFolded) room else room
    | ACall =>
        let contribution := Z.min (chips player) toCall in
        let p := setCurrentBet (currentBet player + contribution)
                   (setChips (chips player - contribution) player) in
        let p := if chips p =? 0 then setStatus SAllIn p else p in
        updPlayer i (fun _ => p) room
    | ABet | ARaise =>
        let raiseTotal :=
          match amount data with
          | Some a => a
          | None => highestBet room + BIG_BLIND
          end in
        let minTotal := highestBet room + lastRaiseOrBB room in
        let raiseTotal :=
          if (raiseTotal <? minTotal) && (raiseTotal <? chips player + currentBet player)
          then minTotal else raiseTotal in
        let needed := raiseTotal - currentBet player in
        let room :=
          if chips player <? needed then
            let actualBet := chips player + currentBet player in
            let room :=
              updPlayer i (fun _ => setStatus SAllIn (setCurrentBet actualBet (setChips 0 player)))
                room in
            if highestBet room <? actualBet
            then setHighestBet actualBet (setLastRaiseAmount (actualBet - highestBet room) room)
            else room
          else
            let p := setCurrentBet (currentBet player + needed)
                       (setChips (chips player - needed) player) in
            let room := updPlayer i (fun _ => p) room in
            let diff := currentBet p - highestBet room in
            let room := if 0 <? diff then setLastRaiseAmount diff room else room in
            setHighestBet (currentBet p) room in
        reopenBetting player room
    | AAllIn =>
        let total := chips player + currentBet player in
        let room :=
          updPlayer i (fun _ => setStatus SAllIn (setCurrentBet total (setChips 0 player))) room in
        if highestBet room <? total then
          reopenBetting player
            (setHighestBet total (setLastRaiseAmount (total - highestBet room) room))
        else room
    | OtherAction => room
    end in
  updPlayer i (setActedInRound true) room.

(** [handlePlayerAction(room, player, data)], [player] being the object
    at position [i] of [room.players]. *)
Definition handlePlayerAction (fuel : nat) (room : Room) (i : nat) (data : ActionData)
  : Res Room :=
  if negb (bool_decide (gameStatus room = GPlaying)) then Ret room
  else
    match players room !! i with
    | None => Throw
    | Some player =>
        if negb (seatIndex player =? currentTurnIndex room) then Ret room
        else
          let room := clearTimeout room in
          let room := applyAction room i player data in
          '(room, roundClosed) ← checkRoundEnd fuel room;
          if (roundClosed : bool) then Ret room else nextTurn fuel room
    end.

(** The conserved quantity of the specification:
    [sum(chips) + pot + sum(currentBet)]. *)
Definition sumOf (f : Player -> Z) (ps : list Player) : Z :=
  fold_right (fun p acc => f p + acc) 0 ps.
Definition chipTotal (room : Room) : Z :=
  sumOf chips (players room) + pot room + sumOf currentBet (players room).

End Server.


(** ** poker.js: the shuffle *)

Module PokerDeck.
Import Poker.

(** [[a[i], a[j]] = [a[j], a[i]]], for two positions inside the array
    (the only ones the shuffle uses). *)
Definition swap {A : Type} (i j : nat) (l : list A) : list A :=
  match l !! i, l !! j with
  | Some x, Some y => <[j := x]> (<[i := y]> l)
  | _, _ => l
  end.

(** The [for (let i = length - 1; i > 0; i--)] loop of [shuffle], from
    position [i] down; [draw i] is the [j] that
    [Math.floor(Math.random() * (i + 1))] gave at position [i]. *)
Fixpoint shuffleFrom {A : Type} (draw : nat -> nat) (i : nat) (l : list A) : list A :=
  match i with
  | O => l
  | S i' => shuffleFrom draw i' (swap i (draw i) l)
  end.

(** [Deck.shuffle] *)
Definition shuffle {A : Type} (draw : nat -> nat) (l : list A) : list A :=
  shuffleFrom draw (length l - 1) l.

(** [new Deck()]: [reset] fills the array and shuffles it. *)
Definition newDeck (draw : nat -> nat) : list Card := shuffle draw freshDeck.

End PokerDeck.

(** ** server.js: the socket handlers *)

Module Handlers.
Import Poker Server.

(** The room object that [joinRoom] creates. The fields it leaves unset
    ([sbIndex], [bbIndex], [currentTurnIndex], [highestBet],
    [lastRaiseAmount]) are written by [startGame] before the engine reads
    them; they are 0 here, and [deck: null] is the empty deck.
    [broadcastRoomState], which can read [sbIndex] and [bbIndex] before
    that, is told so by its [started] argument. *)
Definition newRoom : Room := mkRoom [] GWaiting 5 0 0 0 0 0 0 0 NoRound [] [] None.

(** [let seat = 0; while (takenSeats.includes(seat)) seat++], from [seat]
    on, for at most [n] increments. *)
Fixpoint nextFreeSeat (takenSeats : list Z) (seat : Z) (n : nat) : Z :=
  match n with
  | O => seat
  | S n' =>
      if existsb (Z.eqb seat) takenSeats then nextFreeSeat takenSeats (seat + 1) n'
      else seat
  end.

(** The names of the members that every object inherits from
    [Object.prototype]. [rooms] is a plain object, so [rooms[name]] finds
    a function (or, under ["__proto__"], the prototype object) under
    these names although the handler never stored a room there. *)
Definition inheritedNames : list string :=
  ["constructor"; "__defineGetter__"; "__defineSetter__"; "hasOwnProperty";
   "__lookupGetter__"; "__lookupSetter__"; "isPrototypeOf"; "propertyIsEnumerable";
   "toString"; "valueOf"; "__proto__"; "toLocaleString"].
Definition inherited (name : string) : bool := existsb (String.eqb name) inheritedNames.

(** The [joinRoom] handler on the registry [rooms], for the socket
    [socketId] and the payload [{roomName, nickname}]; the result is the
    registry when the handler ends and how it ends.
    - [roomName] is the property key that the sent value converts to.
      Under an inherited name the lookup finds a member that is not a
      room: it is truthy, no room is created, and [room.players.length]
      throws. The registry never holds such a key of its own, since the
      handler stores a room only under a name whose lookup found nothing.
    - [nickname] is [None] for a value that is not a string:
      [nickname.substring] then throws, after the room was created and
      before the player is added. The nickname is only displayed and is
      not kept in [Player]. *)
Definition joinRoom (rooms : gmap string Room) (roomName : string)
    (nickname : option string) (socketId : string)
  : gmap string Room * Res unit :=
  if inherited roomName then (rooms, Throw)
  else
    let '(room, rooms) :=
      match rooms !! roomName with
      | Some room => (room, rooms)
      | None => (newRoom, <[roomName := newRoom]> rooms)
      end in
    if 9 <=? Z.of_nat (length (players room)) then (rooms, Ret tt)
    else
      let takenSeats := map seatIndex (players room) in
      let seat := nextFreeSeat takenSeats 0 (length takenSeats) in
      match nickname with
      | None => (rooms, Throw)
      | Some _ =>
          let player := mkPlayer socketId STARTING_CHIPS seat SWaiting [] 0 false in
          (<[roomName := setPlayers (players room ++ [player]) room]> rooms, Ret tt)
      end.

(** [room.players.find(p => p.id === socket.id)] with its position. *)
Definition findPlayer (socketId : string) (ps : list Player) : option (nat * Player) :=
  list_find (fun p => id p = socketId) ps.

(** The [requestRebuy] handler, on the room of the socket. *)
Definition requestRebuy (room : Room) (socketId : string) : Room :=
  match findPlayer socketId (players room) with
  | None => room
  | Some (i, player) =>
      if negb (bool_decide (gameStatus room = GWaiting))
         && negb (bool_decide (gameStatus room = GShowdown))
      then
        if (chips player =? 0) && (hasStatus SBusted player || hasStatus SWaiting player)
        then updPlayer i (fun p => setStatus SWaiting (setChips (chips p + 200) p)) room
        else room
      else if chips player <=? 0 then updPlayer i (fun p => setChips (chips p + 200) p) room
      else room
  end.

(** The [disconnect] handler, on the room of the socket;
    [room.players.splice(pIndex, 1)] is [delete pIndex]. *)
Definition disconnect (fuel : nat) (room : Room) (socketId : string) : Res Room :=
  match findPlayer socketId (players room) with
  | None => Ret room
  | Some (pIndex, p) =>
      if bool_decide (gameStatus room = GPlaying) then
        let room := updPlayer pIndex (setStatus SFolded) room in
        room ← (if seatIndex p =? currentTurnIndex room
                then handlePlayerAction fuel room pIndex (mkData AFold None)
                else Ret room);
        Ret (setPlayers (delete pIndex (players room)) room)
      else Ret (setPlayers (delete pIndex (players room)) room)
  end.

(** One entry of [publicPlayers] in [broadcastRoomState] (without the
    nickname, as [Player]). *)
Record PublicPlayer := mkPublic {
  pubId : string;
  pubChips : Z;
  pubSeatIndex : Z;
  pubStatus : Status;
  bet : Z;
  isDealer : bool;
  isSB : bool;
  isBB : bool;
  isTurn : bool;
  cards : option (list Slot);
  hasCards : bool
}.

(** The [roomStateUpdate] message (without the room's name). *)
Record PublicState := mkState {
  stStatus : GameStatus;
  stCommunityCards : list Slot;
  stPot : Z;
  stCurrentBet : Z;
  stPlayers : list PublicPlayer;
  stMinPlayers : Z
}.

(** [started] tells whether [startGame] has run on the room: until then
    [sbIndex] and [bbIndex] are undefined and equal to no seat. [cards] is
    [null] ([None]) except at showdown. *)
Definition publicPlayer (started : bool) (room : Room) (p : Player) : PublicPlayer :=
  mkPublic (id p) (chips p) (seatIndex p) (status p) (currentBet p)
    (seatIndex p =? dealerIndex room)
    (started && (seatIndex p =? sbIndex room))
    (started && (seatIndex p =? bbIndex room))
    (bool_decide (gameStatus room = GPlaying) && (seatIndex p =? currentTurnIndex room))
    (if bool_decide (gameStatus room = GShowdown) then Some (hand p) else None)
    (0 <? Z.of_nat (length (hand p))).

(** What [broadcastRoomState] emits to the room. *)
Definition broadcastRoomState (started : bool) (room : Room) : PublicState :=
  mkState (gameStatus room) (communityCards room) (pot room) (highestBet room)
    (map (publicPlayer started room) (players room)) (minPlayers room).

End Handlers.
Import Poker Server.

(** * Notions of the specification and sample inputs *)

Module HandSpec.


(** What it means for a set of cards to contain a category, read off the
    rules of the game and not off the evaluator. *)
Definition hasCard (cards : list Card) (v : Z) (s : Suit) : bool :=
  existsb (fun c => suit_eqb (suit c) s
                    && ((value c =? v) || ((v =? 1) && (value c =? 14)))) cards.

Definition realizesStraightFlush (cards : list Card) : bool :=
  existsb (fun s =>
    existsb (fun high => forallb (fun k => hasCard cards (high - k) s) [0; 1; 2; 3; 4])
            [5; 6; 7; 8; 9; 10; 11; 12; 13; 14]) SUITS.

Definition realizesFourOfAKind (cards : list Card) : bool :=
  existsb (fun r => 4 <=? counts cards r) RANKS.

Definition realizesFullHouse (cards : list Card) : bool :=
  existsb (fun r => (3 <=? counts cards r)
                    && existsb (fun r' => negb (rank_eqb r r') && (2 <=? counts cards r')) RANKS)
          RANKS.

(** Some card of the hand has the value [v], an ace counting as 1 too. *)
Definition hasValue (cards : list Card) (v : Z) : Prop :=
  exists c, In c cards /\ (value c = v \/ (v = 1 /\ value c = 14)).

(** The descending run of [n] values from [high] down. *)
Definition runFrom (high : Z) (n : nat) : list Z :=
  map (fun k => high - Z.of_nat k) (seq 0 n).

Definition wheelHole : list Card := [mkCard RA Spades; mkCard R2 Diamonds].
Definition wheelBoard : list Card :=
  [mkCard R3 Clubs; mkCard R4 Hearts; mkCard R5 Spades; mkCard R9 Diamonds; mkCard RK Clubs].

(** Six spades whose five lowest form the straight flush 9-8-7-6-5. *)
Definition sixSpadesHole : list Card := [mkCard RK Spades; mkCard R9 Spades].
Definition sixSpadesBoard : list Card :=
  [mkCard R8 Spades; mkCard R7 Spades; mkCard R6 Spades; mkCard R5 Spades; mkCard R2 Diamonds].

Definition quadTwosHole : list Card := [mkCard R2 Spades; mkCard R2 Hearts].
Definition quadTwosBoard : list Card :=
  [mkCard R2 Diamonds; mkCard R2 Clubs; mkCard R7 Hearts; mkCard R9 Clubs; mkCard RJ Diamonds].

(** A full house of eights over kings. *)
Definition fullHouseHole : list Card := [mkCard RK Spades; mkCard RK Hearts].
Definition fullHouseBoard : list Card :=
  [mkCard R8 Spades; mkCard R8 Hearts; mkCard R8 Clubs; mkCard R5 Spades; mkCard R2 Diamonds].

End HandSpec.

Module Samples.

Definition newPlayer (name : string) (seat : Z) (stack : Z) (st : Status) : Player :=
  mkPlayer name stack seat st [] 0 false.

(** A table as [joinRoom] leaves it, before the first hand. *)
Definition lobby (ps : list Player) : Room :=
  mkRoom ps GWaiting 5 0 0 0 0 0 0 0 NoRound [] [] None.

(** A sequence of actions, each by the player at the given position. *)
Fixpoint play (fuel : nat) (room : Room) (actions : list (nat * ActionData)) : Res Room :=
  match actions with
  | [] => Ret room
  | (i, data) :: rest =>
      room' ← handlePlayerAction fuel room i data;
      play fuel room' rest
  end.

Definition fold_ := mkData AFold None.
Definition check_ := mkData ACheck None.
Definition call_ := mkData ACall None.
Definition raiseTo (total : Z) := mkData ARaise (Some total).
Definition allIn_ := mkData AAllIn None.

Definition lobby3 : Room :=
  lobby [newPlayer "ann" 0 200 SWaiting; newPlayer "bob" 1 200 SWaiting;
         newPlayer "cy" 2 200 SWaiting].

(** The first hand of [lobby3], dealt from an unshuffled deck: "bob" is
    under the gun, "cy" posted the small blind and "ann" the big blind. *)
Definition preflop3 : Room := startGame freshDeck lobby3.

Definition bobUnderTheGun : Player :=
  mkPlayer "bob" 200 1 SActive [Some (mkCard RQ Clubs); Some (mkCard RJ Clubs)] 0 false.

(** The same hand on the flop after "bob" folded, "cy" called, "ann"
    checked and "cy" checked the flop: "ann" is to act. *)
Definition flopHeadsUp : Room :=
  mkRoom
    [mkPlayer "ann" 198 0 SActive [Some (mkCard RA Clubs); Some (mkCard RK Clubs)] 0 false;
     mkPlayer "bob" 200 1 SFolded [Some (mkCard RQ Clubs); Some (mkCard RJ Clubs)] 0 false;
     mkPlayer "cy" 198 2 SActive [Some (mkCard RT Clubs); Some (mkCard R9 Clubs)] 0 true]
    GPlaying 5 1 2 0 0 4 0 2 Flop
    [Some (mkCard R7 Clubs); Some (mkCard R6 Clubs); Some (mkCard R5 Clubs)]
    (firstn 42 freshDeck) (Some "ann").

(** "ann", on the big blind, is last to act before the flop: "bob" and
    "cy" have called. *)
Definition annOnBigBlind : Player :=
  mkPlayer "ann" 198 0 SActive [Some (mkCard RA Clubs); Some (mkCard RK Clubs)] 2 false.
Definition bigBlindOption : Room :=
  mkRoom
    [annOnBigBlind;
     mkPlayer "bob" 198 1 SActive [Some (mkCard RQ Clubs); Some (mkCard RJ Clubs)] 2 true;
     mkPlayer "cy" 198 2 SActive [Some (mkCard RT Clubs); Some (mkCard R9 Clubs)] 2 true]
    GPlaying 5 1 2 0 0 0 2 2 Preflop [] (firstn 46 freshDeck) (Some "ann").

(** A table between hands on which three of the five seated players are
    out of chips and "ann" is down to a single chip. *)
Definition brokeLobby : Room :=
  lobby [newPlayer "ann" 0 1 SWaiting; newPlayer "bob" 1 200 SWaiting;
         newPlayer "cy" 2 0 SBusted; newPlayer "dan" 3 0 SBusted;
         newPlayer "eve" 4 0 SBusted].

(** Five funded players; "eve" has 100 chips and "ann" 150. *)
Definition lobby5 : Room :=
  lobby [newPlayer "ann" 0 150 SWaiting; newPlayer "bob" 1 200 SWaiting;
         newPlayer "cy" 2 200 SWaiting; newPlayer "dan" 3 200 SWaiting;
         newPlayer "eve" 4 100 SWaiting].

(** A river with two live hands: "ann" and "cy" both play the board's
    pair of aces, "bob" has folded; the pot holds 31 chips. *)
Definition riverBoard : list Slot :=
  [Some (mkCard RA Spades); Some (mkCard RA Hearts); Some (mkCard R9 Diamonds);
   Some (mkCard R6 Clubs); Some (mkCard R3 Spades)].
Definition riverShowdown : Room :=
  mkRoom
    [mkPlayer "ann" 180 0 SActive [Some (mkCard RK Clubs); Some (mkCard RQ Diamonds)] 0 true;
     mkPlayer "bob" 199 1 SFolded [Some (mkCard R7 Hearts); Some (mkCard R2 Clubs)] 0 false;
     mkPlayer "cy" 190 2 SAllIn [Some (mkCard RJ Clubs); Some (mkCard RT Diamonds)] 0 true]
    GPlaying 5 1 2 0 0 31 0 2 River riverBoard
    (List.filter
       (fun c => negb (existsb (fun u => bool_decide (Some c = u))
                         (riverBoard ++
                          [Some (mkCard RK Clubs); Some (mkCard RQ Diamonds);
                           Some (mkCard R7 Hearts); Some (mkCard R2 Clubs);
                           Some (mkCard RJ Clubs); Some (mkCard RT Diamonds);
                           Some (mkCard R8 Clubs)])))
       freshDeck)
    None.


(** [bigBlindOption] with "ann" and "bob" all-in: only "cy" can still
    bet. *)
Definition twoAllIn : Room :=
  updPlayer 1 (setStatus SAllIn) (updPlayer 0 (setStatus SAllIn) bigBlindOption).

End Samples.

(** Turn legality in the words of the specification. *)
Module TurnSpec.

(** The seat at [currentTurnIndex] is occupied by an active player with
    chips left. *)
Definition turnIsLegal (room : Room) : bool :=
  match List.find (fun p => seatIndex p =? currentTurnIndex room) (players room) with
  | Some p => hasStatus SActive p && (0 <? chips p)
  | None => false
  end.

(** The seated players with chips, which the start quorum counts. *)
Definition fundedPlayers (room : Room) : Z :=
  Z.of_nat (length (List.filter (fun p => 0 <? chips p) (players room))).

End TurnSpec.

(** Round closure in the words of the specification. *)
Module ClosureSpec.

(** Every still-active player has acted and has matched the highest bet. *)
Definition allSettled (room : Room) : bool :=
  forallb (fun p => implb (hasStatus SActive p)
                          (actedInRound p && (currentBet p =? highestBet room)))
          (players room).

(** Some still-active player has bet less than the highest bet or has not
    acted. *)
Definition somePending (room : Room) : bool :=
  existsb (fun p => hasStatus SActive p
                    && ((currentBet p <? highestBet room) || negb (actedInRound p)))
          (players room).

(** The street after a street. *)
Definition nextRound (s : RoundName) : RoundName :=
  match s with
  | Preflop => Flop
  | Flop => Turn
  | Turn => River
  | other => other
  end.

End ClosureSpec.

(** The showdown in the words of the specification. *)
Module ShowdownSpec.






End ShowdownSpec.

(** Notions used in the proofs about the engine. *)
Module EngineNotions.

(** What a player holds plus what that player has bet. *)
Definition stake (p : Player) : Z := chips p + currentBet p.

(** Two tables hold the same money per seat and in the pot. *)
Definition stakeEq (ps qs : list Player) : Prop :=
  Forall2 (fun p q => stake q = stake p) ps qs.
Definition sameStakes (r r' : Room) : Prop :=
  pot r' = pot r /\ stakeEq (players r) (players r').

(** The statuses around the table, in seat-list order. *)
Definition statuses (r : Room) : list Status := map status (players r).


(** A player seen by somebody else's action: at most the [actedInRound]
    flag differs. *)
Definition keptButFlag (q q' : Player) : Prop :=
  exists b, q' = setActedInRound b q.

(** No chip count on the table is negative. *)
Definition sane (room : Room) : Prop :=
  Forall (fun p => 0 <= chips p /\ 0 <= currentBet p) (players room)
  /\ 0 <= pot room /\ 0 <= highestBet room /\ 0 <= lastRaiseAmount room.

End EngineNotions.

(** Notions used to state what the table functions do. *)
Module TableNotions.

(** The first player found on seat [k] is active and has chips: the test
    of the seat scan of [nextTurn]. *)
Definition seatEligible (ps : list Player) (k : Z) : bool :=
  match List.find (fun pl => seatIndex pl =? k) ps with
  | Some p => hasStatus SActive p && (0 <? chips p)
  | None => false
  end.

(** Between [p] and [p'] only the stack changed, and it did not shrink. *)
Definition onlyChipsGrew (p p' : Player) : Prop :=
  chips p <= chips p'
  /\ p' = mkPlayer (id p) (chips p') (seatIndex p) (status p) (hand p) (currentBet p)
            (actedInRound p).

(** No bet is outstanding: what a street starts from. *)
Definition betsGathered (r : Room) : Prop :=
  Forall (fun p => currentBet p = 0) (players r)
  /\ highestBet r = 0 /\ lastRaiseAmount r = BIG_BLIND.

(** Once the bets are gathered, nothing that follows in the same call
    brings a bet back or changes the pot. *)
Definition staysGathered (r r' : Room) : Prop :=
  betsGathered r -> betsGathered r' /\ pot r' = pot r.

(** [q] is [p] just dealt in: active, two cards, no bet, same stack. *)
Definition justDealt (p q : Player) : Prop :=
  id q = id p /\ seatIndex q = seatIndex p /\ chips q = chips p /\ status q = SActive
  /\ length (hand q) = 2%nat /\ currentBet q = 0 /\ actedInRound q = false.

(** [p'] is [p] dealt in and possibly charged a blind: active, two cards,
    a bet of at most the big blind taken out of the stack. *)
Definition dealtIn (p p' : Player) : Prop :=
  id p' = id p /\ seatIndex p' = seatIndex p /\ status p' = SActive
  /\ length (hand p') = 2%nat /\ actedInRound p' = false
  /\ 0 <= currentBet p' <= BIG_BLIND /\ 0 <= chips p'
  /\ chips p' + currentBet p' <= chips p.

(** What the start of a hand does to a seated player: the funded ones
    that are not sitting out are dealt in, the others are left alone. *)
Definition dealtOrKept (p p' : Player) : Prop :=
  if inHandFilter p then dealtIn p p' else p' = p.

(** Some player sits on seat [k]. *)
Definition occupied (ps : list Player) (k : Z) : bool :=
  existsb (fun p => seatIndex p =? k) ps.

(** The players that can be dealt in: with chips and not sitting out. *)
Definition fundedAndIn (room : Room) : nat :=
  length (List.filter inHandFilter (players room)).

(** Seats are distinct and numbered 0 to 8. *)
Definition wellSeated (ps : list Player) : Prop :=
  NoDup (map seatIndex ps) /\ Forall (fun p => 0 <= seatIndex p < 9) ps.

(** Who sits where, in the order of the player list. *)
Definition seating (r : Room) : list (string * Z) :=
  map (fun p => (id p, seatIndex p)) (players r).

(** [p], at position [i], is the first player of the list with the
    socket [socketId]: the one that [find] returns. *)
Definition firstWith (socketId : string) (ps : list Player) (i : nat) (p : Player) : Prop :=
  ps !! i = Some p /\ id p = socketId
  /\ forall j q, ps !! j = Some q -> (j < i)%nat -> id q <> socketId.

(** The room [room] with the player list [ps] and nothing else changed. *)
Definition tableWith (ps : list Player) (room : Room) : Room :=
  mkRoom ps (gameStatus room) (minPlayers room) (dealerIndex room) (sbIndex room)
    (bbIndex room) (currentTurnIndex room) (pot room) (highestBet room)
    (lastRaiseAmount room) (roundName room) (communityCards room) (deck room)
    (turnTimer room).

(** Two tables that differ at most by the deck and by which cards the
    players hold, each player holding cards on both or on neither. *)
Definition sameButCards (r1 r2 : Room) : Prop :=
  r2 = setDeck (deck r2) (setPlayers (players r2) r1)
  /\ Forall2 (fun p q => q = setHand (hand q) p
                         /\ (length (hand q) = 0%nat <-> length (hand p) = 0%nat))
       (players r1) (players r2).

End TableNotions.

(** * Properties *)

(** ** The JS array helpers *)

Module JsLemmas.

Lemma insertBy_perm {A : Type} (cmp : A -> A -> Z) (x : A) (l : list A) :
  insertBy cmp x l ≡ₚ x :: l.
Proof.
  induction l as [|y l IH]; simpl; [reflexivity|].
  destruct (cmp y x <=? 0); [|reflexivity].
  rewrite IH. apply perm_swap.
Qed.

Lemma sortJS_perm {A : Type} (cmp : A -> A -> Z) (l : list A) : sortJS cmp l ≡ₚ l.
Proof.
  unfold sortJS.
  assert (H : forall acc, fold_left (fun acc x => insertBy cmp x acc) l acc ≡ₚ l ++ acc).
  { induction l as [|x l IH]; intros acc; simpl; [reflexivity|].
    rewrite IH, insertBy_perm. symmetry. apply Permutation_middle. }
  rewrite H, app_nil_r. reflexivity.
Qed.

Lemma filter_perm {A : Type} (f : A -> bool) (l l' : list A) :
  l ≡ₚ l' -> List.filter f l ≡ₚ List.filter f l'.
Proof.
  induction 1 as [|x l l' _ IH|x y l|l l' l'' _ IH1 _ IH2]; simpl.
  - reflexivity.
  - destruct (f x); [rewrite IH|]; auto.
  - destruct (f x), (f y); auto. apply perm_swap.
  - etransitivity; eauto.
Qed.

Lemma Math_max_spec (x : Z) (l : list Z) :
  Math_max (x :: l) ∈ x :: l /\ Forall (fun y => y <= Math_max (x :: l)) (x :: l).
Proof.
  unfold Math_max. revert x. induction l as [|y l IH]; intros x; simpl.
  - split; [left|constructor; [lia|constructor]].
  - destruct (IH (Z.max x y)) as [Hin Hall].
    inversion Hall as [|? ? Hxy Hl]; subst. split.
    + apply elem_of_cons in Hin as [Heq|Hin].
      * rewrite Heq. destruct (Z.max_spec x y) as [[_ ->]|[_ ->]]; [right; left|left].
      * right; right. exact Hin.
    + constructor; [lia|]. constructor; [lia|]. exact Hl.
Qed.

Lemma uniq_In {A : Type} (eqb : A -> A -> bool) (l : list A) (y : A) :
  (forall a b, eqb a b = true <-> a = b) -> In y (uniq eqb l) <-> In y l.
Proof.
  intros Heqb. induction l as [|x l IH]; simpl; [reflexivity|].
  rewrite filter_In, IH, negb_true_iff. split.
  - intros [H|[H _]]; auto.
  - intros [H|H]; [auto|]. destruct (eqb x y) eqn:He.
    + left. apply Heqb, He.
    + right. auto.
Qed.

Lemma filter_length_split {A : Type} (f : A -> bool) (l : list A) :
  length l = (length (List.filter f l) + length (List.filter (fun x => negb (f x)) l))%nat.
Proof. induction l as [|x l IH]; simpl; [reflexivity|]. destruct (f x); simpl; lia. Qed.

Lemma filter_filter_le {A : Type} (f g : A -> bool) (l : list A) :
  (length (List.filter f (List.filter g l)) <= length (List.filter f l))%nat.
Proof.
  induction l as [|x l IH]; simpl; [lia|].
  destruct (g x), (f x) eqn:Hf; simpl; rewrite ?Hf; simpl; lia.
Qed.

Lemma filter_filter_comm {A : Type} (f g : A -> bool) (l : list A) :
  List.filter f (List.filter g l) = List.filter g (List.filter f l).
Proof.
  induction l as [|x l IH]; simpl; [reflexivity|].
  destruct (g x) eqn:Hg, (f x) eqn:Hf; simpl; rewrite ?Hg, ?Hf, IH; reflexivity.
Qed.

End JsLemmas.

(** ** Hand evaluator *)

Module EvaluatorProps.
Import JsLemmas HandSpec.

(** C7. Hole cards A-spades, 2-diamonds with the board 3-clubs, 4-hearts,
    5-spades, 9-diamonds, K-clubs are scored in the Straight tier, as
    500 plus the high value 5 of the wheel, and not as a high card. *)
Theorem wheel_is_straight :
  evaluateHand wheelHole wheelBoard = Some (mkResult (500 + 5) "Straight").
Proof. vm_compute. reflexivity. Qed.

(** C3 (the code departs from it). A seven-card input that contains the
    straight flush 9-8-7-6-5 of spades next to the king of spades is
    scored as a king-high flush, 613, below the 802 of four deuces:
    [isFlush] keeps only the five highest cards of the suit before the
    straight is looked for. *)
Theorem straight_flush_scored_below_quads :
  realizesStraightFlush (sixSpadesHole ++ sixSpadesBoard) = true /\
  realizesFourOfAKind (quadTwosHole ++ quadTwosBoard) = true /\
  evaluateHand sixSpadesHole sixSpadesBoard = Some (mkResult 613 "Flush") /\
  evaluateHand quadTwosHole quadTwosBoard = Some (mkResult 802 "Four of a Kind (2s)") /\
  match evaluateHand sixSpadesHole sixSpadesBoard,
        evaluateHand quadTwosHole quadTwosBoard with
  | Some sf, Some quads => score sf <? score quads
  | _, _ => false
  end = true.
Proof. repeat split; vm_compute; reflexivity. Qed.

(** *** Four of a kind against a full house, on every deal

    The second half of C3 holds of the evaluator: seven distinct cards
    that hold four of a kind score at least 802, and seven distinct cards
    that hold a full house and no four of a kind score at most 714. *)

Local Abbreviation ofRank r := (fun c : Card => rank_eqb (rank c) r).
Local Abbreviation ofSuit s := (fun c : Card => suit_eqb (suit c) s).
Local Abbreviation notRank r := (fun c : Card => negb (rank_eqb (rank c) r)).

Lemma length_filter_le {A : Type} (f : A -> bool) (l : list A) :
  (length (List.filter f l) <= length l)%nat.
Proof. induction l as [|x l IH]; simpl; [lia|]. destruct (f x); simpl; lia. Qed.

Lemma one_card_per_rank_and_suit (l : list Card) (r : Rank) (s : Suit) :
  NoDup l -> (length (List.filter (ofSuit s) (List.filter (ofRank r) l)) <= 1)%nat.
Proof.
  induction 1 as [|x l Hnotin _ IH]; simpl; [lia|].
  destruct (rank_eqb (rank x) r) eqn:Hr; simpl; [|exact IH].
  destruct (suit_eqb (suit x) s) eqn:Hs; simpl; [|exact IH].
  destruct (List.filter (ofSuit s) (List.filter (ofRank r) l)) as [|y t] eqn:Hy; [simpl; lia|].
  exfalso. apply Hnotin.
  assert (Hin : In y (List.filter (ofSuit s) (List.filter (ofRank r) l)))
    by (rewrite Hy; left; reflexivity).
  apply filter_In in Hin as [Hin Hys]. apply filter_In in Hin as [Hin Hyr].
  apply bool_decide_eq_true in Hr, Hs, Hys, Hyr.
  replace x with y; [apply list_elem_of_In; exact Hin|].
  destruct x, y; simpl in *; congruence.
Qed.

Lemma suits_partition (l : list Card) :
  length l = (length (List.filter (ofSuit Spades) l) + length (List.filter (ofSuit Hearts) l)
              + length (List.filter (ofSuit Diamonds) l)
              + length (List.filter (ofSuit Clubs) l))%nat.
Proof.
  induction l as [|[rk []] l IH]; simpl; [reflexivity| | | |]; rewrite IH at 1; lia.
Qed.

Lemma at_most_four_of_a_rank (l : list Card) (r : Rank) :
  NoDup l -> counts l r <= 4.
Proof.
  intros Hnd. unfold counts. rewrite (suits_partition (List.filter (ofRank r) l)).
  pose proof (one_card_per_rank_and_suit l r Spades Hnd).
  pose proof (one_card_per_rank_and_suit l r Hearts Hnd).
  pose proof (one_card_per_rank_and_suit l r Diamonds Hnd).
  pose proof (one_card_per_rank_and_suit l r Clubs Hnd).
  lia.
Qed.

Lemma suit_bound_one_rank (l : list Card) (r : Rank) (s : Suit) :
  NoDup l ->
  (length (List.filter (ofSuit s) l) + length (List.filter (ofRank r) l) <= 1 + length l)%nat.
Proof.
  intros Hnd.
  pose proof (filter_length_split (ofRank r) (List.filter (ofSuit s) l)) as Hsplit.
  pose proof (one_card_per_rank_and_suit l r s Hnd) as Hone.
  rewrite filter_filter_comm in Hone.
  pose proof (filter_filter_le (notRank r) (ofSuit s) l) as Hrest.
  pose proof (filter_length_split (ofRank r) l) as Hall.
  lia.
Qed.

Lemma filter_other_rank (l : list Card) (r r' : Rank) :
  r <> r' -> List.filter (ofRank r') (List.filter (notRank r) l) = List.filter (ofRank r') l.
Proof.
  intros Hne. induction l as [|x l IH]; simpl; [reflexivity|].
  destruct (rank_eqb (rank x) r) eqn:Hr; simpl.
  - apply bool_decide_eq_true in Hr.
    destruct (rank_eqb (rank x) r') eqn:Hr'; [|exact IH].
    apply bool_decide_eq_true in Hr'. congruence.
  - rewrite IH. reflexivity.
Qed.

Lemma suit_bound_two_ranks (l : list Card) (r r' : Rank) (s : Suit) :
  NoDup l -> r <> r' ->
  (length (List.filter (ofSuit s) l) + length (List.filter (ofRank r) l)
   + length (List.filter (ofRank r') l) <= 2 + length l)%nat.
Proof.
  intros Hnd Hne.
  pose proof (filter_length_split (ofRank r) (List.filter (ofSuit s) l)) as Hs1.
  pose proof (one_card_per_rank_and_suit l r s Hnd) as Hone.
  rewrite filter_filter_comm in Hone.
  pose proof (filter_length_split (ofRank r')
                (List.filter (notRank r) (List.filter (ofSuit s) l))) as Hs2.
  pose proof (filter_filter_le (ofRank r') (notRank r) (List.filter (ofSuit s) l)) as Hle1.
  pose proof (one_card_per_rank_and_suit l r' s Hnd) as Hone'.
  rewrite filter_filter_comm in Hone'.
  assert (Hle2 : (length (List.filter (notRank r')
                            (List.filter (notRank r) (List.filter (ofSuit s) l)))
                  <= length (List.filter (notRank r') (List.filter (notRank r) l)))%nat).
  { rewrite (filter_filter_comm (notRank r) (ofSuit s)).
    rewrite (filter_filter_comm (notRank r') (ofSuit s)).
    apply length_filter_le. }
  pose proof (filter_length_split (ofRank r') (List.filter (notRank r) l)) as Hs3.
  rewrite (filter_other_rank l r r' Hne) in Hs3.
  pose proof (filter_length_split (ofRank r) l) as Hall.
  lia.
Qed.

Lemma isFlush_none (cards : list Card) :
  (forall s, (length (List.filter (ofSuit s) cards) < 5)%nat) -> isFlush cards = None.
Proof.
  intros Hlt. unfold isFlush.
  destruct (List.find _ _) as [s|] eqn:Hfind; [|reflexivity].
  apply find_some in Hfind as [_ Hlen]. apply Z.leb_le in Hlen. specialize (Hlt s). lia.
Qed.

Lemma keys_In (cards : list Card) (r : Rank) : In r (keys cards) <-> 0 < counts cards r.
Proof.
  unfold keys. rewrite in_app_iff.
  assert (Hseen : In r (uniq rank_eqb (map rank cards)) <-> 0 < counts cards r).
  { rewrite uniq_In by (intros a b; apply bool_decide_eq_true).
    unfold counts. rewrite in_map_iff. split.
    - intros (c & Hc & Hin).
      assert (Hf : In c (List.filter (ofRank r) cards)).
      { apply filter_In. split; [exact Hin|]. apply bool_decide_eq_true. exact Hc. }
      destruct (List.filter (ofRank r) cards); [contradiction|simpl; lia].
    - intros Hpos. destruct (List.filter (ofRank r) cards) as [|c t] eqn:Hf; [simpl in Hpos; lia|].
      assert (Hin : In c (List.filter (ofRank r) cards)) by (rewrite Hf; left; reflexivity).
      apply filter_In in Hin as [Hin Hc]. apply bool_decide_eq_true in Hc. eauto. }
  rewrite <- Hseen. split.
  - intros [H|H].
    + apply (Permutation_in _ (sortJS_perm _ _)) in H. apply filter_In in H. tauto.
    + apply filter_In in H. tauto.
  - intros H. destruct (isIndexKey r) eqn:Hidx.
    + left. apply (Permutation_in _ (Permutation_sym (sortJS_perm _ _))).
      apply filter_In. auto.
    + right. apply filter_In. rewrite Hidx. auto.
Qed.

Lemma RANK_VALUE_range (r : Rank) : 2 <= RANK_VALUE r <= 14.
Proof. destruct r; simpl; lia. Qed.

Lemma counts_perm (l l' : list Card) (r : Rank) : l ≡ₚ l' -> counts l r = counts l' r.
Proof.
  intros H. unfold counts. rewrite (Permutation_length (filter_perm (ofRank r) _ _ H)).
  reflexivity.
Qed.

Lemma filter_none {A : Type} (f : A -> bool) (l : list A) :
  (forall x, In x l -> f x = false) -> List.filter f l = [].
Proof.
  induction l as [|x l IH]; simpl; intros H; [reflexivity|].
  rewrite (H x) by auto. apply IH. intros y Hy. apply H. auto.
Qed.

Lemma two_members {A : Type} (l : list A) (a b : A) :
  In a l -> In b l -> a <> b -> (2 <= length l)%nat.
Proof.
  destruct l as [|x [|y t]]; simpl; [tauto| |lia].
  intros [<-|[]] [<-|[]] H. contradiction.
Qed.

(** Seven distinct cards with four of one rank: no flush is possible,
    and the evaluator answers in the 800 tier. *)
Lemma four_of_a_kind_score (hole board : list Card) (r : Rank) :
  NoDup (hole ++ board) -> length (hole ++ board) = 7%nat ->
  4 <= counts (hole ++ board) r ->
  exists e, evaluateHand hole board = Some e /\ 802 <= score e <= 814.
Proof.
  intros Hnd Hlen Hfour. unfold evaluateHand.
  pose proof (sortJS_perm (fun a b => value b - value a) (hole ++ board)) as Hperm.
  set (allCards := sortJS _ (hole ++ board)) in *.
  assert (Hnd' : NoDup allCards) by (rewrite Hperm; exact Hnd).
  assert (Hlen' : length allCards = 7%nat) by (rewrite (Permutation_length Hperm); exact Hlen).
  assert (Hfour' : counts allCards r = 4).
  { pose proof (at_most_four_of_a_rank allCards r Hnd').
    rewrite (counts_perm _ _ r Hperm). rewrite (counts_perm _ _ r Hperm) in H. lia. }
  rewrite isFlush_none.
  2:{ intros s. pose proof (suit_bound_one_rank allCards r s Hnd') as Hb.
      unfold counts in Hfour'. lia. }
  cbv zeta.
  destruct (List.filter (fun k => counts allCards k =? 4) (keys allCards)) as [|q t] eqn:Hq.
  - exfalso. assert (Hin : In r (List.filter (fun k => counts allCards k =? 4) (keys allCards))).
    { apply filter_In. split; [apply keys_In; lia|apply Z.eqb_eq; exact Hfour']. }
    rewrite Hq in Hin. contradiction.
  - eexists. split; [reflexivity|]. simpl. pose proof (RANK_VALUE_range q). lia.
Qed.

(** Seven distinct cards with three of one rank, two or more of another
    and no four of a kind: no flush is possible, and the evaluator
    answers in the 700 tier. *)
Lemma full_house_score (hole board : list Card) (r r' : Rank) :
  NoDup (hole ++ board) -> length (hole ++ board) = 7%nat ->
  3 <= counts (hole ++ board) r -> 2 <= counts (hole ++ board) r' -> r <> r' ->
  (forall k, counts (hole ++ board) k < 4) ->
  exists e, evaluateHand hole board = Some e /\ 702 <= score e <= 714.
Proof.
  intros Hnd Hlen Hthree Htwo Hne Hnoquads. unfold evaluateHand.
  pose proof (sortJS_perm (fun a b => value b - value a) (hole ++ board)) as Hperm.
  set (allCards := sortJS _ (hole ++ board)) in *.
  assert (Hnd' : NoDup allCards) by (rewrite Hperm; exact Hnd).
  assert (Hlen' : length allCards = 7%nat) by (rewrite (Permutation_length Hperm); exact Hlen).
  assert (Hc : forall k, counts allCards k = counts (hole ++ board) k)
    by (intros k; apply counts_perm, Hperm).
  rewrite isFlush_none.
  2:{ intros s. pose proof (suit_bound_two_ranks allCards r r' s Hnd' Hne) as Hb.
      pose proof (Hc r) as Hr. pose proof (Hc r') as Hr'. unfold counts in Hr, Hr', Hthree, Htwo.
      lia. }
  cbv zeta. rewrite (filter_none (fun k => counts allCards k =? 4)).
  2:{ intros k _. apply Z.eqb_neq. rewrite Hc. specialize (Hnoquads k). lia. }
  set (trips := List.filter (fun k => counts allCards k =? 3) (keys allCards)).
  set (pairs := List.filter (fun k => counts allCards k =? 2) (keys allCards)).
  assert (Hr : In r trips).
  { apply filter_In. split; [apply keys_In; rewrite Hc; lia|].
    apply Z.eqb_eq. rewrite Hc. specialize (Hnoquads r). lia. }
  assert (Hcond : (0 <? Z.of_nat (length trips))
                  && ((2 <=? Z.of_nat (length trips)) || (0 <? Z.of_nat (length pairs))) = true).
  { apply andb_true_iff. split.
    - apply Z.ltb_lt. destruct trips; [contradiction|simpl; lia].
    - apply orb_true_iff. specialize (Hnoquads r').
      destruct (Z.eq_dec (counts (hole ++ board) r') 2) as [H2|H2].
      + right. apply Z.ltb_lt.
        assert (Hin : In r' pairs).
        { apply filter_In. split; [apply keys_In; rewrite Hc; lia|].
          apply Z.eqb_eq. rewrite Hc. exact H2. }
        destruct pairs; [contradiction|simpl; lia].
      + left. apply Z.leb_le.
        assert (Hin : In r' trips).
        { apply filter_In. split; [apply keys_In; rewrite Hc; lia|].
          apply Z.eqb_eq. rewrite Hc. lia. }
        pose proof (two_members trips r r' Hr Hin Hne). lia. }
  rewrite Hcond. eexists. split; [reflexivity|]. simpl.
  destruct trips as [|t0 ts]; [contradiction|].
  destruct (Math_max_spec (RANK_VALUE t0) (map RANK_VALUE ts)) as [Hin _].
  change (RANK_VALUE t0 :: map RANK_VALUE ts) with (map RANK_VALUE (t0 :: ts)) in Hin.
  apply list_elem_of_In, in_map_iff in Hin as (k & <- & _).
  pose proof (RANK_VALUE_range k). lia.
Qed.

(** X7. Every deal of seven distinct cards that holds four of a kind
    scores strictly more than every deal of seven distinct cards that
    holds a full house and no four of a kind. *)
Lemma quads_above_full_house (hq bq hf bf : list Card) :
  NoDup (hq ++ bq) -> length (hq ++ bq) = 7%nat ->
  realizesFourOfAKind (hq ++ bq) = true ->
  NoDup (hf ++ bf) -> length (hf ++ bf) = 7%nat ->
  realizesFullHouse (hf ++ bf) = true -> realizesFourOfAKind (hf ++ bf) = false ->
  exists eq ef, evaluateHand hq bq = Some eq /\ evaluateHand hf bf = Some ef
                /\ score ef < score eq.
Proof.
  intros Hndq Hlenq Hq Hndf Hlenf Hf Hnq.
  unfold realizesFourOfAKind in Hq. apply existsb_exists in Hq as (r & _ & Hr).
  apply Z.leb_le in Hr.
  destruct (four_of_a_kind_score hq bq r Hndq Hlenq Hr) as (eq & Heq & Hsq).
  unfold realizesFullHouse in Hf. apply existsb_exists in Hf as (t & _ & Ht).
  apply andb_true_iff in Ht as [Ht Hp]. apply Z.leb_le in Ht.
  apply existsb_exists in Hp as (p & _ & Hp). apply andb_true_iff in Hp as [Hne Hp].
  apply negb_true_iff, bool_decide_eq_false in Hne. apply Z.leb_le in Hp.
  destruct (full_house_score hf bf t p Hndf Hlenf Ht Hp Hne) as (ef & Hef & Hsf).
  { intros k. destruct (Z.ltb_spec (counts (hf ++ bf) k) 4) as [Hlt|Hge]; [exact Hlt|].
    exfalso. unfold realizesFourOfAKind in Hnq.
    assert (Hex : existsb (fun r0 => 4 <=? counts (hf ++ bf) r0) RANKS = true).
    { apply existsb_exists. exists k. split; [destruct k; simpl; tauto|apply Z.leb_le; exact Hge]. }
    congruence. }
  exists eq, ef. split; [exact Heq|]. split; [exact Hef|lia].
Qed.

Lemma quads_above_full_house_witness :
  exists eq ef, evaluateHand quadTwosHole quadTwosBoard = Some eq
                /\ evaluateHand fullHouseHole fullHouseBoard = Some ef
                /\ score ef < score eq.
Proof.
  apply quads_above_full_house;
    first [ apply (bool_decide_unpack _); vm_compute; exact I | vm_compute; reflexivity ].
Defined.

End EvaluatorProps.

(** ** Betting engine: shared lemmas *)

Module EngineLemmas.
Import EngineNotions.

(** *** Stakes: what a player holds plus what that player has bet *)

Lemma sumOf_add (f g : Player -> Z) (ps : list Player) :
  sumOf (fun p => f p + g p) ps = sumOf f ps + sumOf g ps.
Proof. induction ps as [|p ps IH]; simpl; lia. Qed.

Lemma chipTotal_stake (r : Room) : chipTotal r = sumOf stake (players r) + pot r.
Proof. unfold chipTotal, stake. rewrite sumOf_add. lia. Qed.

Lemma sumOf_Forall2 (f : Player -> Z) (ps qs : list Player) :
  Forall2 (fun p q => f q = f p) ps qs -> sumOf f qs = sumOf f ps.
Proof. induction 1; simpl; lia. Qed.

Lemma sameStakes_total (r r' : Room) : sameStakes r r' -> chipTotal r' = chipTotal r.
Proof.
  intros [Hpot Hps]. rewrite !chipTotal_stake, Hpot.
  rewrite (sumOf_Forall2 stake _ _ Hps). reflexivity.
Qed.

Lemma Forall2_alter_same (R : Player -> Player -> Prop) (f : Player -> Player)
    (ps : list Player) (i : nat) :
  (forall p, R p p) ->
  (forall p, ps !! i = Some p -> R p (f p)) ->
  Forall2 R ps (alter f i ps).
Proof.
  intros Hrefl. revert i. induction ps as [|q ps IH]; intros i Hf; [constructor|].
  destruct i as [|i]; simpl.
  - constructor; [apply Hf; reflexivity|]. clear -Hrefl. induction ps; constructor; auto.
  - constructor; [apply Hrefl|]. apply IH. intros p Hp. apply Hf. exact Hp.
Qed.

Lemma Forall2_map_same (R : Player -> Player -> Prop) (g : Player -> Player)
    (ps : list Player) :
  (forall p, R p (g p)) -> Forall2 R ps (map g ps).
Proof. intros Hg. induction ps; simpl; constructor; auto. Qed.

Lemma stakeEq_refl (ps : list Player) : stakeEq ps ps.
Proof. induction ps; constructor; auto. Qed.

Lemma stakeEq_trans (ps qs rs : list Player) : stakeEq ps qs -> stakeEq qs rs -> stakeEq ps rs.
Proof.
  unfold stakeEq. intros H1. revert rs.
  induction H1 as [|p q ps qs Hpq _ IH]; intros l3 H3; inversion H3; subst;
    constructor; [congruence|]. apply IH. assumption.
Qed.

Lemma stakeEq_alter (f : Player -> Player) (ps : list Player) (i : nat) :
  (forall p, ps !! i = Some p -> stake (f p) = stake p) -> stakeEq ps (alter f i ps).
Proof. intros Hf. apply Forall2_alter_same; [reflexivity|exact Hf]. Qed.

Lemma stakeEq_map (g : Player -> Player) (ps : list Player) :
  (forall p, stake (g p) = stake p) -> stakeEq ps (map g ps).
Proof. intros Hg. apply Forall2_map_same. exact Hg. Qed.

Lemma sameStakes_refl (r : Room) : sameStakes r r.
Proof. split; [reflexivity|apply stakeEq_refl]. Qed.

(** The action itself only moves chips between a player's stack and that
    player's bet. *)
Lemma applyAction_sameStakes (room : Room) (i : nat) (player : Player) (data : ActionData) :
  players room !! i = Some player ->
  sameStakes room (applyAction room i player data).
Proof.
  intros Hp. unfold applyAction, reopenBetting, updPlayer.
  destruct (action data);
    repeat (match goal with |- context [if ?b then _ else _] => destruct b end);
    (split; simpl; [reflexivity|]);
    repeat (eapply stakeEq_trans;
            [|first [ apply stakeEq_alter; intros p Hp';
                      try (rewrite Hp in Hp'; simplify_eq);
                      unfold stake; simpl; first [reflexivity|lia]
                    | apply stakeEq_map; intros p; destruct (_ && _); reflexivity ]]);
    apply stakeEq_refl.
Qed.

Lemma applyAction_gameStatus (room : Room) (i : nat) (player : Player) (data : ActionData) :
  gameStatus (applyAction room i player data) = gameStatus room.
Proof.
  unfold applyAction. simpl.
  destruct (action data); simpl; repeat (match goal with |- context [if ?b then _ else _] =>
    destruct b end; simpl); reflexivity.
Qed.

(** *** The sweep of the bets into the pot *)

Lemma fold_left_bets (ps : list Player) (acc : Z) :
  fold_left (fun a p => a + currentBet p) ps acc = acc + sumOf currentBet ps.
Proof. revert acc. induction ps as [|p ps IH]; intros acc; simpl; [lia|]. rewrite IH. lia. Qed.

Lemma sweepBets_total (room : Room) : chipTotal (sweepBets room) = chipTotal room.
Proof.
  unfold chipTotal, sweepBets. simpl. rewrite fold_left_bets.
  assert (H1 : forall ps, sumOf chips (map (fun p => setActedInRound false (setCurrentBet 0 p)) ps)
                 = sumOf chips ps).
  { induction ps; simpl; congruence. }
  assert (H2 : forall ps, sumOf currentBet (map (fun p => setActedInRound false (setCurrentBet 0 p)) ps)
                 = 0).
  { induction ps; simpl; auto. }
  rewrite H1, H2. lia.
Qed.


(** *** Showdown always leaves [playing] *)

(** The winners of a showdown among the sorted results: those that tie
    with the first one; nobody when there is no result. *)
Lemma endHand_cases (room : Room) :
  let room1 := clearTimeout (setGameStatus GShowdown room) in
  (exists w, refsWhere isCandidate (players room) = [w]
             /\ endHand room = Ret (updPlayer w (addChips (pot room)) room1))
  \/ (length (refsWhere isCandidate (players room)) <> 1%nat
      /\ endHand room =
         (results ← scoreAll (players room) (communityCards room)
                             (refsWhere isCandidate (players room));
          let results := sortJS (fun a b => snd b - snd a) results in
          let winners :=
            match results with
            | [] => []
            | winnerResult :: _ => List.filter (fun r => snd r =? snd winnerResult) results
            end in
          let splitAmount := pot room `div` Z.of_nat (length winners) in
          Ret (setPlayers (payWinners splitAmount winners (players room)) room1))).
Proof.
  unfold endHand. cbn [players communityCards pot clearTimeout setGameStatus setTurnTimer].
  assert (Hshow : forall cands,
    (results ← scoreAll (players room) (communityCards room) cands;
     let results := sortJS (fun a b => snd b - snd a) results in
     match results with
     | [] => Ret (clearTimeout (setGameStatus GShowdown room))
     | winnerResult :: _ =>
         let winners := List.filter (fun r => snd r =? snd winnerResult) results in
         let splitAmount := pot room `div` Z.of_nat (length winners) in
         Ret (setPlayers (payWinners splitAmount winners (players room))
                (clearTimeout (setGameStatus GShowdown room)))
     end)
    = (results ← scoreAll (players room) (communityCards room) cands;
       let results := sortJS (fun a b => snd b - snd a) results in
       let winners :=
         match results with
         | [] => []
         | winnerResult :: _ => List.filter (fun r => snd r =? snd winnerResult) results
         end in
       let splitAmount := pot room `div` Z.of_nat (length winners) in
       Ret (setPlayers (payWinners splitAmount winners (players room))
              (clearTimeout (setGameStatus GShowdown room))))).
  { intros cands. destruct (scoreAll _ _ cands) as [scores| |]; cbn [mbind Res_bind];
      try reflexivity.
    cbv zeta. destruct (sortJS _ scores); reflexivity. }
  destruct (refsWhere isCandidate (players room)) as [|w [|w' t]].
  - right. split; [simpl; lia|]. rewrite <- Hshow. reflexivity.
  - left. exists w. split; reflexivity.
  - right. split; [simpl; lia|]. rewrite <- Hshow. reflexivity.
Qed.

Lemma endHand_showdown (room r' : Room) :
  endHand room = Ret r' -> gameStatus r' = GShowdown.
Proof.
  destruct (endHand_cases room) as [(w & _ & ->)|[_ ->]].
  - intros H; simplify_eq. reflexivity.
  - destruct (scoreAll _ _ _); unfold mbind, Res_bind; try discriminate.
    cbv zeta. intros H; injection H as <-. reflexivity.
Qed.

Lemma scoreAll_returns_or_throws (ps : list Player) (cc : list Slot) (cs : list nat) :
  scoreAll ps cc cs <> OutOfFuel.
Proof.
  induction cs as [|c cs IH]; simpl; [discriminate|].
  destruct (ps !! c) as [p|]; [|discriminate].
  unfold evalSlots.
  destruct (mapM _ (hand p)); [|simpl; discriminate].
  destruct (mapM _ cc); [|simpl; discriminate].
  destruct (evaluateHand _ _); simpl; [|discriminate].
  destruct (scoreAll ps cc cs); simpl; [discriminate|discriminate|contradiction].
Qed.

Lemma endHand_returns_or_throws (room : Room) : endHand room <> OutOfFuel.
Proof.
  destruct (endHand_cases room) as [(w & _ & ->)|[_ ->]]; [discriminate|].
  pose proof (scoreAll_returns_or_throws (players room) (communityCards room)
                (refsWhere isCandidate (players room))) as Hs.
  destruct (scoreAll _ _ _); unfold mbind, Res_bind; [|discriminate|contradiction].
  discriminate.
Qed.

(** *** Dealing touches only the deck, the board and the street name *)

Lemma pushCard_frame (room : Room) :
  players (pushCard room) = players room /\ pot (pushCard room) = pot room
  /\ gameStatus (pushCard room) = gameStatus room
  /\ highestBet (pushCard room) = highestBet room.
Proof. unfold pushCard. destruct (deal (deck room)). simpl. auto. Qed.

Lemma dealStreet_frame (room : Room) :
  players (dealStreet room) = players room /\ pot (dealStreet room) = pot room
  /\ gameStatus (dealStreet room) = gameStatus room
  /\ highestBet (dealStreet room) = highestBet room.
Proof.
  unfold dealStreet. destruct (roundName room); auto.
  unfold deal, pop. simpl. destruct (last (deck room)); simpl; auto.
Qed.

(** *** After a sweep somebody still has to act *)

Lemma pendingAction_unacted (room : Room) :
  Forall (fun p => actedInRound p = false) (players room) ->
  List.filter (hasStatus SActive) (players room) <> [] ->
  pendingAction room = true.
Proof.
  unfold pendingAction. generalize (highestBet room) as hb.
  induction (players room) as [|p ps IH]; intros hb Hall Hne; [contradiction|].
  inversion Hall as [|? ? Hp Hps]; subst. simpl in *.
  destruct (hasStatus SActive p) eqn:Ha; simpl.
  - rewrite Ha. simpl. rewrite Hp. reflexivity.
  - destruct (hasStatus SAllIn p); simpl; [rewrite Ha|]; apply IH; auto.
Qed.

Lemma sweepBets_unacted (room : Room) :
  Forall (fun p => actedInRound p = false) (players (sweepBets room)).
Proof. simpl. induction (players room); simpl; constructor; auto. Qed.

(** *** The recursion budget: depth 2 is always enough *)

Lemma checkRoundEnd_pending (n : nat) (room : Room) :
  pendingAction room = true ->
  checkRoundEnd (S n) room = checkRoundEnd 1 room /\ checkRoundEnd 1 room <> OutOfFuel.
Proof.
  intros Hp. simpl. rewrite Hp. simpl.
  destruct (negb _); [split; [reflexivity|discriminate]|].
  destruct (_ =? 1); [|split; [reflexivity|discriminate]].
  split; [reflexivity|].
  pose proof (endHand_returns_or_throws room).
  destruct (endHand room); simpl; [discriminate|discriminate|contradiction].
Qed.

Lemma checkRoundEnd_S (n : nat) (room : Room) :
  checkRoundEnd (S n) room
  = if negb (bool_decide (gameStatus room = GPlaying)) then Ret (room, true)
    else if totalInHand room - foldedCount room =? 1 then
      room' ← endHand room; Ret (room', true)
    else if negb (pendingAction room) then
      room' ← nextStreet n room; Ret (room', true)
    else Ret (room, false).
Proof. reflexivity. Qed.

Lemma clearTimeout_frame (room : Room) :
  pendingAction (clearTimeout room) = pendingAction room
  /\ gameStatus (clearTimeout room) = gameStatus room
  /\ totalInHand (clearTimeout room) = totalInHand room
  /\ foldedCount (clearTimeout room) = foldedCount room.
Proof. repeat split. Qed.

Lemma nextStreet_with_ext (g1 g2 : Room -> Res (Room * bool)) (room : Room) :
  (forall r, pendingAction r = true -> g1 r = g2 r /\ g2 r <> OutOfFuel) ->
  nextStreet_with (nextTurn_with g1) room = nextStreet_with (nextTurn_with g2) room
  /\ nextStreet_with (nextTurn_with g2) room <> OutOfFuel.
Proof.
  intros Hg. unfold nextStreet_with.
  destruct (bool_decide _); [split; [reflexivity|apply endHand_returns_or_throws]|].
  set (r2 := setCurrentTurnIndex _ _).
  destruct (_ <? 2) eqn:Hlen; [split; [reflexivity|apply endHand_returns_or_throws]|].
  assert (Hpend : pendingAction r2 = true).
  { apply pendingAction_unacted.
    - subst r2. simpl. destruct (dealStreet_frame (sweepBets room)) as (-> & _).
      apply sweepBets_unacted.
    - intros Hnil. rewrite Hnil in Hlen. simpl in Hlen. discriminate. }
  unfold nextTurn_with. destruct (negb _); [split; [reflexivity|discriminate]|].
  destruct (scanSeats _ _ _) as [[idx p]|]; [split; [reflexivity|discriminate]|].
  destruct (Hg (clearTimeout r2) Hpend) as [-> Hnt]. split; [reflexivity|].
  destruct (g2 (clearTimeout r2)) as [[r3 b]| |]; simpl; [discriminate|discriminate|contradiction].
Qed.

Lemma checkRoundEnd_fuel (n : nat) (room : Room) :
  checkRoundEnd (2 + n) room = checkRoundEnd 2 room /\ checkRoundEnd 2 room <> OutOfFuel.
Proof.
  change (checkRoundEnd (2 + n) room) with
    (if negb (bool_decide (gameStatus room = GPlaying)) then Ret (room, true)
     else if totalInHand room - foldedCount room =? 1 then
       room' ← endHand room; Ret (room', true)
     else if negb (pendingAction room) then
       room' ← nextStreet_with (nextTurn_with (checkRoundEnd (S n))) room; Ret (room', true)
     else Ret (room, false)).
  change (checkRoundEnd 2 room) with
    (if negb (bool_decide (gameStatus room = GPlaying)) then Ret (room, true)
     else if totalInHand room - foldedCount room =? 1 then
       room' ← endHand room; Ret (room', true)
     else if negb (pendingAction room) then
       room' ← nextStreet_with (nextTurn_with (checkRoundEnd 1)) room; Ret (room', true)
     else Ret (room, false)).
  destruct (negb (bool_decide _)); [split; [reflexivity|discriminate]|].
  destruct (_ =? 1).
  { split; [reflexivity|]. pose proof (endHand_returns_or_throws room).
    destruct (endHand room); simpl; [discriminate|discriminate|contradiction]. }
  destruct (negb (pendingAction room)); [|split; [reflexivity|discriminate]].
  destruct (nextStreet_with_ext (checkRoundEnd (S n)) (checkRoundEnd 1) room) as [-> Hnt].
  { intros r Hr. apply checkRoundEnd_pending, Hr. }
  split; [reflexivity|].
  destruct (nextStreet_with _ room); simpl; [discriminate|discriminate|contradiction].
Qed.

Lemma nextTurn_with_ext (g1 g2 : Room -> Res (Room * bool)) (room : Room) :
  (forall r, g1 r = g2 r) -> nextTurn_with g1 room = nextTurn_with g2 room.
Proof.
  intros Hg. unfold nextTurn_with. destruct (negb _); [reflexivity|].
  destruct (scanSeats _ _ _) as [[idx p]|]; [reflexivity|]. rewrite Hg. reflexivity.
Qed.

Lemma nextTurn_fuel (n : nat) (room : Room) :
  nextTurn (2 + n) room = nextTurn 2 room /\ nextTurn 2 room <> OutOfFuel.
Proof.
  unfold nextTurn. split.
  - apply nextTurn_with_ext. intros r. apply checkRoundEnd_fuel.
  - unfold nextTurn_with. destruct (negb _); [discriminate|].
    destruct (scanSeats _ _ _) as [[idx p]|]; [discriminate|].
    destruct (checkRoundEnd_fuel 0 (clearTimeout room)) as [_ Hnt].
    destruct (checkRoundEnd 2 _) as [[r3 b]| |]; simpl; [discriminate|discriminate|contradiction].
Qed.

(** [handlePlayerAction] returns (or throws) at any budget from 2 on, and
    the budget does not change what it returns. *)
Lemma handlePlayerAction_fuel (n : nat) (room : Room) (i : nat) (data : ActionData) :
  handlePlayerAction (2 + n) room i data = handlePlayerAction 2 room i data
  /\ handlePlayerAction 2 room i data <> OutOfFuel.
Proof.
  unfold handlePlayerAction.
  destruct (negb _); [split; [reflexivity|discriminate]|].
  destruct (players room !! i) as [player|]; [|split; [reflexivity|discriminate]].
  destruct (negb _); [split; [reflexivity|discriminate]|].
  set (r1 := applyAction _ _ _ _).
  destruct (checkRoundEnd_fuel n r1) as [-> Hnt].
  destruct (checkRoundEnd 2 r1) as [[r2 closed]| |]; simpl;
    [|split; [reflexivity|discriminate]|contradiction].
  destruct closed; [split; [reflexivity|discriminate]|].
  apply nextTurn_fuel.
Qed.

(** *** What the closure of an action preserves

    The round-closure check and the turn advancement that follow every
    action are built from five kinds of steps: nothing, a change of
    fields other than the players, the pot and the game status, the sweep
    of the bets, the dealing of cards, and the showdown. A relation that
    holds across each of them holds across the whole closure. *)

Lemma autoRun_frame (room : Room) :
  players (autoRun room) = players room /\ pot (autoRun room) = pot room
  /\ gameStatus (autoRun room) = gameStatus room.
Proof.
  unfold autoRun. generalize (5 - length (communityCards room))%nat as k.
  induction k as [|k (IH1 & IH2 & IH3)]; simpl; [auto|].
  rewrite <- IH1, <- IH2, <- IH3. auto.
Qed.

Section ClosureKeeps.
Variable R : Room -> Room -> Prop.
Hypothesis R_refl : forall r, R r r.
Hypothesis R_trans : forall r1 r2 r3, R r1 r2 -> R r2 r3 -> R r1 r3.
Hypothesis R_frame : forall r r',
  players r' = players r -> pot r' = pot r -> gameStatus r' = gameStatus r -> R r r'.
Hypothesis R_sweep : forall r, R r (sweepBets r).
Hypothesis R_endHand : forall r r', endHand r = Ret r' -> R r r'.

Lemma nextTurn_with_keeps (g : Room -> Res (Room * bool)) :
  (forall r r' b, g r = Ret (r', b) -> R r r') ->
  forall r r', nextTurn_with g r = Ret r' -> R r r'.
Proof.
  intros Hg r r'. unfold nextTurn_with.
  destruct (negb _); [intros H; simplify_eq; apply R_refl|].
  destruct (scanSeats _ _ _) as [[idx p]|].
  - intros H; simplify_eq. apply R_frame; reflexivity.
  - destruct (g (clearTimeout r)) as [[r3 b]| |] eqn:Hcall; simpl; try discriminate.
    intros H; simplify_eq. apply (R_trans _ (clearTimeout r)); [apply R_frame; reflexivity|].
    apply (Hg _ _ _ Hcall).
Qed.

Lemma nextStreet_with_keeps (nt : Room -> Res Room) :
  (forall r r', nt r = Ret r' -> R r r') ->
  forall r r', nextStreet_with nt r = Ret r' -> R r r'.
Proof.
  intros Hnt r r'. unfold nextStreet_with.
  destruct (bool_decide _).
  { intros H. apply (R_trans _ (sweepBets r)); [apply R_sweep|apply R_endHand, H]. }
  set (r2 := setCurrentTurnIndex _ _).
  assert (H2 : R r r2).
  { apply (R_trans _ (sweepBets r)); [apply R_sweep|].
    destruct (dealStreet_frame (sweepBets r)) as (Hps & Hpot & Hgs & _).
    apply R_frame; assumption. }
  destruct (_ <? 2).
  - intros H. apply (R_trans _ r2); [exact H2|].
    apply (R_trans _ (autoRun r2)); [|apply R_endHand, H].
    destruct (autoRun_frame r2) as (Hps & Hpot & Hgs). apply R_frame; assumption.
  - intros H. apply (R_trans _ r2); [exact H2|]. apply (Hnt _ _ H).
Qed.

Lemma checkRoundEnd_keeps (fuel : nat) (r r' : Room) (b : bool) :
  checkRoundEnd fuel r = Ret (r', b) -> R r r'.
Proof.
  revert r r' b. induction fuel as [|fuel IH]; intros r r' b; [discriminate|].
  rewrite checkRoundEnd_S.
  destruct (negb _); [intros H; simplify_eq; apply R_refl|].
  destruct (_ =? 1).
  { destruct (endHand r) as [r1| |] eqn:He; simpl; try discriminate.
    intros H; simplify_eq. apply R_endHand, He. }
  destruct (negb (pendingAction r)); [|intros H; simplify_eq; apply R_refl].
  destruct (nextStreet fuel r) as [r1| |] eqn:Hs; simpl; try discriminate.
  intros H; simplify_eq.
  apply (nextStreet_with_keeps (nextTurn fuel)); [|exact Hs].
  apply nextTurn_with_keeps. exact IH.
Qed.

Lemma nextTurn_keeps (fuel : nat) (r r' : Room) : nextTurn fuel r = Ret r' -> R r r'.
Proof. apply nextTurn_with_keeps. intros r1 r2 b. apply checkRoundEnd_keeps. Qed.

(** The part of [handlePlayerAction] that follows the action itself. *)
Lemma closure_keeps (fuel : nat) (r1 r' : Room) :
  ('(room, roundClosed) ← checkRoundEnd fuel r1;
   if (roundClosed : bool) then Ret room else nextTurn fuel room) = Ret r' ->
  R r1 r'.
Proof.
  destruct (checkRoundEnd fuel r1) as [[r2 closed]| |] eqn:Hc; try discriminate.
  cbn [mbind Res_bind]. destruct closed.
  - intros H; simplify_eq. apply (checkRoundEnd_keeps _ _ _ _ Hc).
  - intros H. apply (R_trans _ r2); [apply (checkRoundEnd_keeps _ _ _ _ Hc)|].
    apply (nextTurn_keeps _ _ _ H).
Qed.
End ClosureKeeps.

(** An action that passes the two guards is the action itself followed by
    the closure. *)
Lemma handlePlayerAction_in_turn (fuel : nat) (room : Room) (i : nat) (player : Player)
    (data : ActionData) :
  gameStatus room = GPlaying ->
  players room !! i = Some player ->
  seatIndex player = currentTurnIndex room ->
  handlePlayerAction fuel room i data
  = ('(room', roundClosed) ← checkRoundEnd fuel (applyAction (clearTimeout room) i player data);
     if (roundClosed : bool) then Ret room' else nextTurn fuel room').
Proof.
  intros Hplay Hp Hseat. unfold handlePlayerAction.
  rewrite bool_decide_eq_true_2 by exact Hplay. rewrite Hp. simpl negb.
  destruct (Z.eqb_spec (seatIndex player) (currentTurnIndex room)); [reflexivity|contradiction].
Qed.

(** *** Statuses change in the action only *)

Lemma statuses_alter (f : Player -> Player) (i : nat) (ps : list Player) :
  (forall p, status (f p) = status p) -> map status (alter f i ps) = map status ps.
Proof.
  intros Hf. revert i. induction ps as [|q ps IH]; intros [|i]; simpl; auto.
  - rewrite Hf. reflexivity.
  - f_equal. apply IH.
Qed.

Lemma statuses_payWinners (splitAmount : Z) (ws : list (nat * Z)) (ps : list Player) :
  map status (payWinners splitAmount ws ps) = map status ps.
Proof.
  unfold payWinners. revert ps. induction ws as [|w ws IH]; intros ps; simpl; [reflexivity|].
  rewrite IH. apply statuses_alter. reflexivity.
Qed.

Lemma statuses_endHand (r r' : Room) : endHand r = Ret r' -> statuses r' = statuses r.
Proof.
  unfold statuses. destruct (endHand_cases r) as [(w & _ & ->)|[_ ->]].
  - intros H; simplify_eq. apply statuses_alter. reflexivity.
  - destruct (scoreAll _ _ _); unfold mbind, Res_bind; try discriminate.
    cbv zeta. intros H; injection H as <-. apply statuses_payWinners.
Qed.

Lemma statuses_sweepBets (r : Room) : statuses (sweepBets r) = statuses r.
Proof. unfold statuses. simpl. induction (players r); simpl; congruence. Qed.

Lemma statuses_lookup (r : Room) (i : nat) :
  statuses r !! i = status <$> players r !! i.
Proof.
  unfold statuses. revert i. induction (players r) as [|q ps IH]; intros [|i]; simpl; auto.
Qed.

Lemma statuses_closure (fuel : nat) (r1 r' : Room) :
  ('(room, roundClosed) ← checkRoundEnd fuel r1;
   if (roundClosed : bool) then Ret room else nextTurn fuel room) = Ret r' ->
  statuses r' = statuses r1.
Proof.
  apply (closure_keeps (fun r r' => statuses r' = statuses r)).
  - reflexivity.
  - intros r2 r3 r4 H1 H2. congruence.
  - intros r2 r3 Hps _ _. unfold statuses. rewrite Hps. reflexivity.
  - apply statuses_sweepBets.
  - apply statuses_endHand.
Qed.

End EngineLemmas.
(** ** Betting engine: one action *)

Module ActionProps.
Import EngineNotions EngineLemmas Samples.

Lemma alter_at (f : Player -> Player) (ps : list Player) (i : nat) (p : Player) :
  ps !! i = Some p -> alter f i ps = <[i := f p]> ps.
Proof.
  revert i. induction ps as [|q ps IH]; intros [|i] H; simplify_eq/=; auto.
  f_equal. apply IH, H.
Qed.

(** C5. An action submitted while the table is not in [playing], or by
    a player whose seat is not [currentTurnIndex], leaves the whole
    table state as it was: players, chips, bets, pot, highest bet, turn
    index, statuses, and the pending timer too. *)
Theorem out_of_turn_is_noop (fuel : nat) (room : Room) (i : nat) (data : ActionData) :
  gameStatus room <> GPlaying
  \/ (exists player, players room !! i = Some player
                     /\ seatIndex player <> currentTurnIndex room) ->
  handlePlayerAction fuel room i data = Ret room.
Proof.
  intros Hguard. unfold handlePlayerAction.
  destruct (decide (gameStatus room = GPlaying)) as [Hg|Hg].
  - rewrite bool_decide_eq_true_2 by exact Hg. simpl.
    destruct Hguard as [Hn|(player & Hp & Hn)]; [contradiction|]. rewrite Hp.
    destruct (Z.eqb_spec (seatIndex player) (currentTurnIndex room)); [contradiction|].
    reflexivity.
  - rewrite bool_decide_eq_false_2 by exact Hg. reflexivity.
Qed.

(** What a check does to the table, before the closure. *)
Lemma applyAction_check (room : Room) (i : nat) (player : Player) (amt : option Z) :
  players room !! i = Some player ->
  applyAction room i player (mkData ACheck amt)
  = setPlayers
      (<[i := setActedInRound true
                (if 0 <? highestBet room - currentBet player
                 then setStatus SFolded player else player)]> (players room))
      room.
Proof.
  intros Hp. unfold applyAction, updPlayer. cbn [action].
  destruct (0 <? highestBet room - currentBet player).
  - cbn [players setPlayers]. rewrite list_alter_alter_eq.
    rewrite (alter_at _ _ _ _ Hp). reflexivity.
  - rewrite (alter_at _ _ _ _ Hp). reflexivity.
Qed.

(** C6. A check by the acting player while a call is owed
    ([highestBet - currentBet > 0]) marks that player folded and moves
    no chips: the action is carried out, not rejected, and the player is
    still folded when the handler returns (which it does, or throws, at
    every recursion budget from 2 on). With nothing owed the check
    changes no chips, bets, pot or status; in both cases only the actor's
    [actedInRound] flag is set besides. *)
Theorem check_while_owing_folds (n : nat) (room : Room) (i : nat) (player : Player)
    (amt : option Z) :
  players room !! i = Some player ->
  (0 < highestBet room - currentBet player ->
     applyAction room i player (mkData ACheck amt)
     = setPlayers (<[i := setActedInRound true (setStatus SFolded player)]> (players room)) room
     /\ forall r', gameStatus room = GPlaying ->
                   seatIndex player = currentTurnIndex room ->
                   handlePlayerAction (2 + n) room i (mkData ACheck amt) = Ret r' ->
                   status <$> players r' !! i = Some SFolded)
  /\
  handlePlayerAction (2 + n) room i (mkData ACheck amt) <> OutOfFuel
  /\
  (highestBet room - currentBet player = 0 ->
     applyAction room i player (mkData ACheck amt)
     = setPlayers (<[i := setActedInRound true player]> (players room)) room).
Proof.
  intros Hp. split; [|split]; [intros Hc| |intros Hc].
  - assert (Hlt : (0 <? highestBet room - currentBet player) = true) by (apply Z.ltb_lt; lia).
    split.
    + rewrite (applyAction_check _ _ _ _ Hp), Hlt. reflexivity.
    + intros r' Hplay Hseat.
      rewrite (handlePlayerAction_in_turn _ _ _ _ _ Hplay Hp Hseat). intros Hrun.
      apply statuses_closure in Hrun.
      rewrite <- statuses_lookup, Hrun, statuses_lookup.
      rewrite (applyAction_check (clearTimeout room) _ _ _ Hp).
      change (highestBet (clearTimeout room)) with (highestBet room). rewrite Hlt.
      cbn [players setPlayers clearTimeout setTurnTimer].
      rewrite list_lookup_insert_eq; [reflexivity|]. eapply lookup_lt_Some, Hp.
  - destruct (handlePlayerAction_fuel n room i (mkData ACheck amt)) as [-> Hnt]. exact Hnt.
  - rewrite (applyAction_check _ _ _ _ Hp), Hc. reflexivity.
Qed.

Lemma out_of_turn_is_noop_witness :
  handlePlayerAction 2 preflop3 0 (raiseTo 50) = Ret preflop3
  /\ handlePlayerAction 2 lobby3 0 call_ = Ret lobby3.
Proof.
  split.
  - apply out_of_turn_is_noop. right. eexists. split; [vm_compute; reflexivity|].
    vm_compute. intros H. discriminate H.
  - apply out_of_turn_is_noop. left. vm_compute. intros H. discriminate H.
Defined.

Lemma check_while_owing_folds_witness :
  (map status (players (applyAction preflop3 1 bobUnderTheGun check_))
     = [SActive; SFolded; SActive]
   /\ forall r', handlePlayerAction 2 preflop3 1 check_ = Ret r' ->
                 status <$> players r' !! 1%nat = Some SFolded)
  /\ players (applyAction bigBlindOption 0 annOnBigBlind check_)
     = <[0%nat := setActedInRound true annOnBigBlind]> (players bigBlindOption).
Proof.
  assert (Hbob : players preflop3 !! 1%nat = Some bobUnderTheGun) by (vm_compute; reflexivity).
  assert (Hann : players bigBlindOption !! 0%nat = Some annOnBigBlind) by reflexivity.
  unfold check_. split; [split|].
  - rewrite (proj1 (proj1 (check_while_owing_folds 0 preflop3 1 bobUnderTheGun None Hbob)
                      ltac:(vm_compute; reflexivity))).
    vm_compute. reflexivity.
  - intros r'.
    apply (proj2 (proj1 (check_while_owing_folds 0 preflop3 1 bobUnderTheGun None Hbob)
                    ltac:(vm_compute; reflexivity))); vm_compute; reflexivity.
  - rewrite (proj2 (proj2 (check_while_owing_folds 0 bigBlindOption 0 annOnBigBlind None Hann)));
      reflexivity.
Defined.

End ActionProps.

(** ** Showdown *)

Module ShowdownProps.
Import JsLemmas EngineNotions EngineLemmas ShowdownSpec Samples.

(** *** The sort *)




(** *** References to players *)

Lemma refsFrom_spec (f : Player -> bool) (ps : list Player) (k i : nat) :
  i ∈ refsFrom f k ps <-> (k <= i)%nat /\ exists p, ps !! (i - k)%nat = Some p /\ f p = true.
Proof.
  revert k. induction ps as [|q ps IH]; intros k; simpl.
  - split; [intros H; inversion H|intros (_ & p & Hp & _); discriminate].
  - assert (Htail : i ∈ refsFrom f (S k) ps <->
                    (k < i)%nat /\ exists p, ps !! (i - S k)%nat = Some p /\ f p = true).
    { rewrite IH. split; intros [H1 H2]; (split; [lia|exact H2]). }
    destruct (f q) eqn:Hq.
    + rewrite elem_of_cons, Htail. split.
      * intros [->|(Hlt & p & Hp & Hf)].
        -- split; [lia|]. exists q. rewrite Nat.sub_diag. auto.
        -- split; [lia|]. exists p. split; [|exact Hf].
           replace (i - k)%nat with (S (i - S k)) by lia. exact Hp.
      * intros (Hle & p & Hp & Hf).
        destruct (decide (i = k)) as [->|Hne]; [left; reflexivity|right].
        split; [lia|]. exists p. split; [|exact Hf].
        replace (i - k)%nat with (S (i - S k)) in Hp by lia. exact Hp.
    + rewrite Htail. split.
      * intros (Hlt & p & Hp & Hf). split; [lia|]. exists p. split; [|exact Hf].
        replace (i - k)%nat with (S (i - S k)) by lia. exact Hp.
      * intros (Hle & p & Hp & Hf).
        destruct (decide (i = k)) as [->|Hne].
        { rewrite Nat.sub_diag in Hp. simpl in Hp. congruence. }
        split; [lia|]. exists p. split; [|exact Hf].
        replace (i - k)%nat with (S (i - S k)) in Hp by lia. exact Hp.
Qed.

Lemma refsWhere_spec (f : Player -> bool) (ps : list Player) (i : nat) :
  i ∈ refsWhere f ps <-> exists p, ps !! i = Some p /\ f p = true.
Proof.
  unfold refsWhere. rewrite refsFrom_spec, Nat.sub_0_r.
  split; [intros [_ H]; exact H|intros H; split; [lia|exact H]].
Qed.

Lemma refsFrom_NoDup (f : Player -> bool) (ps : list Player) (k : nat) :
  NoDup (refsFrom f k ps).
Proof.
  revert k. induction ps as [|q ps IH]; intros k; simpl; [constructor|].
  destruct (f q); [|apply IH].
  constructor; [|apply IH]. rewrite refsFrom_spec. lia.
Qed.

(** *** Paying the winners *)




(** *** The evaluator returns on every non-empty input *)

Lemma isFlush_nonempty (cards flushCards : list Card) :
  isFlush cards = Some flushCards -> flushCards <> [].
Proof.
  unfold isFlush.
  destruct (List.find _ _) as [s|] eqn:Hfind; [|discriminate].
  intros H; simplify_eq. apply find_some in Hfind as [_ Hlen].
  destruct (List.filter _ cards); [simpl in Hlen; discriminate|]. discriminate.
Qed.

Lemma evaluateHand_returns (hs cs : list Card) :
  hs ++ cs <> [] -> exists e, evaluateHand hs cs = Some e.
Proof.
  intros Hne. unfold evaluateHand.
  pose proof (sortJS_perm (fun a b => value b - value a) (hs ++ cs)) as Hperm.
  destruct (sortJS _ (hs ++ cs)) as [|c allCards] eqn:Hsort.
  { apply Permutation_nil in Hperm. contradiction. }
  destruct (isFlush (c :: allCards)) as [flushCards|] eqn:Hflush.
  - destruct (isStraight flushCards); [eauto|].
    destruct flushCards; [|eauto]. apply isFlush_nonempty in Hflush. contradiction.
  - cbv zeta.
    repeat match goal with
           | |- exists e, Some _ = Some e => eexists; reflexivity
           | |- exists e, match ?x with _ => _ end = Some e => destruct x
           | |- exists e, (if ?x then _ else _) = Some e => destruct x
           end.
Qed.



(** *** The score table *)

Lemma scoreAll_spec (ps : list Player) (cc : list Slot) (cands : list nat)
    (scores : list (nat * Z)) :
  scoreAll ps cc cands = Ret scores ->
  map fst scores = cands
  /\ Forall (fun r => exists p e, ps !! fst r = Some p
                                  /\ evalSlots (hand p) cc = Ret e /\ score e = snd r) scores.
Proof.
  revert scores. induction cands as [|i cands IH]; intros scores; simpl.
  - intros H; simplify_eq. auto.
  - destruct (ps !! i) as [p|] eqn:Hp; [|discriminate].
    destruct (evalSlots (hand p) cc) as [e| |] eqn:He; simpl; try discriminate.
    destruct (scoreAll ps cc cands) as [rest| |]; simpl; try discriminate.
    intros H; simplify_eq. destruct (IH rest eq_refl) as [Hfst Hall].
    simpl. split; [congruence|]. constructor; [|exact Hall]. simpl. eauto.
Qed.


(** *** The showdown branch of [endHand] *)







(** The split pot of the sample: both live hands score 214 and take
    [floor(31 / 2) = 15] chips each; one chip of the pot is paid to
    nobody. *)
Lemma split_pot_sample :
  exists r', endHand riverShowdown = Ret r'
             /\ map chips (players r') = [195; 199; 205] /\ pot r' = 31.
Proof. eexists. split; [vm_compute; reflexivity|]. split; reflexivity. Qed.

End ShowdownProps.

(** ** Betting engine: chip conservation and round closure *)

Module ClosureProps.
Import EngineNotions EngineLemmas ClosureSpec Samples.

Lemma chipTotal_frame (r r' : Room) :
  players r' = players r -> pot r' = pot r -> chipTotal r' = chipTotal r.
Proof. unfold chipTotal. intros -> ->. reflexivity. Qed.

(** Across the closure of an action, a table that is still in [playing]
    was in [playing] all along and holds the chip total it started from. *)
Lemma closure_total (fuel : nat) (r1 r' : Room) :
  ('(room, roundClosed) ← checkRoundEnd fuel r1;
   if (roundClosed : bool) then Ret room else nextTurn fuel room) = Ret r' ->
  gameStatus r' = GPlaying -> chipTotal r' = chipTotal r1.
Proof.
  intros Hrun Hplay.
  apply (closure_keeps (fun r r' => gameStatus r' = GPlaying ->
                                    gameStatus r = GPlaying /\ chipTotal r' = chipTotal r))
    with (fuel := fuel) (r' := r'); [| | | | |exact Hrun|exact Hplay].
  - auto.
  - intros r2 r3 r4 H1 H2 H4. destruct (H2 H4) as [H3 Ht]. destruct (H1 H3) as [H5 Ht'].
    split; [exact H5|congruence].
  - intros r2 r3 Hps Hpot Hgs H3. split; [congruence|]. apply chipTotal_frame; assumption.
  - intros r2 H2. split; [exact H2|apply sweepBets_total].
  - intros r2 r3 He H3. apply endHand_showdown in He. congruence.
Qed.

(** The sample tables are states of one hand dealt to [lobby3]. *)
Lemma bigBlindOption_reached :
  play 2 preflop3 [(1%nat, call_); (2%nat, call_)] = Ret bigBlindOption.
Proof. vm_compute. reflexivity. Qed.

Lemma flopHeadsUp_reached :
  play 2 preflop3 [(1%nat, fold_); (2%nat, call_); (0%nat, check_); (2%nat, check_)]
  = Ret flopHeadsUp.
Proof. vm_compute. reflexivity. Qed.

(** The hand that ends on a fold: "ann" folds the flop to "cy". *)
Lemma fold_out_outcome :
  handlePlayerAction 2 flopHeadsUp 0 fold_
  = Ret (mkRoom
      [mkPlayer "ann" 198 0 SFolded [Some (mkCard RA Clubs); Some (mkCard RK Clubs)] 0 true;
       mkPlayer "bob" 200 1 SFolded [Some (mkCard RQ Clubs); Some (mkCard RJ Clubs)] 0 false;
       mkPlayer "cy" 202 2 SActive [Some (mkCard RT Clubs); Some (mkCard R9 Clubs)] 0 true]
      GShowdown 5 1 2 0 0 4 0 2 Flop
      [Some (mkCard R7 Clubs); Some (mkCard R6 Clubs); Some (mkCard R5 Clubs)]
      (firstn 42 freshDeck) None).
Proof. vm_compute. reflexivity. Qed.

(** C1, as stated, fails: a fold that ends the hand credits the pot of 4
    to the winner while the pot field keeps its 4 until the next-hand
    reset, so the total goes from 600 to 604 across the action. *)
Lemma fold_out_changes_total :
  gameStatus flopHeadsUp = GPlaying /\
  chipTotal flopHeadsUp = 600 /\
  exists r', handlePlayerAction 2 flopHeadsUp 0 fold_ = Ret r' /\ chipTotal r' = 604.
Proof.
  split; [reflexivity|]. split; [reflexivity|].
  eexists. split; [apply fold_out_outcome|]. reflexivity.
Qed.

(** C1, amended. Every action handled by [handlePlayerAction] that leaves
    the table in [playing] leaves [sum(chips) + pot + sum(currentBet)] as
    it was, whatever the action and the requested amount; so do the
    action's own chip movement (before the round-closure check), in every
    case, and the sweep of the bets into the pot in [nextStreet]. The
    handler returns or throws at every recursion budget from 2 on. *)
Theorem chip_conservation (n : nat) (room : Room) (i : nat) (player : Player)
    (data : ActionData) (r' : Room) :
  players room !! i = Some player ->
  handlePlayerAction (2 + n) room i data = Ret r' ->
  gameStatus r' = GPlaying ->
  chipTotal r' = chipTotal room
  /\ chipTotal (applyAction room i player data) = chipTotal room
  /\ (forall r0, chipTotal (sweepBets r0) = chipTotal r0)
  /\ handlePlayerAction (2 + n) room i data <> OutOfFuel.
Proof.
  intros Hp Hrun Hplay.
  split; [|split; [|split]].
  - revert Hrun. destruct (decide (gameStatus room = GPlaying)) as [Hg|Hg];
      [|rewrite (proj1 (handlePlayerAction_fuel n room i data)); unfold handlePlayerAction;
        rewrite bool_decide_eq_false_2 by exact Hg; cbn [negb];
        intros H; simplify_eq; reflexivity].
    destruct (Z.eq_dec (seatIndex player) (currentTurnIndex room)) as [Hs|Hs];
      [|rewrite (proj1 (handlePlayerAction_fuel n room i data)); unfold handlePlayerAction;
        rewrite bool_decide_eq_true_2 by exact Hg; rewrite Hp;
        destruct (Z.eqb_spec (seatIndex player) (currentTurnIndex room)); [contradiction|];
        cbn [negb]; intros H; simplify_eq; reflexivity].
    rewrite (handlePlayerAction_in_turn _ _ _ _ _ Hg Hp Hs). intros Hrun.
    rewrite (closure_total _ _ _ Hrun Hplay).
    exact (sameStakes_total (clearTimeout room) _
             (applyAction_sameStakes (clearTimeout room) _ _ data Hp)).
  - apply sameStakes_total, applyAction_sameStakes, Hp.
  - intros r0. apply sweepBets_total.
  - destruct (handlePlayerAction_fuel n room i data) as [-> Hnt]. exact Hnt.
Qed.

Lemma chip_conservation_witness :
  exists r', handlePlayerAction 2 preflop3 1 call_ = Ret r'
             /\ gameStatus r' = GPlaying
             /\ chipTotal r' = chipTotal preflop3.
Proof.
  eexists. split; [vm_compute; reflexivity|]. split; [reflexivity|].
  refine (proj1 (chip_conservation 0 preflop3 1 _ call_ _ _ _ _));
    [vm_compute; reflexivity | vm_compute; reflexivity | reflexivity].
Defined.

(** *** Round closure *)

Lemma allSettled_not_pending (room : Room) :
  allSettled room = true -> pendingAction room = false.
Proof.
  unfold allSettled, pendingAction. generalize (highestBet room) as hb.
  induction (players room) as [|p ps IH]; intros hb H; [reflexivity|].
  simpl in *. apply andb_true_iff in H as [Hp Hps].
  destruct (hasStatus SActive p) eqn:Ha; simpl in *.
  - rewrite Ha. simpl. apply andb_true_iff in Hp as [Hacted Hbet].
    rewrite Hacted. apply Z.eqb_eq in Hbet. rewrite Hbet, Z.ltb_irrefl. simpl.
    rewrite <- Hbet. apply IH. rewrite Hbet. exact Hps.
  - destruct (hasStatus SAllIn p); simpl; [rewrite Ha|]; apply IH; exact Hps.
Qed.

Lemma somePending_pending (room : Room) :
  somePending room = true -> pendingAction room = true.
Proof.
  unfold somePending, pendingAction. generalize (highestBet room) as hb.
  induction (players room) as [|p ps IH]; intros hb H; [discriminate|].
  simpl in *. destruct (hasStatus SActive p) eqn:Ha; simpl in *.
  - rewrite Ha. simpl. destruct (actedInRound p), (currentBet p <? hb); simpl in *; auto.
  - destruct (hasStatus SAllIn p); simpl; [rewrite Ha|]; apply IH; exact H.
Qed.

(** What [endHand] leaves alone. *)
Lemma endHand_frame (room r' : Room) :
  endHand room = Ret r' ->
  roundName r' = roundName room /\ communityCards r' = communityCards room
  /\ deck r' = deck room.
Proof.
  destruct (endHand_cases room) as [(w & _ & ->)|[_ ->]].
  - intros H; simplify_eq. auto.
  - destruct (scoreAll _ _ _); unfold mbind, Res_bind; try discriminate.
    cbv zeta. intros H; injection H as <-. auto.
Qed.

Lemma autoRun_roundName (room : Room) : roundName (autoRun room) = roundName room.
Proof.
  unfold autoRun. generalize (5 - length (communityCards room))%nat as k.
  induction k as [|k IH]; simpl; [reflexivity|]. rewrite <- IH. reflexivity.
Qed.

Lemma dealStreet_roundName (room : Room) :
  roundName (dealStreet room) = nextRound (roundName room).
Proof.
  unfold dealStreet. destruct (roundName room) eqn:Hr; simpl; auto.
  unfold deal, pop. simpl. destruct (last (deck room)); reflexivity.
Qed.

Lemma checkRoundEnd_pending_frame (room r' : Room) (b : bool) :
  pendingAction room = true -> checkRoundEnd 1 room = Ret (r', b) ->
  roundName r' = roundName room /\ communityCards r' = communityCards room
  /\ deck r' = deck room.
Proof.
  intros Hp. simpl. rewrite Hp. simpl.
  destruct (negb _); [intros H; simplify_eq; auto|].
  destruct (_ =? 1); [|intros H; simplify_eq; auto].
  destruct (endHand room) as [r1| |] eqn:He; simpl; try discriminate.
  intros H; simplify_eq. apply (endHand_frame _ _ He).
Qed.

(** Street advancement moves the street name on by one (and keeps
    [river], on which it is the showdown). *)
Lemma nextStreet_roundName (room r' : Room) :
  nextStreet 1 room = Ret r' -> roundName r' = nextRound (roundName room).
Proof.
  unfold nextStreet, nextStreet_with.
  destruct (bool_decide _) eqn:Hriver.
  { intros H. apply endHand_frame in H as (-> & _). simpl.
    apply bool_decide_eq_true in Hriver. simpl in Hriver. rewrite Hriver. reflexivity. }
  set (r2 := setCurrentTurnIndex _ _).
  assert (Hr2 : roundName r2 = nextRound (roundName room)).
  { subst r2. simpl. rewrite dealStreet_roundName. reflexivity. }
  destruct (_ <? 2) eqn:Hlen.
  { intros H. apply endHand_frame in H as (-> & _). rewrite autoRun_roundName. exact Hr2. }
  assert (Hpend : pendingAction r2 = true).
  { apply pendingAction_unacted.
    - subst r2. simpl. destruct (dealStreet_frame (sweepBets room)) as (-> & _).
      apply sweepBets_unacted.
    - intros Hnil. rewrite Hnil in Hlen. simpl in Hlen. discriminate. }
  unfold nextTurn, nextTurn_with. destruct (negb _); [intros H; simplify_eq; exact Hr2|].
  destruct (scanSeats _ _ _) as [[idx p]|]; [intros H; simplify_eq; exact Hr2|].
  destruct (checkRoundEnd 1 (clearTimeout r2)) as [[r3 b]| |] eqn:Hc; simpl; try discriminate.
  intros H; simplify_eq.
  destruct (checkRoundEnd_pending_frame (clearTimeout r2) _ _ Hpend Hc) as (-> & _).
  exact Hr2.
Qed.

(** C4, as stated, fails in its first half: after "ann" folds, the only
    still-active player has acted and matches the highest bet, yet the
    engine does not go to the next street. One un-folded hand is left, so
    the hand ends at once: the street stays [flop], no card is dealt. *)
Lemma settled_but_hand_ends :
  let r1 := applyAction (clearTimeout flopHeadsUp) 0
              (mkPlayer "ann" 198 0 SActive [Some (mkCard RA Clubs); Some (mkCard RK Clubs)] 0 false)
              fold_ in
  players flopHeadsUp !! 0%nat
    = Some (mkPlayer "ann" 198 0 SActive [Some (mkCard RA Clubs); Some (mkCard RK Clubs)] 0 false)
  /\ allSettled r1 = true
  /\ handlePlayerAction 2 flopHeadsUp 0 fold_ <> nextStreet 1 r1
  /\ exists r', handlePlayerAction 2 flopHeadsUp 0 fold_ = Ret r'
                /\ gameStatus r' = GShowdown
                /\ roundName r' = roundName flopHeadsUp
                /\ communityCards r' = communityCards flopHeadsUp
                /\ deck r' = deck flopHeadsUp.
Proof.
  cbv zeta. split; [reflexivity|]. split; [vm_compute; reflexivity|].
  split; [vm_compute; discriminate|].
  eexists. split; [apply fold_out_outcome|]. repeat split.
Qed.

(** C4, amended. Let [r1] be the table right after the action of the
    player in turn, and let the number of players holding cards minus the
    number of folded players differ from 1 (otherwise the hand ends at
    once). If every still-active player has acted and matches the highest
    bet, the handler runs the street advancement on [r1], which moves the
    street name on by one; if some still-active player has bet less than
    the highest bet or has not acted, the handler returns a table with the
    street, the board, the deck, the pot, the bets and the players of
    [r1], still in [playing]. *)
Theorem round_closure (n : nat) (room : Room) (i : nat) (player : Player) (data : ActionData) :
  gameStatus room = GPlaying ->
  players room !! i = Some player ->
  seatIndex player = currentTurnIndex room ->
  totalInHand (applyAction (clearTimeout room) i player data)
    - foldedCount (applyAction (clearTimeout room) i player data) <> 1 ->
  let r1 := applyAction (clearTimeout room) i player data in
  (allSettled r1 = true ->
     handlePlayerAction (2 + n) room i data = nextStreet 1 r1
     /\ nextStreet 1 r1 <> OutOfFuel
     /\ forall r2, nextStreet 1 r1 = Ret r2 -> roundName r2 = nextRound (roundName r1))
  /\
  (somePending r1 = true ->
     exists r2, handlePlayerAction (2 + n) room i data = Ret r2
       /\ gameStatus r2 = GPlaying
       /\ roundName r2 = roundName r1 /\ communityCards r2 = communityCards r1
       /\ deck r2 = deck r1 /\ pot r2 = pot r1 /\ highestBet r2 = highestBet r1
       /\ players r2 = players r1).
Proof.
  intros Hplay Hp Hseat Hmany r1.
  destruct (handlePlayerAction_fuel n room i data) as [-> _].
  assert (Hplay1 : gameStatus r1 = GPlaying).
  { subst r1. rewrite applyAction_gameStatus. exact Hplay. }
  assert (Hrun : handlePlayerAction 2 room i data
                 = ('(room', roundClosed) ← checkRoundEnd 2 r1;
                    if (roundClosed : bool) then Ret room' else nextTurn 2 room')).
  { unfold handlePlayerAction. rewrite bool_decide_eq_true_2 by exact Hplay.
    rewrite Hp. simpl negb. destruct (Z.eqb_spec (seatIndex player) (currentTurnIndex room));
      [reflexivity|contradiction]. }
  assert (Hcheck : checkRoundEnd 2 r1
                   = if negb (pendingAction r1)
                     then room' ← nextStreet 1 r1; Ret (room', true)
                     else Ret (r1, false)).
  { rewrite checkRoundEnd_S.
    rewrite bool_decide_eq_true_2 by exact Hplay1. simpl negb at 1. cbv iota.
    destruct (Z.eqb_spec (totalInHand r1 - foldedCount r1) 1); [contradiction|reflexivity]. }
  rewrite Hrun, Hcheck. split.
  - intros Hall. rewrite (allSettled_not_pending _ Hall). simpl negb. cbv iota.
    split; [|split].
    + destruct (nextStreet 1 r1); reflexivity.
    + apply (nextStreet_with_ext (checkRoundEnd 1) (checkRoundEnd 1) r1).
      intros r Hr. split; [reflexivity|]. apply (checkRoundEnd_pending 0 r Hr).
    + intros r2. apply nextStreet_roundName.
  - intros Hsome. pose proof (somePending_pending _ Hsome) as Hpend.
    rewrite Hpend. simpl negb. cbv iota. cbn [mbind Res_bind].
    unfold nextTurn, nextTurn_with.
    rewrite bool_decide_eq_true_2 by exact Hplay1. simpl negb. cbv iota.
    destruct (scanSeats _ _ _) as [[idx p]|].
    + eexists. split; [reflexivity|]. simpl. auto 10.
    + assert (Hc : checkRoundEnd 2 (clearTimeout r1) = Ret (clearTimeout r1, false)).
      { rewrite checkRoundEnd_S.
        destruct (clearTimeout_frame r1) as (-> & -> & -> & ->).
        rewrite bool_decide_eq_true_2 by exact Hplay1. simpl negb at 1. cbv iota.
        destruct (Z.eqb_spec (totalInHand r1 - foldedCount r1) 1); [contradiction|].
        rewrite Hpend. reflexivity. }
      rewrite Hc. eexists. split; [reflexivity|]. simpl. auto 10.
Qed.

Lemma round_closure_witness :
  handlePlayerAction 2 bigBlindOption 0 check_
    = nextStreet 1 (applyAction (clearTimeout bigBlindOption) 0 annOnBigBlind check_)
  /\ exists r2, handlePlayerAction 2 preflop3 1 call_ = Ret r2
                /\ gameStatus r2 = GPlaying /\ roundName r2 = Preflop
                /\ communityCards r2 = [].
Proof.
  split.
  - refine (proj1 (proj1 (round_closure 0 bigBlindOption 0 annOnBigBlind check_ _ _ _ _) _));
      [reflexivity | reflexivity | reflexivity | vm_compute; intros H; discriminate H
      | vm_compute; reflexivity].
  - assert (Hbob : players preflop3 !! 1%nat = Some bobUnderTheGun)
      by (vm_compute; reflexivity).
    destruct (proj2 (round_closure 0 preflop3 1 bobUnderTheGun call_ eq_refl Hbob eq_refl
                       ltac:(vm_compute; intros H; discriminate H))
                    ltac:(vm_compute; reflexivity))
      as (r2 & Hrun & Hplay & Hround & Hcards & _).
    exists r2. split; [exact Hrun|]. split; [exact Hplay|].
    split; [rewrite Hround; vm_compute; reflexivity|rewrite Hcards; vm_compute; reflexivity].
Defined.

End ClosureProps.

(** ** Turn order and the start of a hand *)

Module TurnProps.
Import Samples TurnSpec.

(** The seat scan of [nextTurn] only ever stops on an occupied seat whose
    player is active and has chips. *)
Lemma scanSeats_found (ps : list Player) (start : Z) (n : nat) (idx : Z) (p : Player) :
  scanSeats ps start n = Some (idx, p) ->
  List.find (fun pl => seatIndex pl =? idx) ps = Some p
  /\ status p = SActive /\ 0 < chips p.
Proof.
  revert start. induction n as [|n IH]; intros start; simpl; [discriminate|].
  destruct (List.find (fun pl => seatIndex pl =? start) ps) as [q|] eqn:Hfind; [|apply IH].
  destruct (hasStatus SActive q && (0 <? chips q)) eqn:Hok; [|apply IH].
  intros H; simplify_eq. apply andb_true_iff in Hok as [Hs Hc].
  split; [exact Hfind|]. split; [apply bool_decide_eq_true in Hs; exact Hs|lia].
Qed.

(** Whenever [nextTurn] hands the turn to a seat, that turn is legal. *)
Lemma nextTurn_found_is_legal (g : Room -> Res (Room * bool)) (room : Room)
    (idx : Z) (p : Player) :
  gameStatus room = GPlaying ->
  scanSeats (players room) ((currentTurnIndex room + 1) `rem` 9) 9 = Some (idx, p) ->
  exists r', nextTurn_with g room = Ret r' /\ currentTurnIndex r' = idx
             /\ turnIsLegal r' = true.
Proof.
  intros Hplay Hscan. unfold nextTurn_with.
  rewrite bool_decide_eq_true_2 by exact Hplay. cbn [negb].
  change (players (clearTimeout room)) with (players room).
  change (currentTurnIndex (clearTimeout room)) with (currentTurnIndex room).
  rewrite Hscan.
  eexists. split; [reflexivity|]. split; [reflexivity|].
  apply scanSeats_found in Hscan as (Hfind & Hs & Hc).
  unfold turnIsLegal. simpl. rewrite Hfind.
  apply andb_true_iff. split; [apply bool_decide_eq_true; exact Hs|lia].
Qed.

(** C2 (the code departs from it), in two reachable states.
    - [startGame] picks the first actor among the players dealt in,
      before the blinds are paid: on a two-handed start the small blind
      acts first, and a small blind who had one chip acts with none.
    - A raise to exactly the raiser's stack leaves the raiser [active]
      with no chips; once the other players are all-in or folded,
      [nextTurn] finds nobody, the closure check still waits for the
      raiser, and the table stays in [playing] with [currentTurnIndex] on
      the folded seat 3 and no timer armed. *)
Theorem turn_on_chipless_seat :
  (let r := startGameRequest freshDeck brokeLobby in
   gameStatus r = GPlaying /\ currentTurnIndex r = 0
   /\ List.find (fun p => seatIndex p =? 0) (players r)
      = Some (mkPlayer "ann" 0 0 SActive
                [Some (mkCard RA Clubs); Some (mkCard RK Clubs)] 1 false)
   /\ turnIsLegal r = false)
  /\
  (turnIsLegal (startGame freshDeck lobby5) = true /\
   exists r,
     play 2 (startGame freshDeck lobby5)
       [(4%nat, raiseTo 100); (0%nat, allIn_); (1%nat, fold_); (2%nat, fold_); (3%nat, fold_)]
     = Ret r
     /\ gameStatus r = GPlaying /\ currentTurnIndex r = 3 /\ turnTimer r = None
     /\ map status (players r) = [SAllIn; SFolded; SFolded; SFolded; SActive]
     /\ map chips (players r) = [0; 200; 199; 198; 0]
     /\ turnIsLegal r = false).
Proof.
  split.
  - cbv zeta. repeat split; vm_compute; reflexivity.
  - split; [vm_compute; reflexivity|].
    eexists. split; [vm_compute; reflexivity|]. repeat split.
Qed.

(** C9 (the code departs from it). The [startGameRequest] handler counts
    the seated players, whatever their chips: with five seats taken and
    only two funded players the request is accepted and the table goes to
    [playing], while the check after a showdown, on the same table,
    counts the funded players and stays in [waiting]. *)
Theorem start_request_counts_seats :
  gameStatus brokeLobby = GWaiting
  /\ minPlayers brokeLobby = 5
  /\ fundedPlayers brokeLobby = 2
  /\ gameStatus (startGameRequest freshDeck brokeLobby) = GPlaying
  /\ gameStatus (startNextHandOrWait freshDeck brokeLobby) = GWaiting.
Proof. repeat split; vm_compute; reflexivity. Qed.

Lemma filter_filter_map_le (f g f' : Player -> bool) (h : Player -> Player)
    (ps : list Player) :
  (forall p, g (h p) = true -> f (h p) = true -> f' p = true) ->
  (length (List.filter f (List.filter g (map h ps))) <= length (List.filter f' ps))%nat.
Proof.
  intros Himp. induction ps as [|p ps IH]; simpl; [lia|].
  destruct (g (h p)) eqn:Hg; simpl.
  - destruct (f (h p)) eqn:Hf; simpl.
    + rewrite (Himp p Hg Hf). simpl. lia.
    + destruct (f' p); simpl; lia.
  - destruct (f' p); simpl; lia.
Qed.

(** The check after a showdown does keep the quorum: it leaves [waiting]
    only with at least [minPlayers] funded players. *)
Lemma post_showdown_quorum (shuffled : list Card) (room : Room) :
  gameStatus (startNextHandOrWait shuffled room) = GPlaying ->
  minPlayers room <= fundedPlayers room.
Proof.
  unfold startNextHandOrWait. cbn [players minPlayers setPlayers setGameStatus
    setCommunityCards setPot].
  match goal with |- context [minPlayers room <=? ?k] =>
    destruct (Z.leb_spec (minPlayers room) k) as [Hle|Hlt] end; [|discriminate].
  intros _. etransitivity; [exact Hle|]. unfold fundedPlayers.
  apply inj_le. apply filter_filter_map_le.
  intros p _. destruct (negb _); simpl; auto.
Qed.

End TurnProps.

(** ** Street advancement: the cards *)

Module StreetProps.
Import EngineNotions EngineLemmas ClosureSpec ClosureProps Samples.









End StreetProps.

(** ** The deck *)

Module DeckProps.
Import PokerDeck.

Lemma insert_replaces {A : Type} (l : list A) (i : nat) (x y : A) :
  l !! i = Some x -> <[i := y]> l ≡ₚ y :: delete i l.
Proof.
  intros Hi. pose proof (lookup_lt_Some _ _ _ Hi) as Hlt.
  rewrite insert_take_drop by exact Hlt. rewrite delete_take_drop.
  symmetry. apply Permutation_middle.
Qed.

Lemma swap_perm {A : Type} (i j : nat) (l : list A) : swap i j l ≡ₚ l.
Proof.
  unfold swap. destruct (l !! i) as [x|] eqn:Hi; [|reflexivity].
  destruct (l !! j) as [y|] eqn:Hj; [|reflexivity].
  destruct (decide (i = j)) as [->|Hne].
  - simplify_eq. rewrite list_insert_insert_eq, list_insert_id by exact Hi. reflexivity.
  - assert (Hj' : <[i := y]> l !! j = Some y)
      by (rewrite list_lookup_insert_ne by exact Hne; exact Hj).
    etransitivity; [apply (insert_replaces _ j y x Hj')|].
    etransitivity; [|symmetry; apply (delete_Permutation l i x Hi)].
    apply Permutation_cons; [reflexivity|].
    apply (Permutation_cons_inv (a := y)).
    etransitivity; [symmetry; apply (delete_Permutation _ j y Hj')|].
    apply (insert_replaces l i x y Hi).
Qed.

Lemma shuffleFrom_perm {A : Type} (draw : nat -> nat) (i : nat) (l : list A) :
  shuffleFrom draw i l ≡ₚ l.
Proof.
  revert l. induction i as [|i IH]; intros l; simpl; [reflexivity|].
  rewrite IH. apply swap_perm.
Qed.

(** X1. Shuffling rearranges: whatever the random draws, the shuffled
    array holds the same elements as before, each as often as before. *)
Theorem shuffle_perm {A : Type} (draw : nat -> nat) (l : list A) : shuffle draw l ≡ₚ l.
Proof. apply shuffleFrom_perm. Qed.

Lemma freshDeck_NoDup : NoDup Poker.freshDeck.
Proof. apply (bool_decide_unpack _). vm_compute. exact I. Qed.

(** X2. A new deck holds 52 cards, no card twice, and every card of
    every rank and suit, whatever the random draws of the shuffle. *)
Theorem newDeck_complete (draw : nat -> nat) :
  length (newDeck draw) = 52%nat
  /\ NoDup (newDeck draw)
  /\ forall r s, Poker.mkCard r s ∈ newDeck draw.
Proof.
  unfold newDeck, shuffle.
  pose proof (shuffleFrom_perm draw (length Poker.freshDeck - 1) Poker.freshDeck) as Hperm.
  split; [|split].
  - rewrite (Permutation_length Hperm). reflexivity.
  - rewrite Hperm. apply freshDeck_NoDup.
  - intros r s. rewrite Hperm. apply list_elem_of_In. destruct r, s; vm_compute; tauto.
Qed.

End DeckProps.

(** ** Hand evaluator: what every answer guarantees *)

Module EvaluatorMore.
Import JsLemmas HandSpec EvaluatorProps.

(** *** Straights *)

Lemma runFrom_snoc (high : Z) (n : nat) :
  runFrom high (S n) = runFrom high n ++ [high - Z.of_nat n].
Proof. unfold runFrom. rewrite seq_S, map_app. reflexivity. Qed.

Lemma runFrom_last (high : Z) (n : nat) :
  last (runFrom high (S n)) = Some (high - Z.of_nat n).
Proof. rewrite runFrom_snoc. apply last_snoc. Qed.

Lemma runFrom_In (high : Z) (n : nat) (k : Z) :
  0 <= k < Z.of_nat n -> In (high - k) (runFrom high n).
Proof.
  intros Hk. unfold runFrom. apply in_map_iff. exists (Z.to_nat k).
  split; [lia|]. apply in_seq. lia.
Qed.

(** The loop keeps a run of consecutive values taken from the values it
    was given, and answers with the head of a run of five. *)
Lemma straightLoop_sound (V vs : list Z) (high0 : Z) (n0 : nat) (h : Z) :
  (forall v, In v vs -> In v V) ->
  (forall v, In v (runFrom high0 n0) -> In v V) ->
  straightLoop vs (runFrom high0 n0) = Some h ->
  forall k, 0 <= k < 5 -> In (h - k) V.
Proof.
  revert high0 n0. induction vs as [|v rest IH]; intros high0 n0 Hvs Hrun; simpl; [discriminate|].
  assert (Hstep : forall high n,
            (forall x, In x (runFrom high n) -> In x V) ->
            (if Z.of_nat (length (runFrom high n)) =? 5 then head (runFrom high n)
             else straightLoop rest (runFrom high n)) = Some h ->
            forall k, 0 <= k < 5 -> In (h - k) V).
  { intros high n Hin. destruct (Z.eqb_spec (Z.of_nat (length (runFrom high n))) 5) as [Hlen|_].
    - unfold runFrom in Hlen. rewrite length_map, length_seq in Hlen.
      assert (n = 5%nat) by lia. subst n. intros Hh k Hk. apply Hin.
      assert (Hhd : head (runFrom high 5) = Some high)
        by (unfold runFrom; simpl; f_equal; lia).
      rewrite Hhd in Hh. injection Hh as <-. apply runFrom_In. lia.
    - intros Hloop. apply (IH high n); [|exact Hin|exact Hloop].
      intros x Hx. apply Hvs. right. exact Hx. }
  assert (Hone : forall x, In x (runFrom v 1) -> In x V).
  { intros x [<-|[]]. simpl. rewrite Z.sub_0_r. apply Hvs. left. reflexivity. }
  destruct n0 as [|n0].
  - assert (H1 : [v] = runFrom v 1) by (unfold runFrom; simpl; f_equal; lia).
    change (runFrom high0 0) with (@nil Z). cbn [last app]. rewrite H1.
    apply Hstep, Hone.
  - rewrite runFrom_last. destruct (Z.eqb_spec (high0 - Z.of_nat n0) (v + 1)) as [Heq|_].
    + replace v with (high0 - Z.of_nat (S n0)) by lia. rewrite <- runFrom_snoc.
      apply Hstep. intros x Hx. rewrite runFrom_snoc in Hx.
      apply in_app_iff in Hx as [Hx|[<-|[]]]; [apply Hrun, Hx|].
      apply Hvs. left. lia.
    + assert (H1 : [v] = runFrom v 1) by (unfold runFrom; simpl; f_equal; lia).
      rewrite H1. apply Hstep, Hone.
Qed.

Lemma isStraight_values (cards : list Card) (high : Z) :
  isStraight cards = Some high ->
  (forall k, 0 <= k < 5 -> hasValue cards (high - k)) /\ 5 <= high <= 14.
Proof.
  unfold isStraight. intros Hs.
  set (U := uniq Z.eqb (map value cards)) in *.
  set (U' := if existsb (Z.eqb 14) U then U ++ [1] else U) in *.
  assert (HU : forall v, In v U -> exists c, In c cards /\ value c = v).
  { intros v Hv. unfold U in Hv.
    apply (proj1 (uniq_In Z.eqb (map value cards) v (fun a b => Z.eqb_eq a b))) in Hv.
    apply in_map_iff in Hv as (c & Hc & Hin). eauto. }
  assert (HU' : forall v, In v U' -> hasValue cards v).
  { intros v Hv. subst U'. destruct (existsb (Z.eqb 14) U) eqn:Hace.
    - apply in_app_iff in Hv as [Hv|[<-|[]]].
      + destruct (HU v Hv) as (c & Hin & Hc). exists c. auto.
      + apply existsb_exists in Hace as (a & Ha & Heq). apply Z.eqb_eq in Heq. subst a.
        destruct (HU 14 Ha) as (c & Hin & Hc). exists c. auto.
    - destruct (HU v Hv) as (c & Hin & Hc). exists c. auto. }
  assert (Hall : forall k, 0 <= k < 5 -> hasValue cards (high - k)).
  { intros k Hk. apply HU'.
    apply (Permutation_in _ (sortJS_perm (fun a b => b - a) U')).
    apply (straightLoop_sound _ _ 0 0 high (fun v H => H)); [intros v []|exact Hs|exact Hk]. }
  split; [exact Hall|].
  assert (Hrange : forall v, hasValue cards v -> 1 <= v <= 14).
  { intros v (c & _ & [<-|[-> _]]); [|lia]. pose proof (RANK_VALUE_range (rank c)).
    unfold value. lia. }
  pose proof (Hrange _ (Hall 0 ltac:(lia))). pose proof (Hrange _ (Hall 4 ltac:(lia))). lia.
Qed.

(** X3. A straight that [isStraight] reports is in the cards: for the
    answer [high], each of the five values [high], ..., [high - 4] is the
    value of some card, an ace counting as 1 as well as 14; so [high] is
    between 5 and 14. *)
Theorem isStraight_sound (cards : list Card) (high : Z) :
  isStraight cards = Some high ->
  (forall k, 0 <= k < 5 -> hasValue cards (high - k)) /\ 5 <= high <= 14.
Proof. apply isStraight_values. Qed.

Lemma isStraight_sound_witness :
  hasValue (wheelHole ++ wheelBoard) (5 - 0) /\ hasValue (wheelHole ++ wheelBoard) (5 - 4).
Proof.
  split;
    apply (proj1 (isStraight_sound (wheelHole ++ wheelBoard) 5 ltac:(vm_compute; reflexivity)));
    lia.
Defined.

(** *** Scores *)

Lemma Math_max_ranks (t : Rank) (ts : list Rank) :
  2 <= Math_max (map RANK_VALUE (t :: ts)) <= 14.
Proof.
  destruct (Math_max_spec (RANK_VALUE t) (map RANK_VALUE ts)) as [Hin _].
  change (RANK_VALUE t :: map RANK_VALUE ts) with (map RANK_VALUE (t :: ts)) in Hin.
  apply list_elem_of_In, in_map_iff in Hin as (k & <- & _). apply RANK_VALUE_range.
Qed.

Lemma value_range (c : Card) : 2 <= value c <= 14.
Proof. apply RANK_VALUE_range. Qed.

(** X4. Every score is a tier from 1 to 9 times 100 plus a card value
    from 2 to 14: the tiers never overlap, so a hand of a higher tier
    always has the higher score. *)
Theorem score_is_tier_plus_value (hole board : list Card) (e : HandResult) :
  evaluateHand hole board = Some e ->
  exists tier v, score e = 100 * tier + v /\ 1 <= tier <= 9 /\ 2 <= v <= 14.
Proof.
  unfold evaluateHand.
  set (allCards := sortJS _ (hole ++ board)).
  destruct (isFlush allCards) as [flushCards|].
  - destruct (isStraight flushCards) as [h|] eqn:Hs.
    + intros H; simplify_eq. exists 9, h. cbn [score].
      pose proof (proj2 (isStraight_values _ _ Hs)). lia.
    + destruct flushCards as [|c t]; [discriminate|].
      intros H; simplify_eq. exists 6, (value c). simpl. pose proof (value_range c). lia.
  - cbv zeta.
    set (quads := List.filter _ (keys allCards)).
    set (trips := List.filter (fun k => counts allCards k =? 3) (keys allCards)).
    set (pairs := List.filter (fun k => counts allCards k =? 2) (keys allCards)).
    destruct quads as [|q qs].
    2:{ intros H; simplify_eq. exists 8, (RANK_VALUE q). cbn [score].
        pose proof (RANK_VALUE_range q). lia. }
    destruct ((0 <? Z.of_nat (length trips)) && _) eqn:Hfull.
    { destruct trips as [|t ts]; [discriminate|].
      intros H; simplify_eq. exists 7, (Math_max (map RANK_VALUE (t :: ts))). cbn [score].
      pose proof (Math_max_ranks t ts). lia. }
    destruct (isStraight allCards) as [h|] eqn:Hs.
    { intros H; simplify_eq. exists 5, h. cbn [score].
      pose proof (proj2 (isStraight_values _ _ Hs)). lia. }
    destruct trips as [|t ts].
    2:{ intros H; simplify_eq. exists 4, (Math_max (map RANK_VALUE (t :: ts))). cbn [score].
        pose proof (Math_max_ranks t ts). lia. }
    destruct (sortJS _ pairs) as [|p [|p' ps]].
    + destruct allCards as [|c t]; [discriminate|].
      intros H; simplify_eq. exists 1, (value c). simpl. pose proof (value_range c). lia.
    + intros H; simplify_eq. exists 2, (RANK_VALUE p). cbn [score].
      pose proof (RANK_VALUE_range p). lia.
    + intros H; simplify_eq. exists 3, (RANK_VALUE p). cbn [score].
      pose proof (RANK_VALUE_range p). lia.
Qed.

Lemma score_is_tier_plus_value_witness :
  exists tier v, 505 = 100 * tier + v /\ 1 <= tier <= 9 /\ 2 <= v <= 14.
Proof.
  exact (score_is_tier_plus_value wheelHole wheelBoard (mkResult 505 "Straight")
           ltac:(vm_compute; reflexivity)).
Defined.

(** X5. [evaluateHand] throws on the empty input and on no other: with
    at least one card it always returns a score. *)
Theorem evaluateHand_throws_only_on_empty (hole board : list Card) :
  evaluateHand hole board = None <-> hole ++ board = [].
Proof.
  split.
  - intros Hnone. destruct (hole ++ board) as [|c t] eqn:Hcards; [reflexivity|].
    destruct (ShowdownProps.evaluateHand_returns hole board) as [e He];
      [rewrite Hcards; discriminate|congruence].
  - intros Hnil. apply app_eq_nil in Hnil as [-> ->]. reflexivity.
Qed.

(** *** Four of a kind *)

Lemma two_ranks_fit (l : list Card) (r r' : Rank) :
  r <> r' -> counts l r + counts l r' <= Z.of_nat (length l).
Proof.
  intros Hne. unfold counts.
  pose proof (filter_length_split (fun c : Card => rank_eqb (rank c) r) l) as H1.
  pose proof (filter_length_split (fun c : Card => rank_eqb (rank c) r')
                (List.filter (fun c : Card => negb (rank_eqb (rank c) r)) l)) as H2.
  rewrite (filter_other_rank l r r' Hne) in H2. lia.
Qed.

(** X6. Seven distinct cards that hold the four cards of rank [r] are
    scored 800 plus the value of [r] and named after [r]: no flush can hide
    the four of a kind, and no other rank can take its place. *)
Theorem four_of_a_kind_exact (hole board : list Card) (r : Rank) :
  NoDup (hole ++ board) -> length (hole ++ board) = 7%nat ->
  4 <= counts (hole ++ board) r ->
  evaluateHand hole board
  = Some (mkResult (800 + RANK_VALUE r) ("Four of a Kind (" +:+ rankStr r +:+ "s)")).
Proof.
  intros Hnd Hlen Hfour. unfold evaluateHand.
  pose proof (sortJS_perm (fun a b => value b - value a) (hole ++ board)) as Hperm.
  set (allCards := sortJS _ (hole ++ board)) in *.
  assert (Hnd' : NoDup allCards) by (rewrite Hperm; exact Hnd).
  assert (Hlen' : length allCards = 7%nat) by (rewrite (Permutation_length Hperm); exact Hlen).
  assert (Hfour' : counts allCards r = 4).
  { pose proof (at_most_four_of_a_rank allCards r Hnd') as Hle.
    rewrite <- (counts_perm _ _ r Hperm) in Hfour. lia. }
  rewrite isFlush_none.
  2:{ intros s. pose proof (suit_bound_one_rank allCards r s Hnd') as Hb.
      unfold counts in Hfour'. lia. }
  cbv zeta.
  destruct (List.filter (fun k => counts allCards k =? 4) (keys allCards)) as [|q t] eqn:Hq.
  - exfalso. assert (Hin : In r (List.filter (fun k => counts allCards k =? 4) (keys allCards))).
    { apply filter_In. split; [apply keys_In; lia|apply Z.eqb_eq; exact Hfour']. }
    rewrite Hq in Hin. contradiction.
  - assert (Hin : In q (List.filter (fun k => counts allCards k =? 4) (keys allCards)))
      by (rewrite Hq; left; reflexivity).
    apply filter_In in Hin as [_ Hq4]. apply Z.eqb_eq in Hq4.
    destruct (decide (r = q)) as [<-|Hne]; [reflexivity|].
    pose proof (two_ranks_fit allCards r q Hne). lia.
Qed.

Lemma four_of_a_kind_exact_witness :
  evaluateHand quadTwosHole quadTwosBoard
  = Some (mkResult (800 + RANK_VALUE R2) ("Four of a Kind (" +:+ rankStr R2 +:+ "s)")).
Proof.
  apply four_of_a_kind_exact.
  - apply (bool_decide_unpack _). vm_compute. exact I.
  - reflexivity.
  - vm_compute. intros H. discriminate H.
Defined.

End EvaluatorMore.

(** ** One action: what it may and may not change *)

Module ActionMore.
Import EngineNotions EngineLemmas Samples.

(** X8. The handler always comes back: the cycle [checkRoundEnd ->
    nextStreet -> nextTurn -> checkRoundEnd] never nests more than twice,
    so from a recursion budget of 2 on the handler returns or throws, and
    what it returns does not depend on the budget. *)
Theorem action_handler_terminates (n : nat) (room : Room) (i : nat) (data : ActionData) :
  handlePlayerAction (2 + n) room i data = handlePlayerAction 2 room i data
  /\ handlePlayerAction 2 room i data <> OutOfFuel
  /\ checkRoundEnd (2 + n) room = checkRoundEnd 2 room
  /\ checkRoundEnd 2 room <> OutOfFuel.
Proof.
  destruct (handlePlayerAction_fuel n room i data) as [H1 H2].
  destruct (checkRoundEnd_fuel n room) as [H3 H4]. auto.
Qed.

(** *** The other players *)

Lemma keptButFlag_refl (q : Player) : keptButFlag q q.
Proof. exists (actedInRound q). destruct q. reflexivity. Qed.

Lemma keptButFlag_trans (q1 q2 q3 : Player) :
  keptButFlag q1 q2 -> keptButFlag q2 q3 -> keptButFlag q1 q3.
Proof. intros [b ->] [b' ->]. exists b'. reflexivity. Qed.

Lemma lookup_map (g : Player -> Player) (ps : list Player) (j : nat) :
  map g ps !! j = g <$> ps !! j.
Proof. revert j. induction ps as [|q ps IH]; intros [|j]; simpl; auto. Qed.

Lemma reopen_other (player : Player) (room : Room) (j : nat) (q : Player) :
  players room !! j = Some q ->
  exists q', players (reopenBetting player room) !! j = Some q' /\ keptButFlag q q'.
Proof.
  intros Hq. unfold reopenBetting. cbn [players setPlayers]. rewrite lookup_map, Hq. simpl.
  destruct (_ && _); eexists; (split; [reflexivity|]);
    [exists false; reflexivity|apply keptButFlag_refl].
Qed.

(** X9. An action touches the actor only: every other player keeps
    chips, bet, status, cards, seat and id (at most the [actedInRound] flag
    is cleared, by a raise), nobody joins or leaves, and the pot, the
    board, the deck, the street and the game status stay as they were;
    the actor ends with [actedInRound] set. *)
Theorem action_touches_actor_only (room : Room) (i : nat) (player : Player)
    (data : ActionData) :
  players room !! i = Some player ->
  let r' := applyAction room i player data in
  (forall j q, j <> i -> players room !! j = Some q ->
     exists q', players r' !! j = Some q' /\ keptButFlag q q')
  /\ (exists p', players r' !! i = Some p' /\ actedInRound p' = true
                 /\ id p' = id player /\ seatIndex p' = seatIndex player
                 /\ hand p' = hand player)
  /\ length (players r') = length (players room)
  /\ pot r' = pot room /\ communityCards r' = communityCards room
  /\ deck r' = deck room /\ roundName r' = roundName room
  /\ gameStatus r' = gameStatus room.
Proof.
  intros Hp r'. subst r'. unfold applyAction.
  set (r1 := match action data with AFold => _ | _ => _ end).
  assert (H1 : (forall j q, j <> i -> players room !! j = Some q ->
                  exists q', players r1 !! j = Some q' /\ keptButFlag q q')
               /\ (exists p1, players r1 !! i = Some p1 /\ id p1 = id player
                              /\ seatIndex p1 = seatIndex player /\ hand p1 = hand player)
               /\ length (players r1) = length (players room)
               /\ pot r1 = pot room /\ communityCards r1 = communityCards room
               /\ deck r1 = deck room /\ roundName r1 = roundName room
               /\ gameStatus r1 = gameStatus room).
  { assert (Hupd : forall f : Player -> Player,
              id (f player) = id player -> seatIndex (f player) = seatIndex player ->
              hand (f player) = hand player ->
              (forall j q, j <> i -> players room !! j = Some q ->
                 exists q', players (updPlayer i f room) !! j = Some q' /\ keptButFlag q q')
              /\ (exists p1, players (updPlayer i f room) !! i = Some p1 /\ id p1 = id player
                             /\ seatIndex p1 = seatIndex player /\ hand p1 = hand player)
              /\ length (players (updPlayer i f room)) = length (players room)).
    { intros f Hid Hseat Hhand. cbn [updPlayer players setPlayers]. split; [|split].
      - intros j q Hj Hq. exists q. rewrite list_lookup_alter_ne by congruence.
        split; [exact Hq|apply keptButFlag_refl].
      - exists (f player). rewrite list_lookup_alter_eq, Hp. auto.
      - apply length_alter. }
    assert (Hre : forall f : Player -> Player, forall wrap : Room -> Room,
              id (f player) = id player -> seatIndex (f player) = seatIndex player ->
              hand (f player) = hand player ->
              (forall r, players (wrap r) = players r) ->
              (forall j q, j <> i -> players room !! j = Some q ->
                 exists q', players (reopenBetting player (wrap (updPlayer i f room))) !! j
                            = Some q' /\ keptButFlag q q')
              /\ (exists p1, players (reopenBetting player (wrap (updPlayer i f room))) !! i
                             = Some p1 /\ id p1 = id player
                             /\ seatIndex p1 = seatIndex player /\ hand p1 = hand player)
              /\ length (players (reopenBetting player (wrap (updPlayer i f room))))
                 = length (players room)).
    { intros f wrap Hid Hseat Hhand Hwrap.
      destruct (Hupd f Hid Hseat Hhand) as (Ho & (p1 & Hp1 & Hi1 & Hs1 & Hh1) & Hl).
      split; [|split].
      - intros j q Hj Hq. destruct (Ho j q Hj Hq) as (q1 & Hq1 & Hk1).
        rewrite <- Hwrap in Hq1.
        destruct (reopen_other player _ j q1 Hq1) as (q2 & Hq2 & Hk2).
        exists q2. split; [exact Hq2|]. eapply keptButFlag_trans; eassumption.
      - rewrite <- Hwrap in Hp1.
        destruct (reopen_other player _ i p1 Hp1) as (q2 & Hq2 & [b ->]).
        exists (setActedInRound b p1). split; [exact Hq2|]. auto.
      - cbn [reopenBetting players setPlayers]. rewrite length_map, Hwrap. exact Hl. }
    subst r1. destruct (action data).
    - destruct (Hupd (setStatus SFolded)) as (? & ? & ?); auto 10.
    - destruct (0 <? _).
      + destruct (Hupd (setStatus SFolded)) as (? & ? & ?); auto 10.
      + repeat split; eauto using keptButFlag_refl.
    - match goal with |- context [updPlayer i ?f room] =>
        destruct (Hupd f) as (? & ? & ?) end;
        [destruct (_ =? 0); reflexivity..|auto 10].
    - destruct (chips player <? _).
      + destruct (_ <? _);
          match goal with |- context [reopenBetting player (?w1 (?w2 (updPlayer i ?f room)))] =>
                            destruct (Hre f (fun r => w1 (w2 r))) as (? & ? & ?)
                     | |- context [reopenBetting player (updPlayer i ?f room)] =>
                            destruct (Hre f (fun r => r)) as (? & ? & ?)
          end; auto 10.
      + destruct (0 <? _);
          match goal with |- context [reopenBetting player (?w1 (?w2 (updPlayer i ?f room)))] =>
                            destruct (Hre f (fun r => w1 (w2 r))) as (? & ? & ?)
                     | |- context [reopenBetting player (?w1 (updPlayer i ?f room))] =>
                            destruct (Hre f (fun r => w1 r)) as (? & ? & ?)
          end; auto 10.
    - destruct (chips player <? _).
      + destruct (_ <? _);
          match goal with |- context [reopenBetting player (?w1 (?w2 (updPlayer i ?f room)))] =>
                            destruct (Hre f (fun r => w1 (w2 r))) as (? & ? & ?)
                     | |- context [reopenBetting player (updPlayer i ?f room)] =>
                            destruct (Hre f (fun r => r)) as (? & ? & ?)
          end; auto 10.
      + destruct (0 <? _);
          match goal with |- context [reopenBetting player (?w1 (?w2 (updPlayer i ?f room)))] =>
                            destruct (Hre f (fun r => w1 (w2 r))) as (? & ? & ?)
                     | |- context [reopenBetting player (?w1 (updPlayer i ?f room))] =>
                            destruct (Hre f (fun r => w1 r)) as (? & ? & ?)
          end; auto 10.
    - destruct (_ <? _).
      + match goal with |- context [reopenBetting player (?w1 (?w2 (updPlayer i ?f room)))] =>
          destruct (Hre f (fun r => w1 (w2 r))) as (? & ? & ?) end; auto 10.
      + match goal with |- context [updPlayer i ?f room] =>
          destruct (Hupd f) as (? & ? & ?) end; auto 10.
    - repeat split; eauto using keptButFlag_refl. }
  destruct H1 as (Ho & (p1 & Hp1 & Hi1 & Hs1 & Hh1) & Hl & Hpot & Hcc & Hd & Hrn & Hgs).
  cbn [updPlayer players setPlayers pot communityCards deck roundName gameStatus].
  split; [|split; [|split]].
  - intros j q Hj Hq. destruct (Ho j q Hj Hq) as (q1 & Hq1 & Hk).
    exists q1. rewrite list_lookup_alter_ne by congruence. auto.
  - exists (setActedInRound true p1). rewrite list_lookup_alter_eq, Hp1. auto.
  - rewrite length_alter. exact Hl.
  - auto.
Qed.

Lemma action_touches_actor_only_witness :
  exists q', players (applyAction preflop3 1 bobUnderTheGun (raiseTo 10)) !! 0%nat = Some q'
             /\ keptButFlag annOnBigBlind q'.
Proof.
  assert (Hbob : players preflop3 !! 1%nat = Some bobUnderTheGun) by (vm_compute; reflexivity).
  apply (proj1 (action_touches_actor_only preflop3 1 bobUnderTheGun (raiseTo 10) Hbob));
    [lia|vm_compute; reflexivity].
Defined.

(** *** The actor *)

Lemma actor_after (room : Room) (i : nat) (player p1 : Player) (wrap : Room -> Room) :
  players room !! i = Some player ->
  (forall r, players (wrap r) = players r) ->
  id p1 = id player ->
  players (updPlayer i (setActedInRound true)
             (reopenBetting player (wrap (updPlayer i (fun _ => p1) room)))) !! i
  = Some (setActedInRound true p1).
Proof.
  intros Hp Hwrap Hid. cbn [updPlayer reopenBetting players setPlayers].
  rewrite list_lookup_alter_eq. rewrite lookup_map. rewrite Hwrap.
  cbn [updPlayer players setPlayers].
  rewrite list_lookup_alter_eq. rewrite Hp. cbn [fmap option_fmap option_map].
  rewrite Hid, String.eqb_refl, andb_false_r. reflexivity.
Qed.

(** X10. A call pays [min(chips, toCall)], [toCall] being the highest
    bet less the caller's bet: that amount leaves the stack and is added
    to the caller's bet, the caller is marked all-in exactly when the
    stack is then 0 and keeps the status otherwise, and the highest bet
    does not move. So a caller with a non-negative stack who has not bet
    more than the highest bet never goes below zero, and afterwards
    either matches the highest bet or is all-in with no chips. *)
Theorem call_matches_or_all_in (room : Room) (i : nat) (player : Player) (amt : option Z) :
  players room !! i = Some player ->
  0 <= chips player -> currentBet player <= highestBet room ->
  let r' := applyAction room i player (mkData ACall amt) in
  let paid := Z.min (chips player) (highestBet room - currentBet player) in
  highestBet r' = highestBet room
  /\ exists p', players r' !! i = Some p'
       /\ chips p' = chips player - paid
       /\ currentBet p' = currentBet player + paid
       /\ (chips p' = 0 -> status p' = SAllIn)
       /\ (chips p' <> 0 -> status p' = status player)
       /\ 0 <= chips p'
       /\ (currentBet p' = highestBet room \/ (chips p' = 0 /\ status p' = SAllIn)).
Proof.
  intros Hp Hchips Hbet r' paid. subst r' paid. unfold applyAction. cbn [action].
  split; [reflexivity|].
  cbn [updPlayer players setPlayers]. rewrite !list_lookup_alter_eq, Hp.
  cbn [fmap option_fmap option_map].
  eexists. split; [reflexivity|]. cbn [chips currentBet setChips setCurrentBet setActedInRound].
  destruct (Z.eqb_spec (chips player - Z.min (chips player) (highestBet room - currentBet player)) 0)
    as [Hz|Hz]; cbn [chips currentBet status setStatus setChips setCurrentBet setActedInRound].
  - split; [reflexivity|]. split; [reflexivity|]. split; [reflexivity|].
    split; [intros Hne; contradiction|]. split; [lia|]. right. split; [exact Hz|reflexivity].
  - split; [reflexivity|]. split; [reflexivity|]. split; [intros Hzero; contradiction|].
    split; [reflexivity|]. split; [lia|]. left. lia.
Qed.

Lemma call_matches_or_all_in_witness :
  exists p', players (applyAction preflop3 1 bobUnderTheGun call_) !! 1%nat = Some p'
             /\ chips p' = 200 - Z.min 200 (2 - 0) /\ currentBet p' = 0 + Z.min 200 (2 - 0).
Proof.
  assert (Hbob : players preflop3 !! 1%nat = Some bobUnderTheGun) by (vm_compute; reflexivity).
  destruct (call_matches_or_all_in preflop3 1 bobUnderTheGun None Hbob)
    as (_ & p' & Hp' & Hc & Hb & _); [vm_compute; discriminate|vm_compute; discriminate|].
  exists p'. split; [exact Hp'|]. split; [exact Hc|exact Hb].
Defined.

(** X11. A bet or raise to exactly the player's whole stack
    ([amount = chips + currentBet]) empties the stack but does not mark the
    player all-in, and it makes that total the table's highest bet even
    when it is below the highest bet so far; the [all-in] action from the
    same state marks the player all-in and never lowers the highest bet. *)
Theorem raise_of_whole_stack (room : Room) (i : nat) (player : Player) :
  players room !! i = Some player ->
  0 < chips player ->
  let total := chips player + currentBet player in
  (let r' := applyAction room i player (mkData ARaise (Some total)) in
   highestBet r' = total
   /\ players r' !! i
      = Some (setActedInRound true (setCurrentBet total (setChips 0 player))))
  /\
  (let r' := applyAction room i player (mkData AAllIn None) in
   highestBet r' = Z.max (highestBet room) total
   /\ players r' !! i
      = Some (setActedInRound true (setStatus SAllIn (setCurrentBet total (setChips 0 player))))).
Proof.
  intros Hp Hchips total. split.
  - cbv zeta. unfold applyAction. cbn [action amount].
    replace ((total <? highestBet room + lastRaiseOrBB room)
             && (total <? chips player + currentBet player)) with false
      by (subst total; rewrite Z.ltb_irrefl, andb_false_r; reflexivity).
    replace (chips player <? total - currentBet player) with false
      by (symmetry; apply Z.ltb_ge; subst total; lia).
    cbn [currentBet setCurrentBet setChips].
    replace (currentBet player + (total - currentBet player)) with total by lia.
    replace (chips player - (total - currentBet player)) with 0 by (subst total; lia).
    split.
    + destruct (0 <? _); reflexivity.
    + destruct (0 <? total - highestBet _).
      * apply (actor_after room i player _
                 (fun r => setHighestBet total (setLastRaiseAmount _ r)) Hp);
          [reflexivity|reflexivity].
      * apply (actor_after room i player _ (fun r => setHighestBet total r) Hp);
          [reflexivity|reflexivity].
  - cbv zeta. unfold applyAction. cbn [action]. fold total.
    cbn [highestBet updPlayer setPlayers].
    destruct (Z.ltb_spec (highestBet room) total) as [Hlt|Hge].
    + split; [cbn; lia|].
      apply (actor_after room i player _
               (fun r => setHighestBet total (setLastRaiseAmount _ r)) Hp);
        [reflexivity|reflexivity].
    + split; [cbn; lia|]. cbn [updPlayer players setPlayers].
      rewrite !list_lookup_alter_eq, Hp. reflexivity.
Qed.

Lemma raise_of_whole_stack_witness :
  highestBet (applyAction preflop3 1 bobUnderTheGun (raiseTo 200)) = 200
  /\ status <$> players (applyAction preflop3 1 bobUnderTheGun (raiseTo 200)) !! 1%nat
     = Some SActive.
Proof.
  assert (Hbob : players preflop3 !! 1%nat = Some bobUnderTheGun) by (vm_compute; reflexivity).
  destruct (proj1 (raise_of_whole_stack preflop3 1 bobUnderTheGun Hbob ltac:(vm_compute; reflexivity)))
    as [Hh Hp'].
  split; [exact Hh|]. unfold raiseTo.
  change 200 with (chips bobUnderTheGun + currentBet bobUnderTheGun).
  rewrite Hp'. reflexivity.
Defined.

End ActionMore.

(** ** The closure of an action: invariants *)

Module ClosureMore.
Import EngineNotions EngineLemmas Samples.

Lemma pushCard_bets (room : Room) :
  highestBet (pushCard room) = highestBet room
  /\ lastRaiseAmount (pushCard room) = lastRaiseAmount room.
Proof. unfold pushCard. destruct (deal (deck room)). simpl. auto. Qed.

Lemma dealStreet_bets (room : Room) :
  lastRaiseAmount (dealStreet room) = lastRaiseAmount room.
Proof.
  unfold dealStreet. destruct (roundName room); auto.
  unfold deal, pop. simpl. destruct (last (deck room)); simpl; auto.
Qed.

Lemma autoRun_bets (room : Room) :
  highestBet (autoRun room) = highestBet room
  /\ lastRaiseAmount (autoRun room) = lastRaiseAmount room.
Proof.
  unfold autoRun. generalize (5 - length (communityCards room))%nat as k.
  induction k as [|k [IH1 IH2]]; simpl; [auto|].
  rewrite <- IH1, <- IH2. apply pushCard_bets.
Qed.

(** As [ClosureKeeps], for relations that also look at the highest bet and
    at the last raise. *)
Section ClosureKeepsBets.
Variable R : Room -> Room -> Prop.
Hypothesis R_refl : forall r, R r r.
Hypothesis R_trans : forall r1 r2 r3, R r1 r2 -> R r2 r3 -> R r1 r3.
Hypothesis R_frame : forall r r',
  players r' = players r -> pot r' = pot r -> gameStatus r' = gameStatus r ->
  highestBet r' = highestBet r -> lastRaiseAmount r' = lastRaiseAmount r -> R r r'.
Hypothesis R_sweep : forall r, R r (sweepBets r).
Hypothesis R_endHand : forall r r', endHand r = Ret r' -> R r r'.

Lemma nextTurn_with_keeps_bets (g : Room -> Res (Room * bool)) :
  (forall r r' b, g r = Ret (r', b) -> R r r') ->
  forall r r', nextTurn_with g r = Ret r' -> R r r'.
Proof.
  intros Hg r r'. unfold nextTurn_with.
  destruct (negb _); [intros H; simplify_eq; apply R_refl|].
  destruct (scanSeats _ _ _) as [[idx p]|].
  - intros H; simplify_eq. apply R_frame; reflexivity.
  - destruct (g (clearTimeout r)) as [[r3 b]| |] eqn:Hcall; simpl; try discriminate.
    intros H; simplify_eq. apply (R_trans _ (clearTimeout r)); [apply R_frame; reflexivity|].
    apply (Hg _ _ _ Hcall).
Qed.

Lemma nextStreet_with_keeps_bets (nt : Room -> Res Room) :
  (forall r r', nt r = Ret r' -> R r r') ->
  forall r r', nextStreet_with nt r = Ret r' -> R r r'.
Proof.
  intros Hnt r r'. unfold nextStreet_with.
  destruct (bool_decide _).
  { intros H. apply (R_trans _ (sweepBets r)); [apply R_sweep|apply R_endHand, H]. }
  set (r2 := setCurrentTurnIndex _ _).
  assert (H2 : R r r2).
  { apply (R_trans _ (sweepBets r)); [apply R_sweep|].
    destruct (dealStreet_frame (sweepBets r)) as (Hps & Hpot & Hgs & Hhb).
    apply R_frame; try assumption. apply dealStreet_bets. }
  destruct (_ <? 2).
  - intros H. apply (R_trans _ r2); [exact H2|].
    apply (R_trans _ (autoRun r2)); [|apply R_endHand, H].
    destruct (autoRun_frame r2) as (Hps & Hpot & Hgs).
    destruct (autoRun_bets r2) as (Hhb & Hlr). apply R_frame; assumption.
  - intros H. apply (R_trans _ r2); [exact H2|]. apply (Hnt _ _ H).
Qed.

Lemma checkRoundEnd_keeps_bets (fuel : nat) (r r' : Room) (b : bool) :
  checkRoundEnd fuel r = Ret (r', b) -> R r r'.
Proof.
  revert r r' b. induction fuel as [|fuel IH]; intros r r' b; [discriminate|].
  rewrite checkRoundEnd_S.
  destruct (negb _); [intros H; simplify_eq; apply R_refl|].
  destruct (_ =? 1).
  { destruct (endHand r) as [r1| |] eqn:He; simpl; try discriminate.
    intros H; simplify_eq. apply R_endHand, He. }
  destruct (negb (pendingAction r)); [|intros H; simplify_eq; apply R_refl].
  destruct (nextStreet fuel r) as [r1| |] eqn:Hs; simpl; try discriminate.
  intros H; simplify_eq.
  apply (nextStreet_with_keeps_bets (nextTurn fuel)); [|exact Hs].
  apply nextTurn_with_keeps_bets. exact IH.
Qed.

Lemma closure_keeps_bets (fuel : nat) (r1 r' : Room) :
  ('(room, roundClosed) ← checkRoundEnd fuel r1;
   if (roundClosed : bool) then Ret room else nextTurn fuel room) = Ret r' ->
  R r1 r'.
Proof.
  destruct (checkRoundEnd fuel r1) as [[r2 closed]| |] eqn:Hc; try discriminate.
  cbn [mbind Res_bind]. destruct closed.
  - intros H; simplify_eq. apply (checkRoundEnd_keeps_bets _ _ _ _ Hc).
  - intros H. apply (R_trans _ r2); [apply (checkRoundEnd_keeps_bets _ _ _ _ Hc)|].
    apply (nextTurn_with_keeps_bets (checkRoundEnd fuel)); [|exact H].
    intros ra rb b. apply checkRoundEnd_keeps_bets.
Qed.
End ClosureKeepsBets.

(** *** Nothing goes negative *)

Lemma Forall_map_players (P : Player -> Prop) (g : Player -> Player) (ps : list Player) :
  (forall p, P p -> P (g p)) -> Forall P ps -> Forall P (map g ps).
Proof. intros Hg. induction 1; simpl; constructor; auto. Qed.

Lemma sumOf_nonneg (f : Player -> Z) (ps : list Player) :
  Forall (fun p => 0 <= f p) ps -> 0 <= sumOf f ps.
Proof. induction 1; simpl; lia. Qed.

Lemma sane_sweepBets (r : Room) : sane r -> sane (sweepBets r).
Proof.
  intros (Hps & Hpot & Hhb & Hlr). unfold sane, sweepBets.
  cbn [players pot highestBet lastRaiseAmount setPlayers setPot setHighestBet
       setLastRaiseAmount].
  split; [|split; [|split]]; [| |lia|unfold BIG_BLIND; lia].
  - apply Forall_map_players; [|exact Hps]. intros p [Hc _]. simpl. lia.
  - rewrite fold_left_bets.
    assert (0 <= sumOf currentBet (players r)); [|lia].
    apply sumOf_nonneg. eapply Forall_impl; [exact Hps|]. intros p [_ Hb]. exact Hb.
Qed.

Lemma sane_payWinners (splitAmount : Z) (ws : list (nat * Z)) (ps : list Player) :
  0 <= splitAmount ->
  Forall (fun p => 0 <= chips p /\ 0 <= currentBet p) ps ->
  Forall (fun p => 0 <= chips p /\ 0 <= currentBet p) (payWinners splitAmount ws ps).
Proof.
  intros Hs. unfold payWinners. revert ps. induction ws as [|w ws IH]; intros ps Hps; simpl;
    [exact Hps|].
  apply IH. apply Forall_alter; [exact Hps|]. intros p _ [Hc Hb]. simpl. lia.
Qed.

Lemma div_nonneg (a b : Z) : 0 <= a -> 0 <= b -> 0 <= a `div` b.
Proof.
  intros Ha Hb. destruct (Z.eq_dec b 0) as [->|Hne]; [rewrite Z.div_0_r; lia|].
  apply Z.div_pos; lia.
Qed.

Lemma sane_endHand (r r' : Room) : endHand r = Ret r' -> sane r -> sane r'.
Proof.
  intros He (Hps & Hpot & Hhb & Hlr). revert He.
  destruct (endHand_cases r) as [(w & _ & ->)|[_ ->]].
  - intros H; simplify_eq. unfold sane. cbn. split; [|auto].
    apply Forall_alter; [exact Hps|]. intros p _ [Hc Hb]. simpl. lia.
  - destruct (scoreAll _ _ _); unfold mbind, Res_bind; try discriminate.
    cbv zeta. intros H; injection H as <-. unfold sane. cbn [players pot highestBet lastRaiseAmount
        setPlayers clearTimeout setTurnTimer setGameStatus].
    split; [|auto]. apply sane_payWinners; [|exact Hps].
    apply div_nonneg; [exact Hpot|lia].
Qed.

Lemma sane_players_alter (f : Player -> Player) (i : nat) (ps : list Player) :
  (forall p, ps !! i = Some p -> 0 <= chips p /\ 0 <= currentBet p ->
             0 <= chips (f p) /\ 0 <= currentBet (f p)) ->
  Forall (fun p => 0 <= chips p /\ 0 <= currentBet p) ps ->
  Forall (fun p => 0 <= chips p /\ 0 <= currentBet p) (alter f i ps).
Proof. intros Hf Hps. apply Forall_alter; [exact Hps|exact Hf]. Qed.

Lemma sane_players_reopen (player : Player) (ps : list Player) :
  Forall (fun p => 0 <= chips p /\ 0 <= currentBet p) ps ->
  Forall (fun p => 0 <= chips p /\ 0 <= currentBet p)
    (map (fun p => if hasStatus SActive p && negb (String.eqb (id p) (id player))
                   then setActedInRound false p else p) ps).
Proof.
  apply Forall_map_players. intros p Hp. destruct (_ && _); exact Hp.
Qed.

Lemma sane_applyAction (room : Room) (i : nat) (player : Player) (data : ActionData) :
  players room !! i = Some player -> sane room -> sane (applyAction room i player data).
Proof.
  intros Hp (Hps & Hpot & Hhb & Hlr).
  assert (Hpl : 0 <= chips player /\ 0 <= currentBet player).
  { rewrite Forall_forall in Hps. apply Hps. eapply list_elem_of_lookup_2, Hp. }
  assert (Hlast : 0 <= lastRaiseOrBB room).
  { unfold lastRaiseOrBB, BIG_BLIND. destruct (_ =? 0); lia. }
  destruct Hpl as [Hc Hb].
  unfold applyAction, reopenBetting, updPlayer, BIG_BLIND.
  set (minTotal := highestBet room + lastRaiseOrBB room).
  destruct (action data).
  - split; [|auto]. cbn. repeat (apply sane_players_alter; [intros p _ Hq; exact Hq|]). exact Hps.
  - destruct (0 <? _); (split; [|auto]); cbn;
      repeat (apply sane_players_alter; [intros p _ Hq; exact Hq|]); exact Hps.
  - split; [|auto]. cbn [players setPlayers].
    apply sane_players_alter; [intros p _ Hq; exact Hq|].
    apply sane_players_alter; [|exact Hps]. intros _ _ _.
    destruct (_ =? 0); cbn; lia.
  - set (requested := match amount data with Some a => a | None => highestBet room + 2 end).
    set (raiseTotal := if (requested <? minTotal) && (requested <? chips player + currentBet player)
                       then minTotal else requested).
    assert (Hrt : minTotal <= raiseTotal \/ chips player + currentBet player <= raiseTotal).
    { subst raiseTotal. destruct (Z.ltb_spec requested minTotal);
        destruct (Z.ltb_spec requested (chips player + currentBet player)); simpl; lia. }
    destruct (Z.ltb_spec (chips player) (raiseTotal - currentBet player)) as [Hlt|Hge].
    + cbn [highestBet setPlayers].
      destruct (Z.ltb_spec (highestBet room) (chips player + currentBet player));
        (split; [|cbn; repeat split; lia]); cbn [players setPlayers setHighestBet
          setLastRaiseAmount];
        (apply sane_players_alter; [intros p _ Hq; exact Hq|]);
        apply sane_players_reopen;
        (apply sane_players_alter; [intros _ _ _; cbn; lia|exact Hps]).
    + cbn [currentBet setCurrentBet setChips highestBet setPlayers].
      destruct (0 <? _) eqn:Hdiff;
        (split; [|cbn; rewrite ?Z.ltb_lt in *; repeat split; lia]);
        cbn [players setPlayers setHighestBet setLastRaiseAmount];
        (apply sane_players_alter; [intros p _ Hq; exact Hq|]);
        apply sane_players_reopen;
        (apply sane_players_alter; [intros _ _ _; cbn; lia|exact Hps]).
  - set (requested := match amount data with Some a => a | None => highestBet room + 2 end).
    set (raiseTotal := if (requested <? minTotal) && (requested <? chips player + currentBet player)
                       then minTotal else requested).
    assert (Hrt : minTotal <= raiseTotal \/ chips player + currentBet player <= raiseTotal).
    { subst raiseTotal. destruct (Z.ltb_spec requested minTotal);
        destruct (Z.ltb_spec requested (chips player + currentBet player)); simpl; lia. }
    destruct (Z.ltb_spec (chips player) (raiseTotal - currentBet player)) as [Hlt|Hge].
    + cbn [highestBet setPlayers].
      destruct (Z.ltb_spec (highestBet room) (chips player + currentBet player));
        (split; [|cbn; repeat split; lia]); cbn [players setPlayers setHighestBet
          setLastRaiseAmount];
        (apply sane_players_alter; [intros p _ Hq; exact Hq|]);
        apply sane_players_reopen;
        (apply sane_players_alter; [intros _ _ _; cbn; lia|exact Hps]).
    + cbn [currentBet setCurrentBet setChips highestBet setPlayers].
      destruct (0 <? _) eqn:Hdiff;
        (split; [|cbn; rewrite ?Z.ltb_lt in *; repeat split; lia]);
        cbn [players setPlayers setHighestBet setLastRaiseAmount];
        (apply sane_players_alter; [intros p _ Hq; exact Hq|]);
        apply sane_players_reopen;
        (apply sane_players_alter; [intros _ _ _; cbn; lia|exact Hps]).
  - cbn [highestBet setPlayers].
    destruct (Z.ltb_spec (highestBet room) (chips player + currentBet player)).
    + split; [|cbn; repeat split; lia]. cbn [players setPlayers setHighestBet setLastRaiseAmount].
      apply sane_players_alter; [intros p _ Hq; exact Hq|].
      apply sane_players_reopen.
      apply sane_players_alter; [intros _ _ _; cbn; lia|exact Hps].
    + split; [|auto]. cbn [players setPlayers].
      apply sane_players_alter; [intros p _ Hq; exact Hq|].
      apply sane_players_alter; [intros _ _ _; cbn; lia|exact Hps].
  - split; [|auto]. cbn. apply sane_players_alter; [intros p _ Hq; exact Hq|]. exact Hps.
Qed.

(** X12. No chip count ever goes negative: if every stack and bet, the
    pot, the highest bet and the last raise are non-negative, they still
    are after any action the handler returns from, whatever the action
    and the requested amount, through street changes and showdown. *)
Theorem chips_never_negative (n : nat) (room : Room) (i : nat) (data : ActionData)
    (r' : Room) :
  sane room -> handlePlayerAction (2 + n) room i data = Ret r' -> sane r'.
Proof.
  intros Hsane. unfold handlePlayerAction.
  destruct (negb _); [intros H; simplify_eq; exact Hsane|].
  destruct (players room !! i) as [player|] eqn:Hp; [|discriminate].
  destruct (negb _); [intros H; simplify_eq; exact Hsane|].
  intros Hrun.
  apply (closure_keeps_bets (fun r r' => sane r -> sane r')) in Hrun.
  - exact Hrun.
  - auto.
  - auto.
  - intros r1 r2 Hps Hpot _ Hhb Hlr (H1 & H2 & H3 & H4). unfold sane.
    rewrite Hps, Hpot, Hhb, Hlr. auto.
  - apply sane_sweepBets.
  - apply sane_endHand.
  - apply (sane_applyAction (clearTimeout room) i player data Hp Hsane).
Qed.

Lemma chips_never_negative_witness :
  exists r', handlePlayerAction 2 preflop3 1 (raiseTo (-50)) = Ret r' /\ sane r'.
Proof.
  eexists. split; [vm_compute; reflexivity|].
  refine (chips_never_negative 0 preflop3 1 (raiseTo (-50)) _ _ _);
    [|vm_compute; reflexivity].
  vm_compute. split; [|repeat split; discriminate].
  repeat (apply List.Forall_cons; [split; discriminate|]). apply List.Forall_nil.
Defined.

End ClosureMore.

(** ** Turn order: which seat the scan stops on *)

Module TurnMore.
Import Samples TurnSpec TableNotions.

Lemma rem_succ_seat (s : Z) : 0 <= s < 9 -> (s + 1) `rem` 9 = (s + 1) `mod` 9.
Proof. intros Hs. apply Z.rem_mod_nonneg; lia. Qed.

(** The scan tries the seats [start], [start + 1], ... in turn (modulo 9)
    and stops on the first eligible one. *)
Lemma scanSeats_spec (ps : list Player) (n : nat) (start : Z) :
  0 <= start < 9 ->
  match scanSeats ps start n with
  | Some (idx, p) =>
      exists k, (k < n)%nat /\ idx = (start + Z.of_nat k) `mod` 9
                /\ List.find (fun pl => seatIndex pl =? idx) ps = Some p
                /\ seatEligible ps idx = true
                /\ forall j, (j < k)%nat -> seatEligible ps ((start + Z.of_nat j) `mod` 9) = false
  | None => forall j, (j < n)%nat -> seatEligible ps ((start + Z.of_nat j) `mod` 9) = false
  end.
Proof.
  revert start. induction n as [|n IH]; intros start Hs; cbn [scanSeats]; [intros j Hj; lia|].
  assert (Hnext : 0 <= (start + 1) `rem` 9 < 9).
  { rewrite rem_succ_seat by exact Hs. apply Z.mod_pos_bound. lia. }
  assert (Hshift : forall j, ((start + 1) `rem` 9 + Z.of_nat j) `mod` 9
                             = (start + Z.of_nat (S j)) `mod` 9).
  { intros j. rewrite rem_succ_seat by exact Hs. rewrite Zplus_mod_idemp_l. f_equal. lia. }
  assert (Hzero : (start + Z.of_nat 0) `mod` 9 = start).
  { rewrite Z.add_0_r. apply Z.mod_small. exact Hs. }
  assert (Hstep : seatEligible ps start = false ->
    match scanSeats ps ((start + 1) `rem` 9) n with
    | Some (idx, p) =>
        exists k, (k < S n)%nat /\ idx = (start + Z.of_nat k) `mod` 9
                  /\ List.find (fun pl => seatIndex pl =? idx) ps = Some p
                  /\ seatEligible ps idx = true
                  /\ forall j, (j < k)%nat ->
                               seatEligible ps ((start + Z.of_nat j) `mod` 9) = false
    | None => forall j, (j < S n)%nat ->
                        seatEligible ps ((start + Z.of_nat j) `mod` 9) = false
    end).
  { intros Hno. specialize (IH _ Hnext).
    destruct (scanSeats ps ((start + 1) `rem` 9) n) as [[idx p]|].
    - destruct IH as (k & Hk & Hidx & Hfind & Hel & Hmin).
      exists (S k). split; [lia|]. split; [rewrite <- Hshift; exact Hidx|].
      split; [exact Hfind|]. split; [exact Hel|].
      intros [|j] Hj; [rewrite Hzero; exact Hno|]. rewrite <- Hshift. apply Hmin. lia.
    - intros [|j] Hj; [rewrite Hzero; exact Hno|]. rewrite <- Hshift. apply IH. lia. }
  unfold seatEligible in Hstep at 1.
  destruct (List.find (fun pl => seatIndex pl =? start) ps) as [q|] eqn:Hfind;
    [|apply Hstep; reflexivity].
  destruct (hasStatus SActive q && (0 <? chips q)) eqn:Hok; [|apply Hstep; reflexivity].
  exists 0%nat. split; [lia|]. split; [symmetry; exact Hzero|]. split; [exact Hfind|].
  split; [unfold seatEligible; rewrite Hfind; exact Hok|]. intros j Hj. lia.
Qed.

(** X13. In a hand in progress with the turn marker between -1 and 8,
    [nextTurn] hands the turn to the nearest seat after the marker (the
    seats taken modulo 9, the marker's own seat last) whose player is
    active with chips left, and arms the timer for that player; when no
    seat qualifies it defers to the round-closure check. *)
Theorem nextTurn_takes_nearest_seat (g : Room -> Res (Room * bool)) (room : Room) :
  gameStatus room = GPlaying ->
  -1 <= currentTurnIndex room < 9 ->
  (forall k, 1 <= k <= 9 ->
     seatEligible (players room) ((currentTurnIndex room + k) `mod` 9) = true ->
     (forall j, 1 <= j < k ->
        seatEligible (players room) ((currentTurnIndex room + j) `mod` 9) = false) ->
     exists p,
       List.find (fun pl => seatIndex pl =? (currentTurnIndex room + k) `mod` 9) (players room)
       = Some p
       /\ nextTurn_with g room
          = Ret (startTurnTimer
                   (setCurrentTurnIndex ((currentTurnIndex room + k) `mod` 9) (clearTimeout room))
                   p))
  /\ ((forall k, 1 <= k <= 9 ->
         seatEligible (players room) ((currentTurnIndex room + k) `mod` 9) = false) ->
      nextTurn_with g room = ('(r, _) ← g (clearTimeout room); Ret r)).
Proof.
  intros Hplay Hcti.
  assert (Hstart : (currentTurnIndex room + 1) `rem` 9 = (currentTurnIndex room + 1) `mod` 9)
    by (apply Z.rem_mod_nonneg; lia).
  assert (Hrange : 0 <= (currentTurnIndex room + 1) `rem` 9 < 9)
    by (rewrite Hstart; apply Z.mod_pos_bound; lia).
  assert (Hshift : forall j : nat,
            ((currentTurnIndex room + 1) `rem` 9 + Z.of_nat j) `mod` 9
            = (currentTurnIndex room + Z.of_nat (S j)) `mod` 9).
  { intros j. rewrite Hstart, Zplus_mod_idemp_l. f_equal. lia. }
  pose proof (scanSeats_spec (players room) 9 _ Hrange) as Hscan.
  unfold nextTurn_with. rewrite bool_decide_eq_true_2 by exact Hplay. cbn [negb].
  change (players (clearTimeout room)) with (players room).
  change (currentTurnIndex (clearTimeout room)) with (currentTurnIndex room).
  destruct (scanSeats (players room) ((currentTurnIndex room + 1) `rem` 9) 9) as [[idx p]|].
  - destruct Hscan as (k0 & Hk0 & Hidx & Hfind & Hel & Hmin).
    rewrite Hshift in Hidx. split.
    + intros k Hk Helk Hbefore.
      assert (Hkeq : k = Z.of_nat (S k0)).
      { destruct (Z.lt_trichotomy k (Z.of_nat (S k0))) as [Hlt|[Heq|Hgt]]; [|exact Heq|].
        - specialize (Hmin (Z.to_nat (k - 1)) ltac:(lia)). rewrite Hshift in Hmin.
          replace (Z.of_nat (S (Z.to_nat (k - 1)))) with k in Hmin by lia. congruence.
        - specialize (Hbefore (Z.of_nat (S k0)) ltac:(lia)). rewrite <- Hidx in Hbefore.
          congruence. }
      subst k. rewrite <- Hidx. exists p. split; [exact Hfind|reflexivity].
    + intros Hnone. specialize (Hnone (Z.of_nat (S k0)) ltac:(lia)).
      rewrite <- Hidx in Hnone. congruence.
  - split; [|reflexivity].
    intros k Hk Helk _. specialize (Hscan (Z.to_nat (k - 1)) ltac:(lia)).
    rewrite Hshift in Hscan. replace (Z.of_nat (S (Z.to_nat (k - 1)))) with k in Hscan by lia.
    congruence.
Qed.

Lemma nextTurn_takes_nearest_seat_witness :
  exists p,
    List.find (fun pl => seatIndex pl =? 2) (players flopHeadsUp) = Some p
    /\ nextTurn_with (checkRoundEnd 1) flopHeadsUp
       = Ret (startTurnTimer (setCurrentTurnIndex 2 (clearTimeout flopHeadsUp)) p).
Proof.
  refine (proj1 (nextTurn_takes_nearest_seat (checkRoundEnd 1) flopHeadsUp _ _) 2 _ _ _).
  - reflexivity.
  - change (currentTurnIndex flopHeadsUp) with 0. lia.
  - lia.
  - vm_compute. reflexivity.
  - intros j Hj. assert (j = 1) as -> by lia. vm_compute. reflexivity.
Defined.

End TurnMore.

(** ** The end of a hand: how much is paid *)

Module ShowdownMore.
Import JsLemmas EngineNotions EngineLemmas ShowdownProps TableNotions Samples.

Lemma onlyChipsGrew_refl (p : Player) : onlyChipsGrew p p.
Proof. split; [lia|]. destruct p; reflexivity. Qed.

Lemma onlyChipsGrew_trans (p q r : Player) :
  onlyChipsGrew p q -> onlyChipsGrew q r -> onlyChipsGrew p r.
Proof.
  intros [H1 E1] [H2 E2]. split; [lia|]. rewrite E2, E1. reflexivity.
Qed.

Lemma onlyChipsGrew_addChips (s : Z) (p : Player) : 0 <= s -> onlyChipsGrew p (addChips s p).
Proof. intros Hs. split; [simpl; lia|reflexivity]. Qed.

Lemma grew_alter (s : Z) (i : nat) (ps qs : list Player) :
  0 <= s -> Forall2 onlyChipsGrew ps qs ->
  Forall2 onlyChipsGrew ps (alter (addChips s) i qs).
Proof.
  intros Hs H. apply Forall2_alter_r; [exact H|].
  intros p q _ _ Hpq. eapply onlyChipsGrew_trans; [exact Hpq|].
  apply onlyChipsGrew_addChips, Hs.
Qed.

Lemma grew_refl (ps : list Player) : Forall2 onlyChipsGrew ps ps.
Proof. induction ps; constructor; [apply onlyChipsGrew_refl|assumption]. Qed.

Lemma grew_payWinners (s : Z) (ws : list (nat * Z)) (ps qs : list Player) :
  0 <= s -> Forall2 onlyChipsGrew ps qs -> Forall2 onlyChipsGrew ps (payWinners s ws qs).
Proof.
  intros Hs. unfold payWinners. revert qs.
  induction ws as [|w ws IH]; intros qs H; simpl; [exact H|].
  apply IH, grew_alter; assumption.
Qed.

Lemma sumOf_alter_addChips (s : Z) (i : nat) (ps : list Player) :
  (i < length ps)%nat -> sumOf chips (alter (addChips s) i ps) = sumOf chips ps + s.
Proof.
  revert i. induction ps as [|p ps IH]; intros i Hi; simpl in Hi; [lia|].
  destruct i as [|i]; [simpl; lia|].
  change (alter (addChips s) (S i) (p :: ps)) with (p :: alter (addChips s) i ps).
  change (sumOf chips (p :: alter (addChips s) i ps))
    with (chips p + sumOf chips (alter (addChips s) i ps)).
  rewrite IH by lia. simpl. lia.
Qed.

Lemma sumOf_payWinners (s : Z) (ws : list (nat * Z)) (ps : list Player) :
  Forall (fun w => (fst w < length ps)%nat) ws ->
  sumOf chips (payWinners s ws ps) = sumOf chips ps + s * Z.of_nat (length ws).
Proof.
  unfold payWinners. revert ps.
  induction ws as [|w ws IH]; intros ps Hws; simpl fold_left; [simpl; lia|].
  apply Forall_cons in Hws as [Hw Hws].
  rewrite IH.
  - rewrite sumOf_alter_addChips by exact Hw. simpl length. lia.
  - rewrite length_alter. exact Hws.
Qed.

Lemma Forall_filter_keep {A : Type} (P : A -> Prop) (f : A -> bool) (l : list A) :
  Forall P l -> Forall P (List.filter f l).
Proof.
  induction 1 as [|x l Hx _ IH]; simpl; [constructor|].
  destruct (f x); [constructor; assumption|assumption].
Qed.

(** X14. Whenever [endHand] returns on a pot that is not negative, no
    player changed except by a stack that grew, and the pot itself is
    left as it was. With at least one candidate the stacks grew by at
    most the pot in all, and by more than the pot less the number of
    candidates, the rest being what the split rounds away; with no
    candidate nobody is paid and the players are exactly as before. *)
Theorem endHand_pays_within_pot (room r' : Room) :
  0 <= pot room ->
  endHand room = Ret r' ->
  Forall2 onlyChipsGrew (players room) (players r')
  /\ sumOf chips (players r') <= sumOf chips (players room) + pot room
  /\ (refsWhere isCandidate (players room) <> [] ->
      sumOf chips (players room) + pot room
        - Z.of_nat (length (refsWhere isCandidate (players room)))
      < sumOf chips (players r'))
  /\ (refsWhere isCandidate (players room) = [] -> players r' = players room)
  /\ pot r' = pot room.
Proof.
  intros Hpot. destruct (endHand_cases room) as [(w & Hw & ->)|[_ ->]].
  - intros H; injection H as <-. cbn [players pot updPlayer setPlayers clearTimeout setTurnTimer
      setGameStatus].
    assert (Hin : (w < length (players room))%nat).
    { assert (Hmem : w ∈ refsWhere isCandidate (players room))
        by (rewrite Hw; apply list_elem_of_here).
      apply refsWhere_spec in Hmem as (p & Hp & _). eapply lookup_lt_Some, Hp. }
    rewrite sumOf_alter_addChips by exact Hin. rewrite Hw. simpl length.
    split; [apply grew_alter; [exact Hpot|apply grew_refl]|].
    split; [lia|]. split; [intros _; lia|]. split; [discriminate|reflexivity].
  - destruct (scoreAll _ _ _) as [scores| |] eqn:Hscores; cbn [mbind Res_bind];
      try discriminate. cbv zeta.
    pose proof (sortJS_perm (fun a b : nat * Z => snd b - snd a) scores) as Hperm.
    apply scoreAll_spec in Hscores as [Hfst Hall].
    destruct (sortJS _ scores) as [|h t] eqn:Hsort.
    { apply Permutation_nil in Hperm. subst scores. simpl in Hfst.
      intros H; injection H as <-.
      cbn [players pot setPlayers clearTimeout setTurnTimer setGameStatus payWinners
           fold_left].
      split; [apply grew_refl|]. split; [lia|]. split; [congruence|].
      split; reflexivity. }
    set (winners := List.filter (fun r => snd r =? snd h) (h :: t)).
    intros H; injection H as <-.
    cbn [players pot setPlayers clearTimeout setTurnTimer setGameStatus].
    assert (Hone : (1 <= length winners)%nat).
    { subst winners. simpl. rewrite Z.eqb_refl. simpl. lia. }
    assert (Hmost : (length winners <= length (refsWhere isCandidate (players room)))%nat).
    { rewrite <- Hfst, length_map, <- (Permutation_length Hperm).
      subst winners. apply filter_length_le. }
    assert (Hvalid : Forall (fun w => (fst w < length (players room))%nat) winners).
    { subst winners. apply Forall_filter_keep.
      rewrite Hperm. eapply Forall_impl; [exact Hall|].
      intros r (p & e & Hp & _). eapply lookup_lt_Some, Hp. }
    rewrite (sumOf_payWinners _ _ _ Hvalid).
    set (n := Z.of_nat (length winners)) in *.
    assert (Hn : 0 < n) by lia.
    pose proof (Z.div_mod (pot room) n ltac:(lia)) as Hdm.
    pose proof (Z.mod_pos_bound (pot room) n Hn) as Hmod.
    assert (Hdiv : 0 <= pot room `div` n) by (apply Z.div_pos; lia).
    split; [apply grew_payWinners; [exact Hdiv|apply grew_refl]|].
    split; [nia|]. split; [intros _; nia|]. split; [|reflexivity].
    intros Hnone. rewrite Hnone in Hmost. simpl in Hmost. lia.
Qed.

Lemma endHand_pays_within_pot_witness :
  exists r', endHand riverShowdown = Ret r'
             /\ sumOf chips (players r') <= sumOf chips (players riverShowdown) + 31
             /\ sumOf chips (players riverShowdown) + 31 - 2 < sumOf chips (players r').
Proof.
  destruct (endHand riverShowdown) as [r'| |] eqn:He;
    try (vm_compute in He; discriminate He).
  exists r'. split; [reflexivity|].
  destruct (endHand_pays_within_pot riverShowdown r' ltac:(vm_compute; discriminate) He)
    as (_ & Hmost & Hleast & _).
  split; [exact Hmost|]. apply Hleast. vm_compute. discriminate.
Defined.

End ShowdownMore.

(** ** Street changes: the bets and the board *)

Module StreetMore.
Import EngineNotions EngineLemmas ClosureMore TableNotions Samples.

Lemma bets_alter_addChips (s : Z) (i : nat) (ps : list Player) :
  Forall (fun p => currentBet p = 0) ps ->
  Forall (fun p => currentBet p = 0) (alter (addChips s) i ps).
Proof. intros H. apply Forall_alter; [exact H|]. intros p _ Hp. exact Hp. Qed.

Lemma bets_payWinners (s : Z) (ws : list (nat * Z)) (ps : list Player) :
  Forall (fun p => currentBet p = 0) ps ->
  Forall (fun p => currentBet p = 0) (payWinners s ws ps).
Proof.
  unfold payWinners. revert ps. induction ws as [|w ws IH]; intros ps H; simpl; [exact H|].
  apply IH, bets_alter_addChips, H.
Qed.

Lemma endHand_keeps_gathered (r r' : Room) :
  endHand r = Ret r' -> betsGathered r -> betsGathered r' /\ pot r' = pot r.
Proof.
  intros He (Hb & Hhb & Hlr). revert He.
  destruct (endHand_cases r) as [(w & _ & ->)|[_ ->]].
  - intros H; injection H as <-. split; [|reflexivity].
    split; [|split; assumption]. apply bets_alter_addChips, Hb.
  - destruct (scoreAll _ _ _) as [scores| |]; cbn [mbind Res_bind]; try discriminate.
    cbv zeta.
    intros H; injection H as <-. split; [|reflexivity].
    split; [|split; assumption]. apply bets_payWinners, Hb.
Qed.

Lemma sumOf_zero (f : Player -> Z) (ps : list Player) :
  Forall (fun p => f p = 0) ps -> sumOf f ps = 0.
Proof. induction 1 as [|p ps Hp _ IH]; simpl; lia. Qed.

Lemma sweepBets_gathers (r : Room) :
  betsGathered (sweepBets r) /\ pot (sweepBets r) = pot r + sumOf currentBet (players r).
Proof.
  split; [|simpl; apply fold_left_bets].
  split; [|split; reflexivity]. simpl.
  induction (players r); simpl; constructor; auto.
Qed.

Lemma staysGathered_refl (r : Room) : staysGathered r r.
Proof. intros H. auto. Qed.

Lemma staysGathered_trans (r1 r2 r3 : Room) :
  staysGathered r1 r2 -> staysGathered r2 r3 -> staysGathered r1 r3.
Proof.
  intros H12 H23 H1. destruct (H12 H1) as [H2 Hp2]. destruct (H23 H2) as [H3 Hp3].
  split; [exact H3|congruence].
Qed.

Lemma staysGathered_frame (r r' : Room) :
  players r' = players r -> pot r' = pot r -> gameStatus r' = gameStatus r ->
  highestBet r' = highestBet r -> lastRaiseAmount r' = lastRaiseAmount r ->
  staysGathered r r'.
Proof.
  intros Hps Hpot _ Hhb Hlr (Hb & H0 & Hbb). unfold betsGathered.
  rewrite Hps, Hhb, Hlr. auto.
Qed.

Lemma staysGathered_sweep (r : Room) : staysGathered r (sweepBets r).
Proof.
  intros (Hb & H0 & Hbb). destruct (sweepBets_gathers r) as [Hg Hpot].
  split; [exact Hg|]. rewrite Hpot, (sumOf_zero _ _ Hb). lia.
Qed.

Lemma staysGathered_endHand (r r' : Room) : endHand r = Ret r' -> staysGathered r r'.
Proof. intros He Hg. apply (endHand_keeps_gathered r r' He Hg). Qed.

Lemma nextTurn_staysGathered (fuel : nat) (r r' : Room) :
  nextTurn fuel r = Ret r' -> staysGathered r r'.
Proof.
  apply (nextTurn_with_keeps_bets staysGathered staysGathered_refl staysGathered_trans
           staysGathered_frame).
  intros r1 r2 b.
  apply (checkRoundEnd_keeps_bets staysGathered staysGathered_refl staysGathered_trans
           staysGathered_frame staysGathered_sweep staysGathered_endHand).
Qed.

Lemma active_after_sweep (room : Room) :
  length (List.filter (hasStatus SActive) (players (sweepBets room)))
  = length (List.filter (hasStatus SActive) (players room)).
Proof.
  cbn [sweepBets players setPlayers setPot setHighestBet setLastRaiseAmount].
  induction (players room) as [|p ps IH]; [reflexivity|].
  cbn [map List.filter].
  change (hasStatus SActive (setActedInRound false (setCurrentBet 0 p)))
    with (hasStatus SActive p).
  destruct (hasStatus SActive p); cbn [length]; rewrite IH; reflexivity.
Qed.

Lemma pushCard_board (room : Room) :
  length (communityCards (pushCard room)) = S (length (communityCards room)).
Proof.
  unfold pushCard. destruct (deal (deck room)). simpl.
  rewrite length_app. simpl. lia.
Qed.

Lemma autoRun_board (room : Room) :
  (length (communityCards room) <= 5)%nat ->
  length (communityCards (autoRun room)) = 5%nat.
Proof.
  unfold autoRun. intros Hle.
  assert (H : forall k, length (communityCards (Nat.iter k pushCard room))
                        = (k + length (communityCards room))%nat).
  { induction k as [|k IH]; [reflexivity|].
    change (Nat.iter (S k) pushCard room) with (pushCard (Nat.iter k pushCard room)).
    rewrite pushCard_board, IH. reflexivity. }
  rewrite H. lia.
Qed.

Lemma dealStreet_board (room : Room) :
  (length (communityCards room) <= 4)%nat ->
  (length (communityCards (dealStreet room)) <= 5)%nat.
Proof.
  intros Hle. unfold dealStreet. destruct (roundName room); try lia.
  - cbn [deck setRoundName]. destruct (deal (deck room)) as [[g|] d0].
    + destruct (deal d0) as [c1 d1], (deal d1) as [c2 d2], (deal d2) as [c3 d3]. simpl. lia.
    + simpl. lia.
  - rewrite pushCard_board. simpl. lia.
  - rewrite pushCard_board. simpl. lia.
Qed.

Lemma endHand_board (r r' : Room) :
  endHand r = Ret r' -> communityCards r' = communityCards r.
Proof.
  destruct (endHand_cases r) as [(w & _ & ->)|[_ ->]].
  - intros H; injection H as <-. reflexivity.
  - destruct (scoreAll _ _ _) as [scores| |]; cbn [mbind Res_bind]; try discriminate.
    cbv zeta.
    intros H; injection H as <-. reflexivity.
Qed.

(** X15. Whenever [nextStreet] returns, whatever it went through (a new
    street, a run-out, a showdown), every bet has been moved into the
    pot: no player has a bet left, the highest bet is 0, the minimum
    raise is back to the big blind, and the pot is the old pot plus the
    bets that stood. *)
Theorem street_change_gathers_bets (fuel : nat) (room r' : Room) :
  nextStreet fuel room = Ret r' ->
  betsGathered r' /\ pot r' = pot room + sumOf currentBet (players room).
Proof.
  destruct (sweepBets_gathers room) as [Hg Hpot].
  unfold nextStreet, nextStreet_with. rewrite <- Hpot.
  destruct (bool_decide _); [intros He; apply (staysGathered_endHand _ _ He Hg)|].
  set (r2 := setCurrentTurnIndex _ _).
  assert (H2 : staysGathered (sweepBets room) r2).
  { destruct (dealStreet_frame (sweepBets room)) as (Hps & Hp & Hgs & Hhb).
    apply staysGathered_frame; try assumption. apply dealStreet_bets. }
  destruct (_ <? 2); intros H.
  - apply (staysGathered_trans _ r2 _ H2); [|exact Hg].
    apply (staysGathered_trans _ (autoRun r2)); [|apply staysGathered_endHand, H].
    destruct (autoRun_frame r2) as (Hps & Hp & Hgs).
    destruct (autoRun_bets r2) as (Hhb & Hlr). apply staysGathered_frame; assumption.
  - apply (staysGathered_trans _ r2 _ H2); [|exact Hg].
    apply (nextTurn_staysGathered _ _ _ H).
Qed.

Lemma street_change_gathers_bets_witness :
  exists r', nextStreet 1 bigBlindOption = Ret r'
             /\ betsGathered r' /\ pot r' = 6.
Proof.
  eexists. split; [vm_compute; reflexivity|].
  apply (street_change_gathers_bets 1 bigBlindOption). vm_compute. reflexivity.
Defined.

(** X16. When a street other than the river closes with fewer than two
    players still able to bet, [nextStreet] does not hand out a turn: it
    runs the board out to exactly five cards and goes to showdown on it
    (whenever the showdown returns). *)
Theorem short_table_runs_out_the_board (fuel : nat) (room r' : Room) :
  roundName room <> River ->
  (length (List.filter (hasStatus SActive) (players room)) < 2)%nat ->
  (length (communityCards room) <= 4)%nat ->
  nextStreet fuel room = Ret r' ->
  gameStatus r' = GShowdown /\ length (communityCards r') = 5%nat.
Proof.
  intros Hriver Hfew Hboard. unfold nextStreet, nextStreet_with.
  rewrite bool_decide_eq_false_2 by exact Hriver.
  set (r2 := setCurrentTurnIndex _ _).
  assert (Hps : players r2 = players (sweepBets room)).
  { subst r2. simpl. destruct (dealStreet_frame (sweepBets room)) as (-> & _). reflexivity. }
  rewrite Hps, active_after_sweep.
  destruct (_ <? 2) eqn:Hlen; [|apply Z.ltb_ge in Hlen; lia].
  intros He. split; [apply (endHand_showdown _ _ He)|].
  rewrite (endHand_board _ _ He). apply autoRun_board.
  subst r2. cbn [communityCards setCurrentTurnIndex]. apply dealStreet_board. exact Hboard.
Qed.

Lemma short_table_runs_out_the_board_witness :
  exists r', nextStreet 1 twoAllIn = Ret r'
             /\ gameStatus r' = GShowdown /\ length (communityCards r') = 5%nat.
Proof.
  eexists. split; [vm_compute; reflexivity|].
  apply (short_table_runs_out_the_board 1 twoAllIn);
    [discriminate|vm_compute; lia|vm_compute; lia|vm_compute; reflexivity].
Defined.

End StreetMore.

(** ** The start of a hand *)

Module StartProps.
Import JsLemmas EngineNotions EngineLemmas ShowdownProps TableNotions Samples.

Lemma deal_length (d : list Card) : length (deal d).2 = (length d - 1)%nat.
Proof.
  unfold deal, pop. cbn [snd].
  destruct d as [|c d] using rev_ind; [reflexivity|].
  rewrite removelast_last, length_app. simpl. lia.
Qed.

Lemma justDealt_from (p p1 q : Player) :
  id p1 = id p -> seatIndex p1 = seatIndex p -> chips p1 = chips p ->
  justDealt p1 q -> justDealt p q.
Proof.
  intros Hi Hs Hc (H1 & H2 & H3 & H4). unfold justDealt.
  rewrite <- Hi, <- Hs, <- Hc. auto.
Qed.

(** The dealing loop: every player it is run on is dealt two cards, the
    others are not touched, and the deck gives up two cards per player. *)
Lemma dealHands_spec (refs : list nat) (ps : list Player) (d : list Card) :
  length (dealHands refs ps d).1 = length ps
  /\ length (dealHands refs ps d).2 = (length d - 2 * length refs)%nat
  /\ forall i p, ps !! i = Some p ->
       exists q, (dealHands refs ps d).1 !! i = Some q
                 /\ if decide (i ∈ refs) then justDealt p q else q = p.
Proof.
  revert ps d. induction refs as [|r t IH]; intros ps d.
  { simpl. split; [reflexivity|]. split; [lia|]. intros i p Hp. exists p.
    split; [exact Hp|]. destruct (decide (i ∈ [])) as [Hin|_]; [inversion Hin|reflexivity]. }
  cbn [dealHands].
  pose proof (deal_length d) as Hd1. destruct (deal d) as [c1 d1]. cbn [snd] in Hd1.
  pose proof (deal_length d1) as Hd2. destruct (deal d1) as [c2 d2]. cbn [snd] in Hd2.
  set (upd := fun p => setActedInRound false (setCurrentBet 0
                        (setHand [c1; c2] (setStatus SActive p)))).
  destruct (IH (alter upd r ps) d2) as (Hlen & Hdeck & Hlook).
  split; [rewrite Hlen; apply length_alter|].
  split; [rewrite Hdeck; simpl length; lia|].
  intros i p Hp.
  destruct (decide (i = r)) as [->|Hne].
  - assert (Hr : alter upd r ps !! r = Some (upd p))
      by (rewrite list_lookup_alter_eq, Hp; reflexivity).
    destruct (Hlook r _ Hr) as (q & Hq & Hrel).
    exists q. split; [exact Hq|].
    rewrite decide_True by apply list_elem_of_here.
    destruct (decide (r ∈ t)).
    + eapply justDealt_from; [| | |exact Hrel]; reflexivity.
    + subst q. repeat split.
  - assert (Hi : alter upd r ps !! i = Some p)
      by (rewrite list_lookup_alter_ne by congruence; exact Hp).
    destruct (Hlook i p Hi) as (q & Hq & Hrel).
    exists q. split; [exact Hq|].
    destruct (decide (i ∈ t)) as [Hin|Hnin].
    + rewrite decide_True by (apply list_elem_of_further; exact Hin). exact Hrel.
    + rewrite decide_False; [exact Hrel|].
      intros Hin. apply elem_of_cons in Hin as [?|?]; contradiction.
Qed.

Lemma find_member {A : Type} (f : A -> bool) (l : list A) (x : A) :
  List.find f l = Some x -> x ∈ l.
Proof. intros H. apply find_some in H as [H _]. apply list_elem_of_In. exact H. Qed.

Lemma hd_member (l : list nat) : l <> [] -> hd 0%nat l ∈ l.
Proof. destruct l; [contradiction|]. intros _. apply list_elem_of_here. Qed.

Lemma getNextFrom_member (ps : list Player) (inHand : list nat) (fromIndex : Z)
    (offsets : list Z) :
  inHand <> [] -> getNextFrom ps inHand fromIndex offsets ∈ inHand.
Proof.
  intros Hne. induction offsets as [|i t IH]; simpl; [apply hd_member, Hne|].
  destruct (List.find _ inHand) as [r|] eqn:Hfind; [|exact IH].
  apply (find_member _ _ _ Hfind).
Qed.

Lemma postBlind_dealtIn (blind : Z) (p q : Player) :
  0 <= blind <= BIG_BLIND -> dealtIn p q -> dealtIn p (postBlind blind q).
Proof.
  unfold BIG_BLIND. intros Hb (H1 & H2 & H3 & H4 & H5 & H6 & H7 & H8).
  unfold dealtIn, postBlind, BIG_BLIND. simpl. repeat split; auto; lia.
Qed.

Lemma justDealt_dealtIn (p q : Player) : 0 < chips p -> justDealt p q -> dealtIn p q.
Proof.
  intros Hc (H1 & H2 & H3 & H4 & H5 & H6 & H7). unfold dealtIn, BIG_BLIND.
  repeat split; auto; lia.
Qed.

Lemma blind_keeps (blind : Z) (i : nat) (ps qs : list Player) :
  0 <= blind <= BIG_BLIND ->
  (exists p, ps !! i = Some p /\ inHandFilter p = true) ->
  Forall2 dealtOrKept ps qs ->
  Forall2 dealtOrKept ps (alter (postBlind blind) i qs).
Proof.
  intros Hb (p & Hp & Hin) H. apply Forall2_alter_r; [exact H|].
  intros x y Hx _ Hxy. rewrite Hp in Hx. injection Hx as <-.
  unfold dealtOrKept in *. rewrite Hin in *. apply postBlind_dealtIn; assumption.
Qed.

Lemma getNextFrom_hit (ps : list Player) (inHand : list nat) (fromIndex : Z)
    (l1 l2 : list Z) :
  (exists i, i ∈ l1
     /\ List.find (fun r => seatOf ps r =? (fromIndex + i) `rem` 9) inHand <> None) ->
  exists i, i ∈ l1
    /\ List.find (fun r => seatOf ps r =? (fromIndex + i) `rem` 9) inHand
       = Some (getNextFrom ps inHand fromIndex (l1 ++ l2)).
Proof.
  induction l1 as [|a l1 IH]; intros (i & Hi & Hfound); [inversion Hi|].
  cbn [app getNextFrom].
  destruct (List.find (fun r => seatOf ps r =? (fromIndex + a) `rem` 9) inHand) as [r|] eqn:Ha.
  - exists a. split; [apply list_elem_of_here|exact Ha].
  - apply elem_of_cons in Hi as [->|Hi]; [contradiction|].
    destruct IH as (j & Hj & Hres); [exists i; auto|].
    exists j. split; [apply list_elem_of_further, Hj|exact Hres].
Qed.

(** With another player of the hand on a different seat, the search
    from a seat never comes back to that seat. *)
Lemma getNextPlayer_other (ps : list Player) (inHand : list nat) (fromIndex : Z) (y : nat) :
  0 <= fromIndex < 9 -> y ∈ inHand -> 0 <= seatOf ps y < 9 -> seatOf ps y <> fromIndex ->
  seatOf ps (getNextPlayer ps inHand fromIndex) <> fromIndex.
Proof.
  intros Hfrom Hy Hrange Hne.
  set (k := (seatOf ps y - fromIndex) `mod` 9).
  assert (Hk : 1 <= k <= 8 /\ (fromIndex + k) `rem` 9 = seatOf ps y).
  { pose proof (Z.mod_pos_bound (seatOf ps y - fromIndex) 9 ltac:(lia)) as Hb.
    pose proof (Z.div_mod (seatOf ps y - fromIndex) 9 ltac:(lia)) as Hdm.
    fold k in Hb, Hdm.
    assert (Hq : (seatOf ps y - fromIndex) `div` 9 = 0
                 \/ (seatOf ps y - fromIndex) `div` 9 = -1) by lia.
    split; [lia|]. rewrite Z.rem_mod_nonneg by lia.
    destruct Hq as [Hq|Hq]; rewrite Hq in Hdm.
    - replace (fromIndex + k) with (seatOf ps y) by lia. apply Z.mod_small. lia.
    - replace (fromIndex + k) with (seatOf ps y + 1 * 9) by lia.
      rewrite Z.mod_add by lia. apply Z.mod_small. lia. }
  destruct Hk as [Hk Hseat]. clearbody k.
  destruct (getNextFrom_hit ps inHand fromIndex [1; 2; 3; 4; 5; 6; 7; 8] [9])
    as (i & Hi & Hres).
  { exists k. split.
    - assert (Hcases : k = 1 \/ k = 2 \/ k = 3 \/ k = 4 \/ k = 5 \/ k = 6 \/ k = 7 \/ k = 8)
        by lia.
      repeat (destruct Hcases as [->|Hcases];
              [repeat first [apply list_elem_of_here|apply list_elem_of_further]|]).
      subst k. repeat first [apply list_elem_of_here|apply list_elem_of_further].
    - intros Hnone.
      pose proof (find_none _ _ Hnone y (proj1 (list_elem_of_In _ _) Hy)) as Hf.
      simpl in Hf. rewrite Hseat, Z.eqb_refl in Hf. discriminate. }
  change ([1; 2; 3; 4; 5; 6; 7; 8] ++ [9]) with [1; 2; 3; 4; 5; 6; 7; 8; 9] in Hres.
  fold (getNextPlayer ps inHand fromIndex) in Hres.
  apply find_some in Hres as [_ Hres]. apply Z.eqb_eq in Hres. rewrite Hres.
  assert (Hi8 : 1 <= i <= 8).
  { repeat (apply elem_of_cons in Hi as [->|Hi]); [lia..|inversion Hi]. }
  rewrite Z.rem_mod_nonneg by lia. intros Heq.
  destruct (Z_lt_le_dec (fromIndex + i) 9) as [Hlt|Hge].
  - rewrite Z.mod_small in Heq by lia. lia.
  - replace (fromIndex + i) with (fromIndex + i - 9 + 1 * 9) in Heq by lia.
    rewrite Z.mod_add in Heq by lia. rewrite Z.mod_small in Heq by lia. lia.
Qed.

Lemma another_member (l : list nat) (x : nat) :
  NoDup l -> (2 <= length l)%nat -> exists y, y ∈ l /\ y <> x.
Proof.
  destruct l as [|a [|b t]]; simpl; try lia. intros Hnd _.
  apply NoDup_cons in Hnd as [Hab _].
  destruct (decide (a = x)) as [->|Hax].
  - exists b. split; [apply list_elem_of_further, list_elem_of_here|].
    intros ->. apply Hab, list_elem_of_here.
  - exists a. split; [apply list_elem_of_here|exact Hax].
Qed.

Lemma seatOf_dealt (refs : list nat) (ps : list Player) (d : list Card) (i : nat) :
  seatOf (dealHands refs ps d).1 i = seatOf ps i.
Proof.
  destruct (dealHands_spec refs ps d) as (Hlen & _ & Hlook). unfold seatOf.
  destruct (ps !! i) as [p|] eqn:Hp.
  - destruct (Hlook i p Hp) as (q & -> & Hrel).
    destruct (decide (i ∈ refs)); [apply Hrel|subst q; reflexivity].
  - rewrite (proj2 (lookup_ge_None _ _)); [reflexivity|].
    rewrite Hlen. apply lookup_ge_None, Hp.
Qed.

Lemma seats_distinct (ps : list Player) (i j : nat) :
  NoDup (map seatIndex ps) -> is_Some (ps !! i) -> is_Some (ps !! j) ->
  i <> j -> seatOf ps i <> seatOf ps j.
Proof.
  intros Hnd [p Hp] [q Hq] Hij. unfold seatOf. rewrite Hp, Hq. intros Heq.
  apply Hij. apply (NoDup_lookup _ i j (seatIndex p) Hnd).
  - change (map seatIndex ps) with (seatIndex <$> ps). rewrite list_lookup_fmap, Hp.
    reflexivity.
  - change (map seatIndex ps) with (seatIndex <$> ps). rewrite list_lookup_fmap, Hq.
    simpl. congruence.
Qed.

Lemma seatOf_range (ps : list Player) (i : nat) :
  Forall (fun p => 0 <= seatIndex p < 9) ps -> 0 <= seatOf ps i < 9.
Proof.
  intros Hall. unfold seatOf. destruct (ps !! i) as [p|] eqn:Hp; [|lia].
  rewrite Forall_forall in Hall. apply Hall. eapply list_elem_of_lookup_2, Hp.
Qed.

(** [startGame] with its assignments carried out. *)
Lemma startGame_unfold (shuffled : list Card) (room : Room) :
  let room0 :=
    setDealerIndex (moveDealer (players room) (dealerIndex room) 8)
      (setRoundName Preflop (setHighestBet 0 (setCommunityCards [] (setPot 0
         (setDeck shuffled (setGameStatus GPlaying room)))))) in
  let refs := refsWhere inHandFilter (players room) in
  startGame shuffled room
  = if Z.of_nat (length refs) <? 2 then setGameStatus GWaiting room0
    else
      let ps := (dealHands refs (players room) shuffled).1 in
      let d := (dealHands refs (players room) shuffled).2 in
      let sorted := sortJS (fun a b => seatOf ps a - seatOf ps b) refs in
      let dealer :=
        match List.find (fun r => seatOf ps r =? dealerIndex room0) sorted with
        | Some r => r
        | None => hd 0%nat sorted
        end in
      let isb := getNextPlayer ps sorted (seatOf ps dealer) in
      let ibb := if Z.of_nat (length sorted) =? 2 then dealer
                 else getNextPlayer ps sorted (seatOf ps isb) in
      let ps2 := alter (postBlind BIG_BLIND) ibb (alter (postBlind SMALL_BLIND) isb ps) in
      let iutg := getNextPlayer ps sorted (seatOf ps2 ibb) in
      let r1 :=
        setCurrentTurnIndex (seatOf ps2 iutg)
          (setLastRaiseAmount BIG_BLIND (setHighestBet BIG_BLIND
             (setPlayers ps2 (setBlindIndices (seatOf ps isb) (seatOf ps ibb)
                (setDeck d (setPlayers ps room0)))))) in
      match ps2 !! iutg with
      | Some p => startTurnTimer r1 p
      | None => r1
      end.
Proof.
  destruct room as [ps0 gs mp di sb bb cti po hb lr rn cc dk tt].
  cbv beta iota zeta delta [startGame players deck dealerIndex setGameStatus setDeck setPot
    setCommunityCards setHighestBet setRoundName setDealerIndex setPlayers setBlindIndices
    updPlayer setLastRaiseAmount setCurrentTurnIndex startTurnTimer setTurnTimer
    gameStatus minPlayers sbIndex bbIndex currentTurnIndex pot highestBet lastRaiseAmount
    roundName communityCards turnTimer].
  destruct (_ <? 2); [reflexivity|].
  destruct (dealHands (refsWhere inHandFilter ps0) ps0 shuffled) as [ps d].
  reflexivity.
Qed.

(** The shape of a started hand: the players after the deal, with the
    two blinds posted, and the three positions. *)
Lemma startGame_playing (shuffled : list Card) (room : Room) :
  let refs := refsWhere inHandFilter (players room) in
  (2 <= length refs)%nat ->
  exists isb ibb iutg,
    isb ∈ refs /\ ibb ∈ refs /\ iutg ∈ refs
    /\ (NoDup (map seatIndex (players room)) ->
        Forall (fun p => 0 <= seatIndex p < 9) (players room) -> isb <> ibb)
    /\ let ps := (dealHands refs (players room) shuffled).1 in
       let r' := startGame shuffled room in
       gameStatus r' = GPlaying
       /\ players r' = alter (postBlind BIG_BLIND) ibb (alter (postBlind SMALL_BLIND) isb ps)
       /\ deck r' = (dealHands refs (players room) shuffled).2
       /\ sbIndex r' = seatOf ps isb /\ bbIndex r' = seatOf ps ibb
       /\ currentTurnIndex r' = seatOf (players r') iutg
       /\ turnTimer r' = id <$> players r' !! iutg.
Proof.
  intros refs Hn. pose proof (startGame_unfold shuffled room) as Hu. cbv zeta in Hu.
  fold refs in Hu. rewrite Hu. clear Hu.
  destruct (Z.ltb_spec (Z.of_nat (length refs)) 2) as [Hlt|_]; [lia|].
  set (ps := (dealHands refs (players room) shuffled).1).
  set (sorted := sortJS (fun a b => seatOf ps a - seatOf ps b) refs).
  assert (Hperm : sorted ≡ₚ refs) by apply sortJS_perm.
  assert (Hne : sorted <> []).
  { intros Hnil. rewrite Hnil in Hperm. apply Permutation_length in Hperm.
    simpl in Hperm. lia. }
  assert (Hsub : forall i, i ∈ sorted -> i ∈ refs).
  { intros i Hi. rewrite <- Hperm. exact Hi. }
  set (dealer := match List.find _ sorted with Some r => r | None => hd 0%nat sorted end).
  set (isb := getNextPlayer ps sorted (seatOf ps dealer)).
  set (ibb := if Z.of_nat (length sorted) =? 2 then dealer
              else getNextPlayer ps sorted (seatOf ps isb)).
  assert (Hdealer : dealer ∈ sorted).
  { subst dealer. destruct (List.find _ sorted) as [r|] eqn:Hfind;
      [apply (find_member _ _ _ Hfind)|apply hd_member, Hne]. }
  assert (Hisb : isb ∈ sorted) by apply getNextFrom_member, Hne.
  assert (Hibb : ibb ∈ sorted).
  { subst ibb. destruct (_ =? 2); [exact Hdealer|apply getNextFrom_member, Hne]. }
  set (ps2 := alter (postBlind BIG_BLIND) ibb (alter (postBlind SMALL_BLIND) isb ps)).
  set (iutg := getNextPlayer ps sorted (seatOf ps2 ibb)).
  exists isb, ibb, iutg.
  split; [apply Hsub, Hisb|]. split; [apply Hsub, Hibb|].
  split; [apply Hsub, getNextFrom_member, Hne|].
  split.
  { intros Hnd Hrange.
    assert (Hseat : forall i, seatOf ps i = seatOf (players room) i)
      by (intros i; apply seatOf_dealt).
    assert (Hvalid : forall i, i ∈ sorted -> is_Some (players room !! i)).
    { intros i Hi. apply Hsub, refsWhere_spec in Hi as (p & Hp & _). eauto. }
    assert (Hnds : NoDup sorted) by (rewrite Hperm; apply refsFrom_NoDup).
    assert (Hlens : (2 <= length sorted)%nat) by (rewrite (Permutation_length Hperm); exact Hn).
    assert (Hnext : forall x, x ∈ sorted ->
              seatOf ps (getNextPlayer ps sorted (seatOf ps x)) <> seatOf ps x).
    { intros x Hx. destruct (another_member sorted x Hnds Hlens) as (y & Hy & Hyx).
      apply (getNextPlayer_other ps sorted _ y).
      - rewrite Hseat. apply seatOf_range, Hrange.
      - exact Hy.
      - rewrite Hseat. apply seatOf_range, Hrange.
      - rewrite !Hseat. apply seats_distinct; auto. }
    subst ibb. destruct (_ =? 2).
    - intros Heq. apply (Hnext dealer Hdealer). fold isb. rewrite Heq. reflexivity.
    - intros Heq. apply (Hnext isb Hisb). rewrite <- Heq. reflexivity. }
  assert (Hsome : is_Some (ps2 !! iutg)).
  { apply lookup_lt_is_Some. subst ps2. rewrite !length_alter. subst ps.
    rewrite (proj1 (dealHands_spec refs (players room) shuffled)).
    assert (Hin : iutg ∈ refs) by apply Hsub, getNextFrom_member, Hne.
    apply refsWhere_spec in Hin as (p & Hp & _). eapply lookup_lt_Some, Hp. }
  destruct Hsome as [p Hutg]. cbv zeta. rewrite Hutg.
  repeat (split; [reflexivity|]).
  transitivity (id <$> ps2 !! iutg); [rewrite Hutg; reflexivity|reflexivity].
Qed.

(** X17. [startGame] goes to [playing] exactly when at least two seated
    players have chips and are not sitting out; otherwise the table is
    back in [waiting] and no player is touched. When the hand starts,
    each of those players is active with two cards and a bet of at most
    the big blind taken from the stack, every other player is left as
    before, the deck has given up two cards per player dealt in, and the
    first turn and its timer go to one of the players dealt in. *)
Theorem startGame_deals (shuffled : list Card) (room : Room) :
  let n := length (refsWhere inHandFilter (players room)) in
  let r' := startGame shuffled room in
  ((n < 2)%nat -> gameStatus r' = GWaiting /\ players r' = players room)
  /\ ((2 <= n)%nat ->
      gameStatus r' = GPlaying
      /\ Forall2 dealtOrKept (players room) (players r')
      /\ length (deck r') = (length shuffled - 2 * n)%nat
      /\ exists i p p', players room !! i = Some p /\ inHandFilter p = true
                        /\ players r' !! i = Some p'
                        /\ currentTurnIndex r' = seatIndex p'
                        /\ turnTimer r' = Some (id p')).
Proof.
  intros n r'. split.
  - intros Hn. subst r'. pose proof (startGame_unfold shuffled room) as Hu. cbv zeta in Hu.
    rewrite Hu. fold n. destruct (Z.ltb_spec (Z.of_nat n) 2) as [_|Hge]; [|lia].
    split; reflexivity.
  - intros Hn.
    destruct (startGame_playing shuffled room Hn)
      as (isb & ibb & iutg & Hisb & Hibb & Hiutg & _ & Hshape).
    cbv zeta in Hshape. fold r' in Hshape.
    destruct Hshape as (Hgs & Hps & Hdeck & _ & _ & Hturn & Htimer).
    destruct (dealHands_spec (refsWhere inHandFilter (players room)) (players room) shuffled)
      as (Hlen & Hd & Hlook).
    assert (Hdealt : Forall2 dealtOrKept (players room)
                       (dealHands (refsWhere inHandFilter (players room))
                          (players room) shuffled).1).
    { apply Forall2_same_length_lookup. split; [symmetry; exact Hlen|].
      intros i p q Hp Hq. destruct (Hlook i p Hp) as (q' & Hq' & Hrel).
      rewrite Hq in Hq'. injection Hq' as <-. unfold dealtOrKept.
      destruct (inHandFilter p) eqn:Hin.
      - rewrite decide_True in Hrel by (apply refsWhere_spec; eauto).
        apply justDealt_dealtIn; [|exact Hrel].
        unfold inHandFilter in Hin. apply andb_true_iff in Hin as [Hc _]. lia.
      - rewrite decide_False in Hrel; [exact Hrel|].
        intros Hmem. apply refsWhere_spec in Hmem as (p0 & Hp0 & Hin0).
        rewrite Hp in Hp0. injection Hp0 as <-. congruence. }
    assert (Hall : Forall2 dealtOrKept (players room) (players r')).
    { rewrite Hps. apply blind_keeps; [unfold BIG_BLIND; lia|apply refsWhere_spec, Hibb|].
      apply blind_keeps; [unfold SMALL_BLIND, BIG_BLIND; lia|apply refsWhere_spec, Hisb|].
      exact Hdealt. }
    split; [exact Hgs|]. split; [exact Hall|]. split; [rewrite Hdeck; exact Hd|].
    apply refsWhere_spec in Hiutg as (p & Hp & Hin).
    destruct (Forall2_lookup_l _ _ _ _ _ Hall Hp) as (p' & Hp' & _).
    exists iutg, p, p'. split; [exact Hp|]. split; [exact Hin|]. split; [exact Hp'|].
    rewrite Hturn, Htimer. unfold seatOf. rewrite Hp'. split; reflexivity.
Qed.

Lemma startGame_deals_witness :
  gameStatus (startGame freshDeck lobby3) = GPlaying
  /\ Forall2 dealtOrKept (players lobby3) (players (startGame freshDeck lobby3))
  /\ length (deck (startGame freshDeck lobby3)) = 46%nat.
Proof.
  destruct (proj2 (startGame_deals freshDeck lobby3)) as (H1 & H2 & H3 & _).
  - vm_compute. lia.
  - split; [exact H1|]. split; [exact H2|]. exact H3.
Defined.

(** X18. On a table whose seats are distinct and numbered 0 to 8, a
    hand that starts charges the blinds to two different players dealt
    in: the one on the small-blind seat has bet the small blind, or the
    whole stack when it is shorter, the one on the big-blind seat the
    big blind likewise, every other player dealt in has bet nothing, and
    each bet came out of the stack of the player who made it. *)
Theorem blinds_come_from_two_stacks (shuffled : list Card) (room : Room) :
  NoDup (map seatIndex (players room)) ->
  Forall (fun p => 0 <= seatIndex p < 9) (players room) ->
  (2 <= length (refsWhere inHandFilter (players room)))%nat ->
  let r' := startGame shuffled room in
  exists isb ibb psb pbb,
    isb <> ibb
    /\ players room !! isb = Some psb /\ inHandFilter psb = true
    /\ sbIndex r' = seatIndex psb
    /\ players room !! ibb = Some pbb /\ inHandFilter pbb = true
    /\ bbIndex r' = seatIndex pbb
    /\ forall i p p',
         players room !! i = Some p -> players r' !! i = Some p' ->
         inHandFilter p = true ->
         currentBet p' = (if decide (i = isb) then Z.min (chips p) SMALL_BLIND
                          else if decide (i = ibb) then Z.min (chips p) BIG_BLIND
                          else 0)
         /\ chips p' = chips p - currentBet p'.
Proof.
  intros Hnd Hrange Hn r'.
  destruct (startGame_playing shuffled room Hn)
    as (isb & ibb & iutg & Hisb & Hibb & _ & Hdiff & Hshape).
  specialize (Hdiff Hnd Hrange).
  cbv zeta in Hshape. fold r' in Hshape.
  destruct Hshape as (_ & Hps & _ & Hsb & Hbb & _ & _).
  rewrite seatOf_dealt in Hsb, Hbb.
  apply refsWhere_spec in Hisb as (psb & Hpsb & Hinsb).
  apply refsWhere_spec in Hibb as (pbb & Hpbb & Hinbb).
  exists isb, ibb, psb, pbb.
  split; [exact Hdiff|].
  split; [exact Hpsb|]. split; [exact Hinsb|].
  split; [rewrite Hsb; unfold seatOf; rewrite Hpsb; reflexivity|].
  split; [exact Hpbb|]. split; [exact Hinbb|].
  split; [rewrite Hbb; unfold seatOf; rewrite Hpbb; reflexivity|].
  intros i p p' Hp Hp' Hin. rewrite Hps in Hp'.
  destruct (dealHands_spec (refsWhere inHandFilter (players room)) (players room) shuffled)
    as (_ & _ & Hlook).
  destruct (Hlook i p Hp) as (q & Hq & Hrel).
  rewrite decide_True in Hrel by (apply refsWhere_spec; exists p; split; assumption).
  destruct Hrel as (_ & _ & Hc & _ & _ & Hb & _).
  destruct (decide (i = isb)) as [->|Hnsb].
  - rewrite list_lookup_alter_ne in Hp' by congruence.
    rewrite list_lookup_alter_eq, Hq in Hp'. injection Hp' as <-.
    unfold postBlind. cbn [currentBet chips setCurrentBet setChips]. rewrite Hc. lia.
  - destruct (decide (i = ibb)) as [->|Hnbb].
    + rewrite list_lookup_alter_eq, list_lookup_alter_ne, Hq in Hp' by congruence.
      injection Hp' as <-.
      unfold postBlind. cbn [currentBet chips setCurrentBet setChips]. rewrite Hc. lia.
    + rewrite !list_lookup_alter_ne, Hq in Hp' by congruence. injection Hp' as <-.
      rewrite Hb, Hc. lia.
Qed.

Lemma blinds_come_from_two_stacks_witness :
  exists isb ibb, isb <> ibb
    /\ forall i p p',
         players lobby3 !! i = Some p -> players (startGame freshDeck lobby3) !! i = Some p' ->
         inHandFilter p = true ->
         currentBet p' = (if decide (i = isb) then Z.min (chips p) SMALL_BLIND
                          else if decide (i = ibb) then Z.min (chips p) BIG_BLIND
                          else 0)
         /\ chips p' = chips p - currentBet p'.
Proof.
  destruct (blinds_come_from_two_stacks freshDeck lobby3)
    as (isb & ibb & psb & pbb & Hne & _ & _ & _ & _ & _ & _ & Hall).
  - vm_compute. repeat (apply NoDup_cons_2; [rewrite ?elem_of_cons, elem_of_nil; intuition discriminate|]).
    apply NoDup_nil_2.
  - unfold lobby3, lobby, newPlayer. cbn [players].
    repeat (apply List.Forall_cons; [cbn [seatIndex]; lia|]). apply List.Forall_nil.
  - vm_compute. lia.
  - exists isb, ibb. split; [exact Hne|exact Hall].
Defined.

(** *** The dealer button *)

Lemma occupied_find (ps : list Player) (k : Z) :
  occupied ps k = false <-> List.find (fun p => seatIndex p =? k) ps = None.
Proof.
  unfold occupied. induction ps as [|p ps IH]; simpl; [tauto|].
  destruct (seatIndex p =? k); simpl; [split; discriminate|exact IH].
Qed.

(** The button goes to the seats after [dealerIdx] in turn and stops on
    the first occupied one, or after [n + 1] steps. *)
Lemma moveDealer_spec (ps : list Player) (n : nat) (dealerIdx : Z) :
  0 <= dealerIdx < 9 ->
  exists k, (1 <= k <= S n)%nat
    /\ moveDealer ps dealerIdx n = (dealerIdx + Z.of_nat k) `mod` 9
    /\ (forall j, (1 <= j < k)%nat -> occupied ps ((dealerIdx + Z.of_nat j) `mod` 9) = false)
    /\ ((k <= n)%nat -> occupied ps ((dealerIdx + Z.of_nat k) `mod` 9) = true).
Proof.
  revert dealerIdx. induction n as [|n IH]; intros d Hd; cbn [moveDealer].
  - exists 1%nat. split; [lia|]. split; [apply Z.rem_mod_nonneg; lia|].
    split; intros; lia.
  - assert (Hrem : (d + 1) `rem` 9 = (d + 1) `mod` 9) by (apply Z.rem_mod_nonneg; lia).
    destruct (List.find (fun p => seatIndex p =? (d + 1) `rem` 9) ps) as [q|] eqn:Hfind.
    + exists 1%nat. split; [lia|]. split; [exact Hrem|]. split; [intros; lia|].
      intros _. change (Z.of_nat 1) with 1. rewrite <- Hrem.
      destruct (occupied ps ((d + 1) `rem` 9)) eqn:Hocc; [reflexivity|].
      apply occupied_find in Hocc. congruence.
    + assert (Hnext : 0 <= (d + 1) `rem` 9 < 9)
        by (rewrite Hrem; apply Z.mod_pos_bound; lia).
      destruct (IH _ Hnext) as (k & Hk & Hres & Hfree & Hocc).
      assert (Hshift : forall j : nat, ((d + 1) `rem` 9 + Z.of_nat j) `mod` 9
                                       = (d + Z.of_nat (S j)) `mod` 9).
      { intros j. rewrite Hrem, Zplus_mod_idemp_l. f_equal. lia. }
      exists (S k). split; [lia|]. split; [rewrite <- Hshift; exact Hres|]. split.
      * intros [|[|j]] Hj; [lia| |].
        -- change (Z.of_nat 1) with 1. rewrite <- Hrem. apply occupied_find, Hfind.
        -- rewrite <- Hshift. apply Hfree. lia.
      * intros Hle. rewrite <- Hshift. apply Hocc. lia.
Qed.

(** X24. At the start of a hand the dealer button, from a seat between
    0 and 8, moves to the nearest following seat (modulo 9) that some
    player occupies, whether or not that player can be dealt in; on a
    table with no occupied seat it comes back to where it was. *)
Theorem dealer_moves_to_next_occupied_seat (shuffled : list Card) (room : Room) :
  0 <= dealerIndex room < 9 ->
  (forall k, 1 <= k <= 9 ->
     occupied (players room) ((dealerIndex room + k) `mod` 9) = true ->
     (forall j, 1 <= j < k ->
        occupied (players room) ((dealerIndex room + j) `mod` 9) = false) ->
     dealerIndex (startGame shuffled room) = (dealerIndex room + k) `mod` 9)
  /\ ((forall k, 1 <= k <= 9 ->
         occupied (players room) ((dealerIndex room + k) `mod` 9) = false) ->
      dealerIndex (startGame shuffled room) = dealerIndex room).
Proof.
  intros Hd.
  assert (Hdealer : dealerIndex (startGame shuffled room)
                    = moveDealer (players room) (dealerIndex room) 8).
  { pose proof (startGame_unfold shuffled room) as Hu. cbv zeta in Hu. rewrite Hu.
    destruct (_ <? 2); [reflexivity|].
    destruct (_ !! _); reflexivity. }
  rewrite Hdealer.
  destruct (moveDealer_spec (players room) 8 _ Hd) as (k0 & Hk0 & -> & Hfree & Hocc).
  split.
  - intros k Hk Hok Hbefore.
    destruct (Z.lt_trichotomy k (Z.of_nat k0)) as [Hlt|[Heq|Hgt]].
    + specialize (Hfree (Z.to_nat k) ltac:(lia)).
      rewrite Z2Nat.id in Hfree by lia. congruence.
    + subst k. reflexivity.
    + specialize (Hbefore (Z.of_nat k0) ltac:(lia)).
      rewrite Hocc in Hbefore by lia. discriminate.
  - intros Hnone.
    destruct (decide (k0 = 9%nat)) as [->|Hne].
    + change (Z.of_nat 9) with (1 * 9). rewrite Z.mod_add by lia. apply Z.mod_small, Hd.
    + specialize (Hnone (Z.of_nat k0) ltac:(lia)). rewrite Hocc in Hnone by lia.
      discriminate.
Qed.

Lemma dealer_moves_to_next_occupied_seat_witness :
  dealerIndex (startGame freshDeck lobby3) = 1.
Proof.
  refine (proj1 (dealer_moves_to_next_occupied_seat freshDeck lobby3 _) 1 _ _ _).
  - change (dealerIndex lobby3) with 0. lia.
  - lia.
  - vm_compute. reflexivity.
  - intros j Hj. lia.
Defined.

(** *** After a showdown *)

Lemma refsFrom_length (f : Player -> bool) (k : nat) (ps : list Player) :
  length (refsFrom f k ps) = length (List.filter f ps).
Proof.
  revert k. induction ps as [|p ps IH]; intros k; simpl; [reflexivity|].
  destruct (f p); simpl; rewrite IH; reflexivity.
Qed.

Lemma filter_map_length (f g : Player -> bool) (h : Player -> Player) (ps : list Player) :
  (forall p, f (h p) = g p) ->
  length (List.filter f (map h ps)) = length (List.filter g ps).
Proof.
  intros Hfg. induction ps as [|p ps IH]; simpl; [reflexivity|].
  rewrite Hfg. destruct (g p); simpl; rewrite IH; reflexivity.
Qed.

Lemma filter_filter_and (f g : Player -> bool) (ps : list Player) :
  List.filter g (List.filter f ps) = List.filter (fun p => f p && g p) ps.
Proof.
  induction ps as [|p ps IH]; simpl; [reflexivity|].
  destruct (f p); simpl; [destruct (g p); simpl; rewrite IH; reflexivity|exact IH].
Qed.

(** X25. After a showdown the next hand starts exactly when the players
    with chips who are not sitting out number at least [minPlayers] and
    at least two; otherwise the table waits, with no pot, no board, no
    cards and no bets, each player who is not sitting out marked
    [waiting] with chips and [busted] without. *)
Theorem next_hand_starts_on_quorum (shuffled : list Card) (room : Room) :
  let r' := startNextHandOrWait shuffled room in
  (gameStatus r' = GPlaying
   <-> minPlayers room <= Z.of_nat (fundedAndIn room) /\ (2 <= fundedAndIn room)%nat)
  /\ (gameStatus r' <> GPlaying ->
      gameStatus r' = GWaiting /\ pot r' = 0 /\ communityCards r' = []
      /\ Forall2 (fun p p' =>
                    hand p' = [] /\ currentBet p' = 0 /\ actedInRound p' = false
                    /\ chips p' = chips p /\ id p' = id p /\ seatIndex p' = seatIndex p
                    /\ status p' = (if hasStatus SSittingOut p then SSittingOut
                                    else if 0 <? chips p then SWaiting else SBusted))
           (players room) (players r')).
Proof.
  intros r'. subst r'. unfold startNextHandOrWait.
  set (reset := fun p : Player =>
    if negb (hasStatus SSittingOut (setActedInRound false (setCurrentBet 0 (setHand [] p))))
    then setStatus (if 0 <? chips (setActedInRound false (setCurrentBet 0 (setHand [] p)))
                    then SWaiting else SBusted)
           (setActedInRound false (setCurrentBet 0 (setHand [] p)))
    else setActedInRound false (setCurrentBet 0 (setHand [] p))).
  cbn [players minPlayers setPlayers setGameStatus setCommunityCards setPot].
  set (room1 := setGameStatus GWaiting
                  (setCommunityCards [] (setPot 0 (setPlayers (map reset (players room)) room)))).
  assert (Hreset : forall p,
            hand (reset p) = [] /\ currentBet (reset p) = 0 /\ actedInRound (reset p) = false
            /\ chips (reset p) = chips p /\ id (reset p) = id p
            /\ seatIndex (reset p) = seatIndex p
            /\ status (reset p) = (if hasStatus SSittingOut p then SSittingOut
                                   else if 0 <? chips p then SWaiting else SBusted)).
  { intros p. subst reset. cbv beta.
    change (hasStatus SSittingOut (setActedInRound false (setCurrentBet 0 (setHand [] p))))
      with (hasStatus SSittingOut p).
    change (chips (setActedInRound false (setCurrentBet 0 (setHand [] p)))) with (chips p).
    destruct (hasStatus SSittingOut p) eqn:Hs; cbn [negb]; repeat split.
    apply bool_decide_eq_true in Hs. exact Hs. }
  assert (Hready : length (List.filter (fun p => 0 <? chips p)
                     (List.filter (fun p => hasStatus SWaiting p || hasStatus SActive p
                                            || hasStatus SReady p)
                        (map reset (players room))))
                   = fundedAndIn room).
  { rewrite filter_filter_and. apply filter_map_length. intros p.
    destruct (Hreset p) as (_ & _ & _ & Hc & _ & _ & Hs).
    unfold inHandFilter, hasStatus at 1 2 3. rewrite Hc, Hs.
    destruct (hasStatus SSittingOut p); [simpl; destruct (0 <? chips p); reflexivity|].
    destruct (0 <? chips p); reflexivity. }
  assert (Hin : length (refsWhere inHandFilter (players room1)) = fundedAndIn room).
  { unfold refsWhere. rewrite refsFrom_length. subst room1. cbn [players setGameStatus
      setCommunityCards setPot setPlayers]. apply filter_map_length. intros p.
    destruct (Hreset p) as (_ & _ & _ & Hc & _ & _ & Hs).
    unfold inHandFilter, hasStatus at 1. rewrite Hc, Hs.
    destruct (hasStatus SSittingOut p) eqn:Hso; [reflexivity|].
    destruct (0 <? chips p); reflexivity. }
  rewrite Hready.
  assert (Hwait : gameStatus room1 = GWaiting /\ pot room1 = 0 /\ communityCards room1 = []
                  /\ players room1 = map reset (players room)) by (repeat split).
  destruct Hwait as (Hgs1 & Hpot1 & Hcc1 & Hps1).
  assert (Hrows : Forall2 (fun p p' =>
                    hand p' = [] /\ currentBet p' = 0 /\ actedInRound p' = false
                    /\ chips p' = chips p /\ id p' = id p /\ seatIndex p' = seatIndex p
                    /\ status p' = (if hasStatus SSittingOut p then SSittingOut
                                    else if 0 <? chips p then SWaiting else SBusted))
                  (players room) (map reset (players room))).
  { apply Forall2_map_same. exact Hreset. }
  destruct (Z.leb_spec (minPlayers room) (Z.of_nat (fundedAndIn room))) as [Hq|Hq].
  - destruct (le_lt_dec 2 (fundedAndIn room)) as [Htwo|Hone].
    + destruct (startGame_playing shuffled room1 ltac:(rewrite Hin; exact Htwo))
        as (isb & ibb & iutg & _ & _ & _ & _ & Hshape).
      cbv zeta in Hshape. destruct Hshape as (Hplay & _).
      split; [split; [intros _; split; assumption|intros _; exact Hplay]|].
      intros Hnot. contradiction.
    + pose proof (startGame_unfold shuffled room1) as Hu. cbv zeta in Hu.
      rewrite Hin in Hu.
      destruct (Z.ltb_spec (Z.of_nat (fundedAndIn room)) 2) as [_|Hge]; [|lia].
      rewrite Hu. cbn [gameStatus pot communityCards players setGameStatus setDealerIndex
        setRoundName setHighestBet setCommunityCards setPot setDeck].
      split; [split; [discriminate|intros [_ H2]; lia]|].
      intros _. rewrite Hps1. auto.
  - split; [split; [rewrite Hgs1; discriminate|intros [H1 _]; lia]|].
    intros _. rewrite Hps1. auto.
Qed.

End StartProps.

(** ** The socket handlers *)

Module HandlerProps.
Import JsLemmas EngineNotions EngineLemmas TableNotions Samples Handlers.

(** *** Joining a table *)

Lemma taken_seat (taken : list Z) (seat : Z) :
  existsb (Z.eqb seat) taken = true <-> seat ∈ taken.
Proof.
  rewrite existsb_exists, list_elem_of_In. split.
  - intros (x & Hx & Heq). apply Z.eqb_eq in Heq. subst x. exact Hx.
  - intros Hin. exists seat. split; [exact Hin|apply Z.eqb_refl].
Qed.

(** The loop stops on the first seat that is not taken, if there is one
    within its budget. *)
Lemma nextFreeSeat_scan (taken : list Z) (n : nat) (seat : Z) :
  seat <= nextFreeSeat taken seat n <= seat + Z.of_nat n
  /\ (forall k, seat <= k < nextFreeSeat taken seat n -> k ∈ taken)
  /\ (nextFreeSeat taken seat n < seat + Z.of_nat n -> nextFreeSeat taken seat n ∉ taken).
Proof.
  revert seat. induction n as [|n IH]; intros seat; cbn [nextFreeSeat].
  { split; [lia|]. split; intros; lia. }
  destruct (existsb (Z.eqb seat) taken) eqn:Hseat.
  - apply taken_seat in Hseat. destruct (IH (seat + 1)) as (Hr & Hbelow & Hfree).
    split; [lia|]. split.
    + intros k Hk. destruct (decide (k = seat)) as [->|Hne]; [exact Hseat|].
      apply Hbelow. lia.
    + intros Hlt. apply Hfree. lia.
  - split; [lia|]. split; [intros k Hk; lia|].
    intros _ Hin. apply taken_seat in Hin. congruence.
Qed.

(** As many increments as there are taken seats are enough. *)
Lemma nextFreeSeat_free (taken : list Z) (seat : Z) :
  nextFreeSeat taken seat (length taken) ∉ taken.
Proof.
  destruct (nextFreeSeat_scan taken (length taken) seat) as (Hr & Hbelow & Hfree).
  destruct (decide (nextFreeSeat taken seat (length taken) < seat + Z.of_nat (length taken)))
    as [Hlt|Hge]; [apply Hfree, Hlt|].
  intros Hin.
  set (run := (fun i : nat => seat + Z.of_nat i) <$> seq 0 (S (length taken))).
  assert (Hnd : NoDup run).
  { apply NoDup_fmap_2; [intros i j Hij; lia|apply NoDup_seq]. }
  assert (Hsub : forall x, x ∈ run -> x ∈ taken).
  { intros x Hx. apply list_elem_of_fmap in Hx as (i & -> & Hi).
    apply elem_of_seq in Hi.
    destruct (decide (seat + Z.of_nat i = nextFreeSeat taken seat (length taken)))
      as [->|Hne]; [exact Hin|].
    apply Hbelow. lia. }
  pose proof (submseteq_length _ _ (NoDup_submseteq _ _ Hnd Hsub)) as Hlen.
  subst run. rewrite length_fmap, length_seq in Hlen. lia.
Qed.

(** X19. A join under a name that plain objects do not inherit, with
    a string for nickname, to a table with fewer than nine players (a
    table not there yet counts as empty), returns and appends the player
    to that table with 200 chips, waiting, without cards or bet, on the
    lowest seat number from 0 that no player of the table has; that
    number is at most the number of players, and a table whose seats were
    distinct and numbered 0 to 8 is still so with the new player. Under
    an inherited name ([constructor], [__proto__], ...) the handler
    throws and the registry is as before; with a nickname that is not a
    string it throws without seating anybody. *)
Theorem joinRoom_takes_lowest_free_seat (rooms : gmap string Room)
    (roomName socketId : string) (nickname : option string) :
  let room := default newRoom (rooms !! roomName) in
  let after := joinRoom rooms roomName nickname socketId in
  (inherited roomName = false -> is_Some nickname -> (length (players room) < 9)%nat ->
   exists seat,
     after.2 = Ret tt
     /\ after.1 !! roomName
        = Some (setPlayers
                  (players room ++ [mkPlayer socketId STARTING_CHIPS seat SWaiting [] 0 false])
                  room)
     /\ (seat ∉ map seatIndex (players room))
     /\ (forall k, 0 <= k < seat -> k ∈ map seatIndex (players room))
     /\ 0 <= seat <= Z.of_nat (length (players room))
     /\ (wellSeated (players room) ->
         wellSeated (players room
                     ++ [mkPlayer socketId STARTING_CHIPS seat SWaiting [] 0 false])))
  /\ (inherited roomName = true -> after = (rooms, Throw))
  /\ (inherited roomName = false -> nickname = None -> (length (players room) < 9)%nat ->
      after.2 = Throw /\ after.1 !! roomName = Some room).
Proof.
  intros room after. split; [|split].
  - intros Hname [nick ->] Hlen.
    set (taken := map seatIndex (players room)).
    exists (nextFreeSeat taken 0 (length taken)).
    destruct (nextFreeSeat_scan taken (length taken) 0) as (Hr & Hbelow & _).
    pose proof (nextFreeSeat_free taken 0) as Hfree.
    assert (Htaken : length taken = length (players room)) by apply length_map.
    assert (Hjoin : after.2 = Ret tt
              /\ after.1 !! roomName
                 = Some (setPlayers
                           (players room
                            ++ [mkPlayer socketId STARTING_CHIPS
                                  (nextFreeSeat taken 0 (length taken)) SWaiting [] 0 false])
                           room)).
    { subst after. unfold joinRoom. rewrite Hname. subst room taken.
      destruct (rooms !! roomName) as [room|] eqn:Hroom; cbn [from_option Datatypes.id] in *.
      - destruct (Z.leb_spec 9 (Z.of_nat (length (players room)))) as [Hfull|_]; [lia|].
        cbn [fst snd]. split; [reflexivity|apply lookup_insert_eq].
      - change (9 <=? Z.of_nat (length (players newRoom))) with false. cbv iota.
        cbn [fst snd]. split; [reflexivity|apply lookup_insert_eq]. }
    destruct Hjoin as [Hret Hlook].
    split; [exact Hret|]. split; [exact Hlook|].
    split; [exact Hfree|]. split; [exact Hbelow|]. split; [lia|].
    intros [Hnd Hrange]. unfold wellSeated. rewrite map_app, Forall_app. cbn [map seatIndex].
    split.
    + apply NoDup_app. split; [exact Hnd|]. split; [|apply NoDup_singleton].
      intros x Hx Hnew. apply list_elem_of_singleton in Hnew. subst x. exact (Hfree Hx).
    + split; [exact Hrange|]. apply Forall_singleton. cbn [seatIndex]. lia.
  - intros Hname. subst after. unfold joinRoom. rewrite Hname. reflexivity.
  - intros Hname -> Hlen. subst after. unfold joinRoom. rewrite Hname. subst room.
    destruct (rooms !! roomName) as [room|] eqn:Hroom; cbn [from_option Datatypes.id] in *.
    + destruct (Z.leb_spec 9 (Z.of_nat (length (players room)))) as [Hfull|_]; [lia|].
      cbn [fst snd]. split; [reflexivity|exact Hroom].
    + change (9 <=? Z.of_nat (length (players newRoom))) with false. cbv iota.
      cbn [fst snd]. split; [reflexivity|apply lookup_insert_eq].
Qed.

Lemma joinRoom_takes_lowest_free_seat_witness :
  exists seat,
    (joinRoom {[ "main" := lobby3 ]} "main" (Some "Dee") "dee").2 = Ret tt
    /\ (joinRoom {[ "main" := lobby3 ]} "main" (Some "Dee") "dee").1 !! "main"
       = Some (setPlayers (players lobby3 ++ [mkPlayer "dee" STARTING_CHIPS seat SWaiting [] 0 false])
                 lobby3)
    /\ (seat ∉ map seatIndex (players lobby3)).
Proof.
  destruct (proj1 (joinRoom_takes_lowest_free_seat {[ "main" := lobby3 ]} "main" "dee"
                     (Some "Dee")))
    as (seat & Hret & Hjoin & Hfree & _).
  - reflexivity.
  - eexists. reflexivity.
  - rewrite lookup_singleton_eq. simpl. lia.
  - exists seat. rewrite lookup_singleton_eq in Hjoin, Hfree. split; [exact Hret|].
    split; assumption.
Defined.

(** X20. No table ever gets a tenth player: if no table of the
    registry has more than nine players, none has after a join, however
    the join ends; a join to a table that has nine leaves the registry as
    it is; and a join never touches a table other than the one it
    names. *)
Theorem joinRoom_keeps_tables_bounded (rooms : gmap string Room)
    (roomName socketId : string) (nickname : option string) :
  map_Forall (fun _ r => (length (players r) <= 9)%nat) rooms ->
  map_Forall (fun _ r => (length (players r) <= 9)%nat)
    (joinRoom rooms roomName nickname socketId).1
  /\ (forall room, rooms !! roomName = Some room -> (9 <= length (players room))%nat ->
        (joinRoom rooms roomName nickname socketId).1 = rooms)
  /\ (forall other, other <> roomName ->
        (joinRoom rooms roomName nickname socketId).1 !! other = rooms !! other).
Proof.
  intros Hall. unfold joinRoom.
  destruct (inherited roomName); [cbn [fst]; auto|].
  split; [|split].
  - destruct (rooms !! roomName) as [room|] eqn:Hroom.
    + destruct (Z.leb_spec 9 (Z.of_nat (length (players room)))) as [Hfull|Hless];
        [exact Hall|].
      destruct nickname; cbn [fst]; [|exact Hall].
      apply map_Forall_insert_2; [|exact Hall].
      cbn [players setPlayers]. rewrite length_app. simpl. lia.
    + change (9 <=? Z.of_nat (length (players newRoom))) with false. cbv iota.
      destruct nickname; cbn [fst].
      * apply map_Forall_insert_2; [simpl; lia|].
        apply map_Forall_insert_2; [simpl; lia|exact Hall].
      * apply map_Forall_insert_2; [simpl; lia|exact Hall].
  - intros room Hroom Hfull. rewrite Hroom.
    destruct (Z.leb_spec 9 (Z.of_nat (length (players room)))) as [_|Hless]; [reflexivity|lia].
  - intros other Hne. destruct (rooms !! roomName) as [room|] eqn:Hroom.
    + destruct (9 <=? _); [reflexivity|].
      destruct nickname; cbn [fst]; [|reflexivity]. apply lookup_insert_ne. congruence.
    + change (9 <=? Z.of_nat (length (players newRoom))) with false. cbv iota.
      destruct nickname; cbn [fst]; rewrite !lookup_insert_ne by congruence; reflexivity.
Qed.

Lemma joinRoom_keeps_tables_bounded_witness :
  map_Forall (fun _ r => (length (players r) <= 9)%nat)
    (joinRoom {[ "main" := lobby3 ]} "main" (Some "Dee") "dee").1
  /\ (joinRoom {[ "main" := lobby3 ]} "main" (Some "Dee") "dee").1 !! "side" = None.
Proof.
  destruct (joinRoom_keeps_tables_bounded {[ "main" := lobby3 ]} "main" "dee" (Some "Dee"))
    as (Hall & _ & Hother).
  - apply map_Forall_singleton. simpl. lia.
  - split; [exact Hall|]. rewrite Hother by discriminate. apply lookup_singleton_ne.
    discriminate.
Defined.

(** *** Rebuying *)

Lemma findPlayer_spec (socketId : string) (ps : list Player) (i : nat) (p : Player) :
  findPlayer socketId ps = Some (i, p) -> ps !! i = Some p /\ id p = socketId.
Proof. unfold findPlayer. intros H. apply list_find_Some in H as (Hp & Hid & _). auto. Qed.

Lemma findPlayer_first (socketId : string) (ps : list Player) (i : nat) (p : Player) :
  firstWith socketId ps i p -> findPlayer socketId ps = Some (i, p).
Proof.
  intros (Hp & Hid & Hfirst). unfold findPlayer. apply list_find_Some.
  split; [exact Hp|]. split; [exact Hid|]. intros j q Hq Hj. apply (Hfirst j q Hq Hj).
Qed.

Lemma findPlayer_nobody (socketId : string) (ps : list Player) :
  Forall (fun p => id p <> socketId) ps -> findPlayer socketId ps = None.
Proof. intros Hall. unfold findPlayer. apply list_find_None. exact Hall. Qed.

Lemma alter_is_insert (f : Player -> Player) (i : nat) (ps : list Player) (p : Player) :
  ps !! i = Some p -> alter f i ps = <[i := f p]> ps.
Proof.
  revert i. induction ps as [|q ps IH]; intros [|i] Hp; try discriminate.
  - injection Hp as ->. reflexivity.
  - simpl in Hp. change (alter f (S i) (q :: ps)) with (q :: alter f i ps).
    rewrite (IH i Hp). reflexivity.
Qed.

(** X21. A rebuy is decided on the first player [p] with the
    requester's socket. Outside a hand in progress it is granted exactly
    when [p] has no chips left ([chips <= 0]): the stack becomes
    [chips + 200] and nothing else changes. During a hand it is granted
    exactly when [p] has 0 chips and is busted or waiting, that is,
    outside the hand: [p] then has 200 chips and waits. A request that is
    not granted, or from a socket with no player at the table, changes
    nothing; a granted one changes nothing but that player. *)
Theorem rebuy_only_when_broke (room : Room) (socketId : string) :
  (Forall (fun p => id p <> socketId) (players room) -> requestRebuy room socketId = room)
  /\ forall i p, firstWith socketId (players room) i p ->
       (gameStatus room <> GPlaying -> chips p <= 0 ->
          requestRebuy room socketId
          = tableWith (<[i := mkPlayer (id p) (chips p + 200) (seatIndex p) (status p)
                              (hand p) (currentBet p) (actedInRound p)]> (players room))
              room)
       /\ (gameStatus room <> GPlaying -> 0 < chips p -> requestRebuy room socketId = room)
       /\ (gameStatus room = GPlaying -> chips p = 0 ->
           status p = SBusted \/ status p = SWaiting ->
           requestRebuy room socketId
           = tableWith (<[i := mkPlayer (id p) 200 (seatIndex p) SWaiting
                               (hand p) (currentBet p) (actedInRound p)]> (players room))
               room)
       /\ (gameStatus room = GPlaying ->
           chips p <> 0 \/ (status p <> SBusted /\ status p <> SWaiting) ->
           requestRebuy room socketId = room).
Proof.
  split.
  { intros Hall. unfold requestRebuy. rewrite (findPlayer_nobody _ _ Hall). reflexivity. }
  intros i p Hfirst. pose proof Hfirst as (Hp & _ & _).
  unfold requestRebuy. rewrite (findPlayer_first _ _ _ _ Hfirst).
  assert (Hmode : negb (bool_decide (gameStatus room = GWaiting))
                  && negb (bool_decide (gameStatus room = GShowdown))
                  = bool_decide (gameStatus room = GPlaying)).
  { destruct (gameStatus room); reflexivity. }
  rewrite Hmode. unfold updPlayer. rewrite !(alter_is_insert _ _ _ _ Hp).
  split; [|split; [|split]].
  - intros Hgs Hc. rewrite bool_decide_eq_false_2 by exact Hgs.
    destruct (Z.leb_spec (chips p) 0) as [_|Hgt]; [reflexivity|lia].
  - intros Hgs Hc. rewrite bool_decide_eq_false_2 by exact Hgs.
    destruct (Z.leb_spec (chips p) 0) as [Hle|_]; [lia|reflexivity].
  - intros Hgs Hc Hst. rewrite bool_decide_eq_true_2 by exact Hgs.
    rewrite Hc. unfold hasStatus.
    destruct Hst as [Hst|Hst]; rewrite Hst; reflexivity.
  - intros Hgs Hno. rewrite bool_decide_eq_true_2 by exact Hgs.
    destruct Hno as [Hc|[Hb Hw]].
    + destruct (Z.eqb_spec (chips p) 0) as [Hz|_]; [contradiction|reflexivity].
    + unfold hasStatus. rewrite (bool_decide_eq_false_2 _ Hb), (bool_decide_eq_false_2 _ Hw).
      rewrite andb_false_r. reflexivity.
Qed.

Lemma rebuy_only_when_broke_witness :
  requestRebuy brokeLobby "cy"
  = tableWith (<[2%nat := mkPlayer "cy" 200 2 SBusted [] 0 false]> (players brokeLobby))
      brokeLobby.
Proof.
  refine (proj1 (proj2 (rebuy_only_when_broke brokeLobby "cy") 2%nat
                   (mkPlayer "cy" 0 2 SBusted [] 0 false) _) _ _).
  - split; [reflexivity|]. split; [reflexivity|].
    intros [|[|j]] q Hq Hj; [| |lia]; injection Hq as <-; discriminate.
  - discriminate.
  - vm_compute. discriminate.
Defined.

(** *** Leaving a table *)

Lemma seating_alter_all (f : Player -> Player) (i : nat) (ps : list Player) :
  (forall p, (id (f p), seatIndex (f p)) = (id p, seatIndex p)) ->
  map (fun p => (id p, seatIndex p)) (alter f i ps) = map (fun p => (id p, seatIndex p)) ps.
Proof.
  intros Hf. revert i. induction ps as [|q ps IH]; intros [|i]; simpl; auto.
  - rewrite Hf. reflexivity.
  - f_equal. apply IH.
Qed.

Lemma seating_alter_const (p1 player : Player) (i : nat) (ps : list Player) :
  ps !! i = Some player ->
  (id p1, seatIndex p1) = (id player, seatIndex player) ->
  map (fun p => (id p, seatIndex p)) (alter (fun _ => p1) i ps)
  = map (fun p => (id p, seatIndex p)) ps.
Proof.
  intros Hp Hk. revert i Hp. induction ps as [|q ps IH]; intros [|i] Hp; simpl in *; auto.
  - injection Hp as ->. rewrite Hk. reflexivity.
  - f_equal. apply IH. exact Hp.
Qed.

Lemma seating_map (g : Player -> Player) (ps : list Player) :
  (forall p, (id (g p), seatIndex (g p)) = (id p, seatIndex p)) ->
  map (fun p => (id p, seatIndex p)) (map g ps) = map (fun p => (id p, seatIndex p)) ps.
Proof. intros Hg. induction ps as [|q ps IH]; simpl; [reflexivity|]. rewrite Hg, IH. auto. Qed.

Lemma seating_reopen (player : Player) (room : Room) :
  seating (reopenBetting player room) = seating room.
Proof.
  unfold seating, reopenBetting. cbn [players setPlayers].
  apply seating_map. intros p. destruct (_ && _); reflexivity.
Qed.

Lemma seating_acted (i : nat) (room : Room) :
  seating (updPlayer i (setActedInRound true) room) = seating room.
Proof. apply seating_alter_all. reflexivity. Qed.

Lemma seating_replace (i : nat) (p1 player : Player) (room : Room) :
  players room !! i = Some player ->
  (id p1, seatIndex p1) = (id player, seatIndex player) ->
  seating (updPlayer i (fun _ => p1) room) = seating room.
Proof. intros Hp Hk. apply (seating_alter_const _ _ _ _ Hp Hk). Qed.

Lemma applyAction_seating (room : Room) (i : nat) (player : Player) (data : ActionData) :
  players room !! i = Some player ->
  seating (applyAction room i player data) = seating room.
Proof.
  intros Hp. unfold applyAction. rewrite seating_acted.
  destruct (action data).
  - apply seating_alter_all. reflexivity.
  - destruct (0 <? _); [apply seating_alter_all|]; reflexivity.
  - apply (seating_replace _ _ _ _ Hp). destruct (_ =? 0); reflexivity.
  - rewrite seating_reopen. destruct (chips player <? _).
    + destruct (_ <? _); apply (seating_replace _ _ _ _ Hp); reflexivity.
    + destruct (0 <? _); apply (seating_replace _ _ _ _ Hp); reflexivity.
  - rewrite seating_reopen. destruct (chips player <? _).
    + destruct (_ <? _); apply (seating_replace _ _ _ _ Hp); reflexivity.
    + destruct (0 <? _); apply (seating_replace _ _ _ _ Hp); reflexivity.
  - destruct (_ <? _); [rewrite seating_reopen|];
      apply (seating_replace _ _ _ _ Hp); reflexivity.
  - reflexivity.
Qed.

Lemma seating_payWinners (s : Z) (ws : list (nat * Z)) (ps : list Player) :
  map (fun p => (id p, seatIndex p)) (payWinners s ws ps)
  = map (fun p => (id p, seatIndex p)) ps.
Proof.
  unfold payWinners. revert ps. induction ws as [|w ws IH]; intros ps; simpl; [reflexivity|].
  rewrite IH. apply seating_alter_all. reflexivity.
Qed.

Lemma seating_endHand (r r' : Room) : endHand r = Ret r' -> seating r' = seating r.
Proof.
  unfold seating. destruct (endHand_cases r) as [(w & _ & ->)|[_ ->]].
  - intros H; injection H as <-. apply seating_alter_all. reflexivity.
  - destruct (scoreAll _ _ _) as [scores| |]; cbn [mbind Res_bind]; try discriminate.
    cbv zeta.
    intros H; injection H as <-. apply seating_payWinners.
Qed.

(** An action, with everything it sets off, moves nobody. *)
Lemma handlePlayerAction_seating (fuel : nat) (room : Room) (i : nat) (data : ActionData)
    (r' : Room) :
  handlePlayerAction fuel room i data = Ret r' -> seating r' = seating room.
Proof.
  unfold handlePlayerAction.
  destruct (negb _); [intros H; injection H as <-; reflexivity|].
  destruct (players room !! i) as [player|] eqn:Hp; [|discriminate].
  destruct (negb _); [intros H; injection H as <-; reflexivity|].
  intros Hrun.
  apply (closure_keeps (fun r r' => seating r' = seating r)) in Hrun.
  - rewrite Hrun. apply (applyAction_seating (clearTimeout room) i player data Hp).
  - reflexivity.
  - intros r1 r2 r3 H12 H23. congruence.
  - intros r1 r2 Hps _ _. unfold seating. rewrite Hps. reflexivity.
  - intros r. unfold seating, sweepBets. cbn [players setPlayers setPot setHighestBet
      setLastRaiseAmount]. apply seating_map. reflexivity.
  - apply seating_endHand.
Qed.

(** X22. When a player disconnects and the handler returns, the first
    player with that socket is gone from the table and every other
    player is still there, in the same order, with the same socket and
    seat, whatever the fold of the leaver set off. *)
Theorem disconnect_removes_the_leaver (fuel : nat) (room : Room) (socketId : string)
    (pIndex : nat) (p : Player) (r' : Room) :
  findPlayer socketId (players room) = Some (pIndex, p) ->
  disconnect fuel room socketId = Ret r' ->
  seating r' = delete pIndex (seating room)
  /\ (length (players r') + 1 = length (players room))%nat.
Proof.
  intros Hfind. unfold disconnect. rewrite Hfind.
  apply findPlayer_spec in Hfind as [Hp _].
  assert (Hdel : forall r, seating r = seating room ->
            seating (setPlayers (delete pIndex (players r)) r) = delete pIndex (seating room)
            /\ (length (players (setPlayers (delete pIndex (players r)) r)) + 1
                = length (players room))%nat).
  { intros r Hr.
    assert (Hseat : seating (setPlayers (delete pIndex (players r)) r)
                    = delete pIndex (seating r)).
    { unfold seating. cbn [players setPlayers].
      apply (list_fmap_delete (fun q => (id q, seatIndex q))). }
    rewrite Hseat, Hr. split; [reflexivity|]. cbn [players setPlayers].
    assert (Hlen : length (players r) = length (players room)).
    { apply (f_equal length) in Hr. unfold seating in Hr. rewrite !length_map in Hr.
      exact Hr. }
    rewrite length_delete by (apply lookup_lt_is_Some; rewrite Hlen;
                              eapply lookup_lt_Some, Hp).
    apply lookup_lt_Some in Hp. lia. }
  destruct (bool_decide (gameStatus room = GPlaying)).
  - assert (Hfolded : seating (updPlayer pIndex (setStatus SFolded) room) = seating room)
      by (apply seating_alter_all; reflexivity).
    destruct (seatIndex p =? _).
    + destruct (handlePlayerAction fuel _ pIndex _) as [r2| |] eqn:Hact;
        cbn [mbind Res_bind]; try discriminate.
      intros H; injection H as <-. apply (Hdel r2).
      rewrite (handlePlayerAction_seating _ _ _ _ _ Hact). exact Hfolded.
    + cbn [mbind Res_bind]. intros H; injection H as <-.
      apply (Hdel (updPlayer pIndex (setStatus SFolded) room) Hfolded).
  - intros H; injection H as <-. apply (Hdel room eq_refl).
Qed.

Lemma disconnect_removes_the_leaver_witness :
  exists r', disconnect 2 preflop3 "bob" = Ret r'
             /\ seating r' = [("ann", 0); ("cy", 2)].
Proof.
  eexists. split; [vm_compute; reflexivity|].
  refine (proj1 (disconnect_removes_the_leaver 2 preflop3 "bob" 1 bobUnderTheGun _ _ _));
    vm_compute; reflexivity.
Defined.

(** The last two live players leave one after the other, the second in
    turn: the forced fold closes the round with nobody left in the hand,
    the board is run out, the showdown finds no candidate and pays
    nobody, and the handler returns with the leaver removed. The pot of 4
    stays on the table. *)
Lemma last_players_leave :
  exists r1 r2,
    disconnect 2 flopHeadsUp "cy" = Ret r1
    /\ seating r1 = [("ann", 0); ("bob", 1)] /\ gameStatus r1 = GPlaying
    /\ disconnect 2 r1 "ann" = Ret r2
    /\ seating r2 = [("bob", 1)] /\ gameStatus r2 = GShowdown
    /\ map chips (players r2) = [200] /\ pot r2 = 4
    /\ length (communityCards r2) = 5%nat.
Proof.
  eexists. eexists. split; [vm_compute; reflexivity|]. split; [reflexivity|].
  split; [reflexivity|]. split; [vm_compute; reflexivity|]. repeat split.
Qed.

(** *** What the table shows *)

(** X23. Until showdown the state broadcast to the table says nothing
    about which cards anybody holds: two tables that differ only by the
    deck and by the cards in the hands broadcast the same state. *)
Theorem hole_cards_hidden_until_showdown (started : bool) (r1 r2 : Room) :
  gameStatus r1 <> GShowdown ->
  sameButCards r1 r2 ->
  broadcastRoomState started r1 = broadcastRoomState started r2.
Proof.
  intros Hgs [Hroom Hps]. unfold broadcastRoomState.
  assert (Hfields : gameStatus r2 = gameStatus r1 /\ communityCards r2 = communityCards r1
                    /\ pot r2 = pot r1 /\ highestBet r2 = highestBet r1
                    /\ minPlayers r2 = minPlayers r1 /\ dealerIndex r2 = dealerIndex r1
                    /\ sbIndex r2 = sbIndex r1 /\ bbIndex r2 = bbIndex r1
                    /\ currentTurnIndex r2 = currentTurnIndex r1).
  { rewrite Hroom. repeat split. }
  destruct Hfields as (E1 & E2 & E3 & E4 & E5 & E6 & E7 & E8 & E9).
  assert (Hsame : forall p q,
            q = setHand (hand q) p ->
            (length (hand q) = 0%nat <-> length (hand p) = 0%nat) ->
            publicPlayer started r1 p = publicPlayer started r2 q).
  { intros p q Hq Hlen. unfold publicPlayer. rewrite E1, E6, E7, E8, E9.
    rewrite (bool_decide_eq_false_2 _ Hgs).
    assert (Hhas : (0 <? Z.of_nat (length (hand p))) = (0 <? Z.of_nat (length (hand q)))).
    { destruct (length (hand p)) eqn:Ep, (length (hand q)) eqn:Eq; try reflexivity.
      - destruct Hlen as [_ Hlen]. specialize (Hlen eq_refl). discriminate.
      - destruct Hlen as [Hlen _]. specialize (Hlen eq_refl). discriminate. }
    rewrite Hhas, Hq. reflexivity. }
  assert (Hmap : map (publicPlayer started r1) (players r1)
                 = map (publicPlayer started r2) (players r2)).
  { clear Hroom. induction Hps as [|p q ps qs [Hq Hlen] _ IH]; [reflexivity|].
    cbn [map]. rewrite IH, (Hsame p q Hq Hlen). reflexivity. }
  rewrite E1, E2, E3, E4, E5, Hmap. reflexivity.
Qed.

Lemma hole_cards_hidden_until_showdown_witness :
  broadcastRoomState true preflop3
  = broadcastRoomState true
      (setDeck [] (setPlayers (map (setHand [None; None]) (players preflop3)) preflop3)).
Proof.
  apply hole_cards_hidden_until_showdown; [vm_compute; discriminate|].
  split; [vm_compute; reflexivity|]. vm_compute.
  repeat (apply Forall2_cons_2; [split; [reflexivity|split; discriminate]|]).
  apply Forall2_nil_2.
Defined.

End HandlerProps.
